(** * Waterline query core: the stage-two query forge and the join integrator

    A shallow embedding of [lib/waterline/utils/query/forge-stage-two-query.js]
    ([forgeStageTwoQuery]) and of the query integrator ([integrate]) that
    follows it in the same source file, with the properties of the
    specification stated and proved over the embedding.

    Conventions of the embedding.
    - A JavaScript value is a term of [value]. Numbers are integers.
    - A dictionary is the list of its own enumerable properties, in the
      order in which the engine enumerates them; there is no prototype
      chain and there are no accessors.
    - A function of the source that can throw returns a [result]; code that
      mutates its argument threads the mutated object as explicit state. *)

From Stdlib Require Import ZArith String List Bool Lia.
From stdpp Require Import base option list strings gmap pretty.
Import ListNotations.
Open Scope string_scope.
Open Scope list_scope.

(** Outcome of a call that may throw. *)
Inductive result (E A : Type) : Type :=
| Ok (a : A)
| Err (e : E).
Arguments Ok {E A} a.
Arguments Err {E A} e.

(* ===================================================================== *)
(** * Part I: forgeStageTwoQuery                                          *)
(* ===================================================================== *)

Module Forge.

(** ** JavaScript values *)

#[local] Set Warnings "-register-all".

Inductive value : Type :=
| VUndefined
| VNull
| VBool (b : bool)
| VNum (n : Z)
| VStr (s : string)
| VFun (name : string)
| VArr (elems : list value)
| VObj (props : list (string * value)).

Definition dict := list (string * value).

(** [d[k]] on a dictionary: the first binding of [k], [undefined] if none. *)
Fixpoint prop (d : dict) (k : string) : value :=
  match d with
  | [] => VUndefined
  | (k', v) :: d' => if String.eqb k' k then v else prop d' k
  end.

(** [d[k] = v]: overwrite in place when the key exists, append otherwise. *)
Fixpoint set_prop (d : dict) (k : string) (v : value) : dict :=
  match d with
  | [] => [(k, v)]
  | (k', v') :: d' =>
      if String.eqb k' k then (k', v) :: d' else (k', v') :: set_prop d' k v
  end.

(** [delete d[k]]. *)
Fixpoint delete_prop (d : dict) (k : string) : dict :=
  match d with
  | [] => []
  | (k', v') :: d' =>
      if String.eqb k' k then delete_prop d' k else (k', v') :: delete_prop d' k
  end.

(** [_.keys(d)]: the own keys, each once, in order of first occurrence. *)
Fixpoint keys (d : dict) : list string :=
  match d with
  | [] => []
  | (k, _) :: d' => k :: List.filter (fun k' => negb (String.eqb k k')) (keys d')
  end.

(** ** lodash predicates *)

Definition isUndefined (v : value) : bool :=
  match v with VUndefined => true | _ => false end.

Definition isObject (v : value) : bool :=
  match v with VObj _ | VArr _ | VFun _ => true | _ => false end.

Definition isArray (v : value) : bool :=
  match v with VArr _ => true | _ => false end.

Definition isFunction (v : value) : bool :=
  match v with VFun _ => true | _ => false end.

Definition isString (v : value) : bool :=
  match v with VStr _ => true | _ => false end.

(** JavaScript truthiness, for [if (x)] and [!x]. *)
Definition truthy (v : value) : bool :=
  match v with
  | VUndefined | VNull | VBool false => false
  | VNum n => negb (Z.eqb n 0)
  | VStr s => negb (String.eqb s "")
  | _ => true
  end.

(** [v === s] for a string literal [s]. *)
Definition is_str (s : string) (v : value) : bool :=
  match v with VStr s' => String.eqb s' s | _ => false end.

(** [v === true] and [v === false]. *)
Definition is_true (v : value) : bool :=
  match v with VBool true => true | _ => false end.
Definition is_false (v : value) : bool :=
  match v with VBool false => true | _ => false end.

(** [_.isEqual(v, {})] and [_.isEqual(v, [])]. *)
Definition isEmptyDict (v : value) : bool :=
  match v with VObj [] => true | _ => false end.
Definition isEmptyArray (v : value) : bool :=
  match v with VArr [] => true | _ => false end.

(** [v.k] for a named property [k], where [v] is known not to be
    [undefined] or [null]: dictionaries carry named properties; of what an
    array inherits, the source can only reach [sort]. *)
Definition field (v : value) (k : string) : value :=
  match v with
  | VObj d => prop d k
  | VArr _ => if String.eqb k "sort" then VFun "Array.prototype.sort" else VUndefined
  | _ => VUndefined
  end.

(** [v.k = x] on a dictionary. *)
Definition set_field (v : value) (k : string) (x : value) : value :=
  match v with
  | VObj d => VObj (set_prop d k x)
  | _ => v
  end.

(** [delete v.k] on a dictionary. *)
Definition delete_field (v : value) (k : string) : value :=
  match v with
  | VObj d => VObj (delete_prop d k)
  | _ => v
  end.

(** [s.indexOf(t) > -1]. *)
Definition has_substring (t s : string) : bool :=
  match String.index 0 t s with Some _ => true | None => false end.

(** The characters of a string, each as a one-character string. *)
Fixpoint chars (s : string) : list value :=
  match s with
  | EmptyString => []
  | String c s' => VStr (String c EmptyString) :: chars s'
  end.

(** [_.contains(coll, name)] for a string [name]: membership in an array,
    among the values of a dictionary, as a substring of a string; [false]
    for everything else. *)
Definition contains (coll : value) (name : string) : bool :=
  match coll with
  | VArr xs => existsb (is_str name) xs
  | VObj d => existsb (is_str name) (map snd d)
  | VStr s => has_substring name s
  | _ => false
  end.

(** [_.contains(list, s)] for an array literal of strings. *)
Definition contains_str (l : list string) (s : string) : bool :=
  existsb (String.eqb s) l.

(** [_.difference(xs, ys)]. *)
Definition difference (xs ys : list string) : list string :=
  List.filter (fun x => negb (contains_str ys x)) xs.

(** [_.keys(v)[0]]: the first own key, if there is one. *)
Definition first_key (v : value) : option string :=
  match v with
  | VObj d => head (keys d)
  | VArr (_ :: _) => Some "0"
  | VStr (String _ _) => Some "0"
  | _ => None
  end.

(** [_.any(coll, pred)]. *)
Definition any (coll : value) (pred : value -> bool) : bool :=
  match coll with
  | VArr xs => existsb pred xs
  | VObj d => existsb pred (map snd d)
  | VStr s => existsb pred (chars s)
  | _ => false
  end.

(** ** Errors *)

(** The codes of [buildUsageError]. *)
Inductive usage_code : Type :=
| E_INVALID_META
| E_INVALID_CRITERIA
| E_INVALID_POPULATES
| E_INVALID_NUMERIC_ATTR_NAME
| E_INVALID_STREAM_ITERATEE
| E_INVALID_NEW_RECORD
| E_INVALID_NEW_RECORDS
| E_INVALID_VALUES_TO_SET
| E_INVALID_TARGET_RECORD_IDS
| E_INVALID_COLLECTION_ATTR_NAME
| E_INVALID_ASSOCIATED_IDS.

(** The places where the source throws [new Error('Consistency violation: ...')]. *)
Inductive violation : Type :=
| BadUsing
| ModelNotRegistered
| BadMethod
| UnrecognizedMethod (m : string)
| ExtraneousKeys (ks : list string)
| CriteriaMatchesNothing
| CriteriaInternalError
| PopulateLookupError (attr : string)
| SubcriteriaMatchesNothing (attr : string)
| SubcriteriaInternalError (attr : string).

(** An error thrown by a dependency: the source only inspects its [code]. *)
Record exn : Type := { code : string; message : string }.

Inductive error : Type :=
| UsageError (c : usage_code)           (* buildUsageError(c, ...) *)
| ConsistencyViolation (w : violation)  (* new Error('Consistency violation: ...') *)
| Rethrown (e : exn)                    (* throw e *)
| TypeError.                            (* raised by the engine *)

(** A typed usage error carries one of the codes; every other error is a
    plain error. *)
Definition is_usage_error (e : error) : bool :=
  match e with UsageError _ => true | _ => false end.

(** The two classes of errors are disjoint: whatever is not a typed usage
    error (a consistency violation, an error of a dependency that is thrown
    again, an error of the engine) is fatal. *)
Definition is_fatal (e : error) : bool := negb (is_usage_error e).

(** ** The dependencies of the module

    The functions that the source obtains through [require], resolved
    against a fixed [orm]. Each either returns or throws an [exn]. *)

Record ModelDef : Type := { primaryKey : value }.

(** An attribute definition: the three properties that the source reads. *)
Record AttrDef : Type := { attr_type : value; attr_model : value; attr_collection : value }.

Class Dependencies : Type := {
  getModel : value -> result exn ModelDef;
  getAttribute : value -> value -> result exn AttrDef;
  isCapableOfOptimizedPopulate : string -> value -> result exn bool;
  normalizePkValues : value -> value -> result exn value;
  normalizeCriteria : value -> value -> bool -> result exn value;
  normalizeNewRecord : value -> value -> bool -> result exn value;
  normalizeValueToSet : value -> string -> value -> bool -> result exn value;
  (** [process.env.NODE_ENV === 'production'] *)
  production : bool
}.

(** ** State and control

    The state is the query dictionary that the source mutates, together
    with the trace of the calls made into the dependencies. *)

Inductive event : Type :=
| CallGetModel (identity : value)
| CallGetAttribute (attr : value) (identity : value)
| CallIsCapable (attr : string) (identity : value)
| CallNormalizePkValues (v : value)
| CallNormalizeCriteria (c : value) (identity : value)
| CallNormalizeNewRecord (r : value)
| CallNormalizeValueToSet (v : value) (attr : string)
| ConsoleWarn (attr : string).

(** The calls that normalize a part of the query. *)
Definition is_normalizer_call (ev : event) : bool :=
  match ev with
  | CallNormalizePkValues _ | CallNormalizeCriteria _ _
  | CallNormalizeNewRecord _ | CallNormalizeValueToSet _ _ => true
  | _ => false
  end.

Record state : Type := { query : dict; trace : list event }.

Definition M (A : Type) : Type := state -> result error A * state.

Definition ret {A} (a : A) : M A := fun s => (Ok a, s).
Definition throw {A} (e : error) : M A := fun s => (Err e, s).
Definition bind {A B} (m : M A) (f : A -> M B) : M B :=
  fun s => match m s with
           | (Ok a, s') => f a s'
           | (Err e, s') => (Err e, s')
           end.

Notation "'do' x <- m ; k" := (bind m (fun x => k))
  (at level 10, x name, m at level 100, k at level 200).
Notation "'run' m ; k" := (bind m (fun _ => k))
  (at level 10, m at level 100, k at level 200).

Definition getQuery : M dict := fun s => (Ok (query s), s).
Definition putQuery (q : dict) : M unit :=
  fun s => (Ok tt, {| query := q; trace := trace s |}).
Definition emit (ev : event) : M unit :=
  fun s => (Ok tt, {| query := query s; trace := trace s ++ [ev] |}).

(** [query[k]] and [query[k] = v]. *)
Definition readKey (k : string) : M value := do q <- getQuery; ret (prop q k).
Definition writeKey (k : string) (v : value) : M unit :=
  do q <- getQuery; putQuery (set_prop q k v).

(** [if (c) { m }] *)
Definition when (c : bool) (m : M unit) : M unit := if c then m else ret tt.

(** [v.k] where [v] may be anything: the engine throws on [undefined] and [null]. *)
Definition member (v : value) (k : string) : M value :=
  match v with
  | VUndefined | VNull => throw TypeError
  | _ => ret (field v k)
  end.

(** [v[0]] *)
Definition first_elem (v : value) : M value :=
  match v with
  | VUndefined | VNull => throw TypeError
  | VArr (x :: _) => ret x
  | VStr (String c _) => ret (VStr (String c EmptyString))
  | VObj d => ret (prop d "0")
  | _ => ret VUndefined
  end.

(** [_.each(xs, f)] *)
Fixpoint forEach {A} (f : A -> M unit) (xs : list A) : M unit :=
  match xs with
  | [] => ret tt
  | x :: xs' => run f x; forEach f xs'
  end.

(** [_.map(xs, f)] *)
Fixpoint mapM {A B} (f : A -> M B) (xs : list A) : M (list B) :=
  match xs with
  | [] => ret []
  | x :: xs' => do y <- f x; do ys <- mapM f xs'; ret (y :: ys)
  end.

(** [try { f(...) } catch (e) { handler }]: the call is recorded, a value is
    returned, an exception goes to the handler. *)
Definition tryCall {A} (ev : event) (r : result exn A) (handler : exn -> error) : M A :=
  run emit ev;
  match r with
  | Ok a => ret a
  | Err e => throw (handler e)
  end.

(** A call outside any [try]: an exception propagates unchanged. *)
Definition call {A} (ev : event) (r : result exn A) : M A := tryCall ev r Rethrown.

(** ** forgeStageTwoQuery *)

(** The switch of [_getQueryKeys]: each recognized method with the query
    keys it accepts. *)
Definition methodTable : list (string * list string) :=
  [ ("find",                 [ "criteria"; "populates" ]);
    ("findOne",              [ "criteria"; "populates" ]);
    ("stream",               [ "criteria"; "populates"; "eachRecordFn"; "eachBatchFn" ]);
    ("count",                [ "criteria" ]);
    ("sum",                  [ "numericAttrName"; "criteria" ]);
    ("avg",                  [ "numericAttrName"; "criteria" ]);
    ("create",               [ "newRecord" ]);
    ("createEach",           [ "newRecords" ]);
    ("findOrCreate",         [ "criteria"; "newRecord" ]);
    ("update",               [ "criteria"; "valuesToSet" ]);
    ("destroy",              [ "criteria" ]);
    ("addToCollection",      [ "targetRecordIds"; "collectionAttrName"; "associatedIds" ]);
    ("removeFromCollection", [ "targetRecordIds"; "collectionAttrName"; "associatedIds" ]);
    ("replaceCollection",    [ "targetRecordIds"; "collectionAttrName"; "associatedIds" ]) ].

Fixpoint switch {A} (cases : list (string * A)) (s : string) : option A :=
  match cases with
  | [] => None
  | (c, a) :: cases' => if String.eqb s c then Some a else switch cases' s
  end.

(** [None] is the [default:] branch, which throws. *)
Definition _getQueryKeys (method : string) : option (list string) :=
  switch methodTable method.

Definition universalKeys : list string := [ "meta"; "using"; "method" ].

Definition PROJECTION_COMPATIBLE_METHODS : list string := [ "find"; "findOne"; "stream" ].
Definition LIMIT_COMPATIBLE_METHODS : list string :=
  [ "find"; "stream"; "sum"; "avg"; "update"; "destroy" ].

(** [Number.MAX_SAFE_INTEGER||9007199254740991] *)
Definition MAX_SAFE_INTEGER : Z := 9007199254740991.

Definition is_num (n : Z) (v : value) : bool :=
  match v with VNum m => Z.eqb m n | _ => false end.

(** [switch (e.code) { case c1: ... case cn: throw hit; default: throw miss }] *)
Definition on_codes (cs : list string) (hit : error) (miss : exn -> error) (e : exn) : error :=
  if contains_str cs (code e) then hit else miss e.

Section WithDependencies.
Context {deps : Dependencies}.

(** *** Check the essentials *)

Definition checkMeta : M unit :=
  do meta <- readKey "meta";
  when (negb (isUndefined meta))
    (when (negb (isObject meta) || isArray meta || isFunction meta)
       (throw (UsageError E_INVALID_META))).

(** [(!query.meta || query.meta.typeSafety !== '')] *)
Definition ensureTypeSafetyOf (meta : value) : bool :=
  negb (truthy meta) || negb (is_str "" (field meta "typeSafety")).

Definition checkUsing : M value :=
  do usingId <- readKey "using";
  if negb (isString usingId) || is_str "" usingId
  then throw (ConsistencyViolation BadUsing)
  else ret usingId.

Definition lookupModel (usingId : value) : M ModelDef :=
  tryCall (CallGetModel usingId) (getModel usingId)
    (on_codes [ "E_MODEL_NOT_REGISTERED" ] (ConsistencyViolation ModelNotRegistered) Rethrown).

Definition checkMethod : M string :=
  do method <- readKey "method";
  match method with
  | VStr m => if String.eqb m "" then throw (ConsistencyViolation BadMethod) else ret m
  | _ => throw (ConsistencyViolation BadMethod)
  end.

Definition getQueryKeys (method : string) : M (list string) :=
  match _getQueryKeys method with
  | Some ks => ret ks
  | None => throw (ConsistencyViolation (UnrecognizedMethod method))
  end.

Definition checkKeys (queryKeys : list string) : M unit :=
  do q <- getQuery;
  let allowedKeys := universalKeys ++ queryKeys in
  let extraneousKeys := difference (keys q) allowedKeys in
  when (0 <? length extraneousKeys)%nat
    (throw (ConsistencyViolation (ExtraneousKeys extraneousKeys))).

(** *** Criteria *)

Definition criteriaHandler : exn -> error :=
  on_codes [ "E_HIGHLY_IRREGULAR" ] (UsageError E_INVALID_CRITERIA)
    (on_codes [ "E_WOULD_RESULT_IN_NOTHING" ] (ConsistencyViolation CriteriaMatchesNothing)
       (fun _ => ConsistencyViolation CriteriaInternalError)).

Definition forgeCriteria (usingId : value) (method : string) (ensureTypeSafety : bool) : M unit :=
  do c0 <- readKey "criteria";
  run when (isUndefined c0) (writeKey "criteria" (VObj []));
  do c <- readKey "criteria";
  run when (isObject c &&
            (negb (isUndefined (field c "select")) || negb (isUndefined (field c "omit"))))
        (when (negb (contains_str PROJECTION_COMPATIBLE_METHODS method))
           (throw (UsageError E_INVALID_CRITERIA)));
  run when (isObject c && negb (isUndefined (field c "limit")))
        (when (negb (contains_str LIMIT_COMPATIBLE_METHODS method))
           (throw (UsageError E_INVALID_CRITERIA)));
  do c' <- tryCall (CallNormalizeCriteria c usingId)
             (normalizeCriteria c usingId ensureTypeSafety) criteriaHandler;
  writeKey "criteria" c'.

(** *** Populates *)

Definition readPopulate (k : string) : M value :=
  do p <- readKey "populates"; ret (field p k).
Definition writePopulate (k : string) (v : value) : M unit :=
  do p <- readKey "populates"; writeKey "populates" (set_field p k v).
Definition deletePopulate (k : string) : M unit :=
  do p <- readKey "populates"; writeKey "populates" (delete_field p k).

(** [_.keys(comparatorDirective)[0] === populateAttrName] *)
Definition sortsBy (k : string) (comparatorDirective : value) : bool :=
  match first_key comparatorDirective with
  | Some sortBy => String.eqb sortBy k
  | None => false
  end.

Definition subcriteriaHandler (k : string) : exn -> error :=
  on_codes [ "E_HIGHLY_IRREGULAR" ] (UsageError E_INVALID_POPULATES)
    (on_codes [ "E_WOULD_RESULT_IN_NOTHING" ] (ConsistencyViolation (SubcriteriaMatchesNothing k))
       (fun _ => ConsistencyViolation (SubcriteriaInternalError k))).

(** The right-hand side of a singular ("model") association. *)
Definition forgeSingularPopulate (k : string) : M unit :=
  do rhs <- readPopulate k;
  if isEmptyDict rhs then writePopulate k (VBool true)
  else when (negb (is_true rhs)) (throw (UsageError E_INVALID_POPULATES)).

(** The right-hand side of a plural ("collection") association. *)
Definition forgePluralPopulate (usingId : value) (ensureTypeSafety : bool)
    (otherModelIdentity : value) (k : string) : M unit :=
  do rhs0 <- readPopulate k;
  run when (is_true rhs0) (writePopulate k (VObj []));
  do rhs <- readPopulate k;
  let wasSubcriteriaSortOmitted :=
    negb (isObject rhs) || isUndefined (field rhs "sort") || isEmptyArray (field rhs "sort") in
  do sub <- tryCall (CallNormalizeCriteria rhs otherModelIdentity)
              (normalizeCriteria rhs otherModelIdentity ensureTypeSafety)
              (subcriteriaHandler k);
  run writePopulate k sub;
  when production
    (do isAssociationFullyCapable <-
        call (CallIsCapable k usingId) (isCapableOfOptimizedPopulate k usingId);
     when (negb isAssociationFullyCapable)
       (do subcriteria <- readPopulate k;
        do skip <- member subcriteria "skip";
        do limit <- member subcriteria "limit";
        let isPotentiallyDangerous :=
          negb (is_num 0 skip) || negb (is_num MAX_SAFE_INTEGER limit)
          || negb wasSubcriteriaSortOmitted in
        when isPotentiallyDangerous (emit (ConsoleWarn k)))).

(** [if (_.contains(query.criteria.omit, populateAttrName)) throw ...] *)
Definition checkNotOmitted (k : string) : M unit :=
  do criteria <- readKey "criteria";
  do omit <- member criteria "omit";
  when (contains omit k) (throw (UsageError E_INVALID_POPULATES)).

(** [if (query.criteria.select[0] !== '*' && !_.contains(query.criteria.select, populateAttrName))
       query.criteria.select.push(populateAttrName)] *)
Definition includeInSelect (k : string) : M unit :=
  do criteria <- readKey "criteria";
  do select <- member criteria "select";
  do select0 <- first_elem select;
  when (negb (is_str "*" select0) && negb (contains select k))
    match select with
    | VArr xs => writeKey "criteria" (set_field criteria "select" (VArr (xs ++ [ VStr k ])))
    | _ => throw TypeError
    end.

(** [if (_.any(query.criteria.sort, ...)) throw ...] *)
Definition checkNotSorted (k : string) : M unit :=
  do criteria <- readKey "criteria";
  do sort <- member criteria "sort";
  when (any sort (sortsBy k)) (throw (UsageError E_INVALID_POPULATES)).

Definition lookupAssociation (usingId : value) (k : string) : M AttrDef :=
  tryCall (CallGetAttribute (VStr k) usingId) (getAttribute (VStr k) usingId)
    (on_codes [ "E_ATTR_NOT_REGISTERED" ] (UsageError E_INVALID_POPULATES)
       (fun _ => ConsistencyViolation (PopulateLookupError k))).

(** The body of the loop over [_.keys(query.populates)]. *)
Definition forgePopulate (usingId : value) (ensureTypeSafety : bool) (k : string) : M unit :=
  do rhs <- readPopulate k;
  if is_false rhs || isUndefined rhs then deletePopulate k
  else
    run checkNotOmitted k;
    run includeInSelect k;
    run checkNotSorted k;
    do populateAttrDef <- lookupAssociation usingId k;
    do otherModelIdentity <-
      (if truthy (attr_model populateAttrDef) then ret (attr_model populateAttrDef)
       else if truthy (attr_collection populateAttrDef)
            then ret (attr_collection populateAttrDef)
            else throw (UsageError E_INVALID_POPULATES));
    if truthy (attr_model populateAttrDef)
    then forgeSingularPopulate k
    else forgePluralPopulate usingId ensureTypeSafety otherModelIdentity k.

Definition forgePopulates (usingId : value) (ensureTypeSafety : bool) : M unit :=
  do p0 <- readKey "populates";
  run when (isUndefined p0) (writeKey "populates" (VObj []));
  do p <- readKey "populates";
  if negb (isObject p) || isArray p || isFunction p
  then throw (UsageError E_INVALID_POPULATES)
  else
    match p with
    | VObj d => forEach (forgePopulate usingId ensureTypeSafety) (keys d)
    | _ => ret tt
    end.

(** *** Numeric attribute name *)

Definition forgeNumericAttrName (usingId : value) : M unit :=
  do numericAttrName <- readKey "numericAttrName";
  run when (isUndefined numericAttrName) (throw (UsageError E_INVALID_NUMERIC_ATTR_NAME));
  run when (negb (isString numericAttrName)) (throw (UsageError E_INVALID_NUMERIC_ATTR_NAME));
  do numericAttrDef <-
    tryCall (CallGetAttribute numericAttrName usingId) (getAttribute numericAttrName usingId)
      (on_codes [ "E_ATTR_NOT_REGISTERED" ] (UsageError E_INVALID_NUMERIC_ATTR_NAME) Rethrown);
  when (negb (is_str "number" (attr_type numericAttrDef)))
    (throw (UsageError E_INVALID_NUMERIC_ATTR_NAME)).

(** *** Each record / each batch *)

Definition forgeStreamIteratee : M unit :=
  do eachRecordFn <- readKey "eachRecordFn";
  do eachBatchFn <- readKey "eachBatchFn";
  if negb (isUndefined eachRecordFn) && negb (isUndefined eachBatchFn)
  then throw (UsageError E_INVALID_STREAM_ITERATEE)
  else if negb (isUndefined eachRecordFn)
  then when (negb (isFunction eachRecordFn)) (throw (UsageError E_INVALID_STREAM_ITERATEE))
  else if negb (isUndefined eachBatchFn)
  then when (negb (isFunction eachBatchFn)) (throw (UsageError E_INVALID_STREAM_ITERATEE))
  else throw (UsageError E_INVALID_STREAM_ITERATEE).

(** *** New record, new records *)

Definition newRecordCodes : list string :=
  [ "E_INVALID"; "E_MISSING_REQUIRED"; "E_HIGHLY_IRREGULAR" ].

Definition forgeNewRecord (usingId : value) (ensureTypeSafety : bool) : M unit :=
  do newRecord <- readKey "newRecord";
  do r <- tryCall (CallNormalizeNewRecord newRecord)
            (normalizeNewRecord newRecord usingId ensureTypeSafety)
            (on_codes newRecordCodes (UsageError E_INVALID_NEW_RECORD) Rethrown);
  writeKey "newRecord" r.

Definition forgeNewRecords (usingId : value) (ensureTypeSafety : bool) : M unit :=
  do newRecords <- readKey "newRecords";
  run when (isUndefined newRecords) (throw (UsageError E_INVALID_NEW_RECORDS));
  match newRecords with
  | VArr xs =>
      do ys <- mapM (fun newRecord =>
                 tryCall (CallNormalizeNewRecord newRecord)
                   (normalizeNewRecord newRecord usingId ensureTypeSafety)
                   (on_codes newRecordCodes (UsageError E_INVALID_NEW_RECORDS) Rethrown)) xs;
      writeKey "newRecords" (VArr ys)
  | _ => throw (UsageError E_INVALID_NEW_RECORDS)
  end.

(** *** Values to set *)

Definition forgeValueToSet (usingId : value) (ensureTypeSafety : bool) (attrNameToSet : string)
    : M unit :=
  do valuesToSet <- readKey "valuesToSet";
  let v := field valuesToSet attrNameToSet in
  run emit (CallNormalizeValueToSet v attrNameToSet);
  match normalizeValueToSet v attrNameToSet usingId ensureTypeSafety with
  | Ok v' => writeKey "valuesToSet" (set_field valuesToSet attrNameToSet v')
  | Err e =>
      if String.eqb (code e) "E_SHOULD_BE_IGNORED"
      then writeKey "valuesToSet" (delete_field valuesToSet attrNameToSet)
      else throw (on_codes [ "E_HIGHLY_IRREGULAR"; "E_INVALID" ]
                    (UsageError E_INVALID_VALUES_TO_SET) Rethrown e)
  end.

Definition forgeValuesToSet (usingId : value) (ensureTypeSafety : bool) : M unit :=
  do valuesToSet <- readKey "valuesToSet";
  if negb (isObject valuesToSet) || isFunction valuesToSet || isArray valuesToSet
  then throw (UsageError E_INVALID_VALUES_TO_SET)
  else
    match valuesToSet with
    | VObj d => forEach (forgeValueToSet usingId ensureTypeSafety) (keys d)
    | _ => ret tt
    end.

(** *** Target record ids *)

Definition forgeTargetRecordIds (usingId : value) (WLModel : ModelDef) : M unit :=
  let handler := on_codes [ "E_INVALID_PK_VALUE" ] (UsageError E_INVALID_TARGET_RECORD_IDS) Rethrown in
  do pkAttrDef <- tryCall (CallGetAttribute (primaryKey WLModel) usingId)
                    (getAttribute (primaryKey WLModel) usingId) handler;
  do targetRecordIds <- readKey "targetRecordIds";
  do ids <- tryCall (CallNormalizePkValues targetRecordIds)
              (normalizePkValues targetRecordIds (attr_type pkAttrDef)) handler;
  writeKey "targetRecordIds" ids.

(** *** Collection attribute name *)

Definition forgeCollectionAttrName (usingId : value) : M unit :=
  do collectionAttrName <- readKey "collectionAttrName";
  run when (negb (isString collectionAttrName)) (throw (UsageError E_INVALID_COLLECTION_ATTR_NAME));
  do associationDef <-
    tryCall (CallGetAttribute collectionAttrName usingId) (getAttribute collectionAttrName usingId)
      (on_codes [ "E_ATTR_NOT_REGISTERED" ] (UsageError E_INVALID_COLLECTION_ATTR_NAME) Rethrown);
  when (negb (truthy (attr_collection associationDef)))
    (throw (UsageError E_INVALID_COLLECTION_ATTR_NAME)).

(** *** Associated ids *)

Definition forgeAssociatedIds (usingId : value) : M unit :=
  do collectionAttrName <- readKey "collectionAttrName";
  do _associationDef <-
    call (CallGetAttribute collectionAttrName usingId) (getAttribute collectionAttrName usingId);
  let _otherModelIdentity := attr_collection _associationDef in
  do AssociatedModel <- call (CallGetModel _otherModelIdentity) (getModel _otherModelIdentity);
  do _associatedPkDef <-
    call (CallGetAttribute (primaryKey AssociatedModel) _otherModelIdentity)
      (getAttribute (primaryKey AssociatedModel) _otherModelIdentity);
  let associatedPkType := attr_type _associatedPkDef in
  do associatedIds <- readKey "associatedIds";
  do ids <- tryCall (CallNormalizePkValues associatedIds)
              (normalizePkValues associatedIds associatedPkType)
              (on_codes [ "E_INVALID_PK_VALUE" ] (UsageError E_INVALID_ASSOCIATED_IDS) Rethrown);
  writeKey "associatedIds" ids.

(** *** The whole function *)

(** The part of the function that follows the checks of the essentials:
    one block per query key, each run only if the method accepts the key. *)
Definition forgeQueryKeys (usingId : value) (WLModel : ModelDef) (method : string)
    (ensureTypeSafety : bool) (queryKeys : list string) : M unit :=
  run when (contains_str queryKeys "criteria") (forgeCriteria usingId method ensureTypeSafety);
  run when (contains_str queryKeys "populates") (forgePopulates usingId ensureTypeSafety);
  run when (contains_str queryKeys "numericAttrName") (forgeNumericAttrName usingId);
  run when (contains_str queryKeys "eachRecordFn" || contains_str queryKeys "eachBatchFn")
        forgeStreamIteratee;
  run when (contains_str queryKeys "newRecord") (forgeNewRecord usingId ensureTypeSafety);
  run when (contains_str queryKeys "newRecords") (forgeNewRecords usingId ensureTypeSafety);
  run when (contains_str queryKeys "valuesToSet") (forgeValuesToSet usingId ensureTypeSafety);
  run when (contains_str queryKeys "targetRecordIds") (forgeTargetRecordIds usingId WLModel);
  run when (contains_str queryKeys "collectionAttrName") (forgeCollectionAttrName usingId);
  run when (contains_str queryKeys "associatedIds") (forgeAssociatedIds usingId);
  ret tt.

Definition forgeStageTwoQuery : M unit :=
  run checkMeta;
  do meta <- readKey "meta";
  let ensureTypeSafety := ensureTypeSafetyOf meta in
  do usingId <- checkUsing;
  do WLModel <- lookupModel usingId;
  do method <- checkMethod;
  do queryKeys <- getQueryKeys method;
  run checkKeys queryKeys;
  forgeQueryKeys usingId WLModel method ensureTypeSafety queryKeys.

(** Forging a stage-1 query: the outcome, the query as the call leaves it,
    and the calls made into the dependencies. *)
Definition forge (q : dict) : result error unit * state :=
  forgeStageTwoQuery {| query := q; trace := [] |}.

End WithDependencies.

(** ** A sample ontology

    The two models of the ad-hoc tests that close the source file: a [user]
    with a string [id], a numeric [age], a singular association [mom] and a
    plural association [pets], and a [pet] with a numeric [id]. The sample
    normalizers do the least their contracts ask for: they accept
    dictionaries and fill in the defaults of the clauses that are absent; a
    criteria with [limit: 0] matches nothing. *)

Definition plainAttr (ty : string) : AttrDef :=
  {| attr_type := VStr ty; attr_model := VUndefined; attr_collection := VUndefined |}.

Definition sampleGetModel (identity : value) : result exn ModelDef :=
  if is_str "user" identity || is_str "pet" identity
  then Ok {| primaryKey := VStr "id" |}
  else Err {| code := "E_MODEL_NOT_REGISTERED"; message := "" |}.

Definition sampleAttributes : list (string * list (string * AttrDef)) :=
  [ ("user", [ ("id", plainAttr "string");
               ("age", plainAttr "number");
               ("mom", {| attr_type := VUndefined; attr_model := VStr "user";
                          attr_collection := VUndefined |});
               ("pets", {| attr_type := VUndefined; attr_model := VUndefined;
                           attr_collection := VStr "pet" |}) ]);
    ("pet",  [ ("id", plainAttr "number") ]) ].

Definition sampleGetAttribute (attr identity : value) : result exn AttrDef :=
  match attr, identity with
  | VStr a, VStr i =>
      match switch sampleAttributes i with
      | Some attrs =>
          match switch attrs a with
          | Some def => Ok def
          | None => Err {| code := "E_ATTR_NOT_REGISTERED"; message := "" |}
          end
      | None => Err {| code := "E_MODEL_NOT_REGISTERED"; message := "" |}
      end
  | _, _ => Err {| code := "E_ATTR_NOT_REGISTERED"; message := "" |}
  end.

Definition orDefault (v dflt : value) : value :=
  if isUndefined v then dflt else v.

Definition sampleNormalizeCriteria (c identity : value) (ensureTypeSafety : bool)
    : result exn value :=
  match c with
  | VObj d =>
      if is_num 0 (prop d "limit")
      then Err {| code := "E_WOULD_RESULT_IN_NOTHING"; message := "" |}
      else
      Ok (VObj [ ("where", orDefault (prop d "where") (VObj []));
                 ("limit", orDefault (prop d "limit") (VNum MAX_SAFE_INTEGER));
                 ("skip", orDefault (prop d "skip") (VNum 0));
                 ("sort", orDefault (prop d "sort") (VArr [ VObj [ ("id", VStr "ASC") ] ]));
                 ("select", orDefault (prop d "select") (VArr [ VStr "*" ]));
                 ("omit", orDefault (prop d "omit") (VArr [])) ])
  | _ => Err {| code := "E_HIGHLY_IRREGULAR"; message := "" |}
  end.

Definition sampleNormalizeNewRecord (r identity : value) (ensureTypeSafety : bool)
    : result exn value :=
  match r with
  | VObj _ => Ok r
  | _ => Err {| code := "E_HIGHLY_IRREGULAR"; message := "" |}
  end.

Definition sampleNormalizeValueToSet (v : value) (attr : string) (identity : value)
    (ensureTypeSafety : bool) : result exn value :=
  if isUndefined v then Err {| code := "E_SHOULD_BE_IGNORED"; message := "" |} else Ok v.

Definition sampleNormalizePkValues (v ty : value) : result exn value :=
  match v with
  | VArr _ => Ok v
  | VStr _ | VNum _ => Ok (VArr [ v ])
  | _ => Err {| code := "E_INVALID_PK_VALUE"; message := "" |}
  end.

Definition sampleOrm : Dependencies :=
  {| getModel := sampleGetModel;
     getAttribute := sampleGetAttribute;
     isCapableOfOptimizedPopulate := fun _ _ => Ok true;
     normalizePkValues := sampleNormalizePkValues;
     normalizeCriteria := sampleNormalizeCriteria;
     normalizeNewRecord := sampleNormalizeNewRecord;
     normalizeValueToSet := sampleNormalizeValueToSet;
     production := false |}.

End Forge.

(* ===================================================================== *)
(** * Part II: the query integrator                                       *)
(* ===================================================================== *)

Module Integrator.

(** ** Values and the heap

    The integrator hands back an array of the cache and mutates its rows,
    so the objects that the caller can reach are kept in a heap and named
    by reference. An array or a dictionary that a join has just made is
    referenced from one place only: it is written inline. *)

#[local] Set Warnings "-register-all".

Definition loc := nat.

Inductive value : Type :=
| VUndefined
| VNull
| VBool (b : bool)
| VNum (n : Z)
| VStr (s : string)
| VFun (name : string)
| VRef (l : loc)
| VArr (elems : list value)
| VObj (props : list (string * value)).

Definition row := list (string * value).

Inductive object : Type :=
| ODict (props : row)
| OArray (elems : list value).

Abbreviation heap := (gmap loc object).

(** A property key: an array index or a name. *)
Inductive key : Type :=
| Index (n : nat)
| Name (s : string).

Definition key_string (k : key) : string :=
  match k with
  | Index n => pretty n
  | Name s => s
  end.

Fixpoint prop (d : row) (k : string) : value :=
  match d with
  | [] => VUndefined
  | (k', v) :: d' => if String.eqb k' k then v else prop d' k
  end.

Fixpoint set_prop (d : row) (k : string) (v : value) : row :=
  match d with
  | [] => [(k, v)]
  | (k', v') :: d' =>
      if String.eqb k' k then (k', v) :: d' else (k', v') :: set_prop d' k v
  end.

Definition elem (xs : list value) (k : key) : value :=
  match k with
  | Index n => nth n xs VUndefined
  | Name s => if String.eqb s "length" then VNum (Z.of_nat (length xs)) else VUndefined
  end.

(** The characters of a string, each as a one-character string. *)
Fixpoint chars (s : string) : list value :=
  match s with
  | EmptyString => []
  | String c s' => VStr (String c EmptyString) :: chars s'
  end.

(** The errors that the integrator can let through: those of the engine,
    those that [anchor] throws and those that a join primitive throws. *)
Inductive exn : Type :=
| TypeError
| AnchorError (message : string)
| JoinError (message : string).

(** [v[k]]: the engine throws on [undefined] and [null]. *)
Definition get (h : heap) (v : value) (k : key) : result exn value :=
  match v with
  | VUndefined | VNull => Err TypeError
  | VObj d => Ok (prop d (key_string k))
  | VArr xs => Ok (elem xs k)
  | VStr s => Ok (elem (chars s) k)
  | VRef l =>
      match h !! l with
      | Some (ODict d) => Ok (prop d (key_string k))
      | Some (OArray xs) => Ok (elem xs k)
      | None => Ok VUndefined
      end
  | _ => Ok VUndefined
  end.

Definition isFunction (v : value) : bool :=
  match v with VFun _ => true | _ => false end.

(** ** Property keys

    A property key is a string; a canonical numeral is an index. *)
Definition isDigit (c : Ascii.ascii) : bool :=
  let n := Ascii.nat_of_ascii c in (48 <=? n)%nat && (n <=? 57)%nat.

Fixpoint digitsValue (s : string) (acc : nat) : option nat :=
  match s with
  | EmptyString => Some acc
  | String c s' =>
      if isDigit c then digitsValue s' (10 * acc + (Ascii.nat_of_ascii c - 48))%nat else None
  end.

Definition stringKey (s : string) : key :=
  match s with
  | EmptyString => Name s
  | String c s' =>
      if String.eqb s "0" then Index 0
      else if String.eqb (String c EmptyString) "0" then Name s
      else match digitsValue s 0 with Some n => Index n | None => Name s end
  end.

(** The key [s] as an array index: a canonical numeral below [2^32 - 1]. *)
Definition arrayIndex (s : string) : option nat :=
  match stringKey s with
  | Index n => if (N.of_nat n <? 4294967295)%N then Some n else None
  | Name _ => None
  end.

Definition isArrayIndex (s : string) : bool :=
  match arrayIndex s with Some _ => true | None => false end.

(** The order in which the engine enumerates the own keys of an object,
    and [_.each] visits them: the array indices first, in ascending order,
    then the other keys in the order in which they were added. [entries] is
    the list of the properties in the order in which they were added. *)
Fixpoint insertIndexed {A} (x : nat * A) (sorted : list (nat * A)) : list (nat * A) :=
  match sorted with
  | [] => [ x ]
  | y :: sorted' =>
      if (fst x <=? fst y)%nat then x :: sorted else y :: insertIndexed x sorted'
  end.

Definition indexed {A} (entries : list (string * A)) : list (nat * (string * A)) :=
  omap (fun e => match arrayIndex (fst e) with
                 | Some n => Some (n, e)
                 | None => None
                 end) entries.

Definition enumerate {A} (entries : list (string * A)) : list (string * A) :=
  map snd (fold_right insertIndexed [] (indexed entries))
  ++ List.filter (fun e => negb (isArrayIndex (fst e))) entries.

(** ** The dependencies of the module *)

(** The types that [anchor(...).to({ type: ... })] is asked for. *)
Inductive anchor_type : Type := TObject | TArray | TString.

Record join_options : Type := {
  left : value; right : value; leftKey : value; rightKey : value
}.

Record populate_options : Type := {
  parentRows : value; alias : string; childRows : value;
  parentPK : value; childPK : value; fkToChild : value
}.

(** [anchor], the three join primitives, and the conversion of a value to a
    property key that the engine applies in [o[v]]. [anchor(v).to({ type })]
    returns [false] when [v] is of the type, the list of its complaints when
    it is not ([Ok true] here), and it can throw. A join primitive returns
    the array that it builds; [populate] is called for its effect. *)
Class Host : Type := {
  anchorTo : heap -> value -> anchor_type -> result exn bool;
  toPropertyKey : heap -> value -> key;
  leftOuterJoin : heap -> join_options -> result exn (value * heap);
  innerJoin : heap -> join_options -> result exn (value * heap);
  populate : heap -> populate_options -> result exn heap
}.

(** ** Control: the heap is threaded, an exception ends the call *)

Definition M (A : Type) : Type := heap -> result exn (A * heap).

Definition ret {A} (a : A) : M A := fun h => Ok (a, h).
Definition bind {A B} (m : M A) (f : A -> M B) : M B :=
  fun h => match m h with
           | Ok (a, h') => f a h'
           | Err e => Err e
           end.

Notation "'do' x <- m ; k" := (bind m (fun x => k))
  (at level 10, x name, m at level 100, k at level 200).

(** [v[k]] in the current heap. *)
Definition read (v : value) (k : key) : M value :=
  fun h => match get h v k with
           | Ok x => Ok (x, h)
           | Err e => Err e
           end.

Section WithHost.
Context {host : Host}.

(** [o[v]] where the key is a value. *)
Definition readAt (o v : value) : M value :=
  fun h => read o (toPropertyKey h v) h.

(** ** integrate *)

(** What [cb] receives as its first argument when the usage is invalid. *)
Inductive invalidity : Type :=
| AnchorErrors (data : value) (ty : anchor_type)
| CallbackIsNotAFunction.

(** [anchor(v).to({ type: ty })] in the current heap. *)
Definition anchored (v : value) (ty : anchor_type) : M bool :=
  fun h => match anchorTo h v ty with
           | Ok complains => Ok (complains, h)
           | Err e => Err e
           end.

(** The calls to [anchor], with the short circuit of [invalid || ...]. *)
Definition validate (cache joinInstructions cb : value) : M (option invalidity) :=
  do complains <- anchored cache TObject;
  if complains then ret (Some (AnchorErrors cache TObject))
  else
    do complains <- anchored joinInstructions TArray;
    if complains then ret (Some (AnchorErrors joinInstructions TArray))
    else
      do i0 <- read joinInstructions (Index 0);
      do complains <- anchored i0 TObject;
      if complains then ret (Some (AnchorErrors i0 TObject))
      else
        do p <- read i0 (Name "parent");
        do complains <- anchored p TString;
        if complains then ret (Some (AnchorErrors p TString))
        else
          do t <- readAt cache p;
          do complains <- anchored t TObject;
          if complains then ret (Some (AnchorErrors t TObject))
          else if negb (isFunction cb) then ret (Some CallbackIsNotAFunction)
          else ret None.

(** [Object.keys(v)]: the engine throws on [undefined] and [null]; the
    result is not used. *)
Definition objectKeys (v : value) : M unit :=
  fun h => match v with
           | VUndefined | VNull => Err TypeError
           | _ => Ok (tt, h)
           end.

(** The elements over which lodash iterates a collection. *)
Definition elements (h : heap) (v : value) : list value :=
  match v with
  | VArr xs => xs
  | VObj d => map snd d
  | VStr s => chars s
  | VRef l =>
      match h !! l with
      | Some (OArray xs) => xs
      | Some (ODict d) => map snd d
      | None => []
      end
  | _ => []
  end.

(** [_.property(k)(v)]: [undefined] on [undefined] and [null]. *)
Definition property (h : heap) (k : string) (v : value) : value :=
  match get h v (Name k) with
  | Ok x => x
  | Err _ => VUndefined
  end.

(** Append [x] to the group of [k], or start the group. *)
Fixpoint addToGroup (groups : list (string * list value)) (k : string) (x : value)
    : list (string * list value) :=
  match groups with
  | [] => [(k, [x])]
  | (k', xs) :: groups' =>
      if String.eqb k' k then (k', xs ++ [x]) :: groups'
      else (k', xs) :: addToGroup groups' k x
  end.

(** The groups in the order in which [_.groupBy] makes them: each group is
    added at the first element that is filed under its key. *)
Definition grouped (h : heap) (collection : value) (k : string) : list (string * list value) :=
  fold_left
    (fun groups x => addToGroup groups (key_string (toPropertyKey h (property h k x))) x)
    (elements h collection) [].

(** [_.groupBy(collection, k)], as [_.each] goes through it: the groups are
    the properties of an object, which the engine enumerates. *)
Definition groupBy (h : heap) (collection : value) (k : string) : list (string * list value) :=
  enumerate (grouped h collection k).

(** The body of the loop over the groups: [eachAssociation]. *)
Definition eachAssociation (cache results : value) (group : string * list value) : M unit :=
  let '(alias, instructions) := group in
  match instructions with
  | [ i0; i1 ] =>
      do parent0 <- read i0 (Name "parent");
      do l <- readAt cache parent0;
      do child0 <- read i0 (Name "child");
      do r <- readAt cache child0;
      do parentKey0 <- read i0 (Name "parentKey");
      do childKey0 <- read i0 (Name "childKey");
      do joined <- (fun h => leftOuterJoin h
                      {| left := l; right := r; leftKey := parentKey0; rightKey := childKey0 |});
      do child1 <- read i1 (Name "child");
      do r1 <- readAt cache child1;
      do parentKey1 <- read i1 (Name "parentKey");
      do childKey1 <- read i1 (Name "childKey");
      do rows <- (fun h => innerJoin h
                    {| left := joined; right := r1; leftKey := parentKey1; rightKey := childKey1 |});
      do parentPK <- read i0 (Name "parentKey");
      do childPK <- read i1 (Name "childKey");
      do fkToChild <- read i1 (Name "parentKey");
      fun h =>
        match populate h {| parentRows := results; alias := alias; childRows := rows;
                            parentPK := parentPK; childPK := childPK;
                            fkToChild := fkToChild |} with
        | Ok h' => Ok (tt, h')
        | Err e => Err e
        end
  | [ i0 ] =>
      do parent0 <- read i0 (Name "parent");
      do l <- readAt cache parent0;
      do child0 <- read i0 (Name "child");
      do r <- readAt cache child0;
      do parentKey0 <- read i0 (Name "parentKey");
      do childKey0 <- read i0 (Name "childKey");
      do rows <- (fun h => innerJoin h
                    {| left := l; right := r; leftKey := parentKey0; rightKey := childKey0 |});
      do parentPK <- read i0 (Name "parentKey");
      do fkToChild <- read i0 (Name "childKey");
      fun h =>
        match populate h {| parentRows := results; alias := alias; childRows := rows;
                            parentPK := parentPK; childPK := VStr "??????";
                            fkToChild := fkToChild |} with
        | Ok h' => Ok (tt, h')
        | Err e => Err e
        end
  | _ => ret tt
  end.

(** [_.each(groups, eachAssociation)] *)
Fixpoint forEach {A} (f : A -> M unit) (xs : list A) : M unit :=
  match xs with
  | [] => ret tt
  | x :: xs' => do _u <- f x; forEach f xs'
  end.

(** How a call of [integrate] ends: it throws, or it calls [cb]. *)
Inductive outcome : Type :=
| Threw (e : exn)
| CalledBack (err : option invalidity) (results : value) (h : heap).

(** [cb(err, results)]: calling what is not a function throws. *)
Definition callBack (cb : value) (err : option invalidity) (results : value) (h : heap)
    : outcome :=
  if isFunction cb then CalledBack err results h else Threw TypeError.

(** The part of [integrate] that follows the validation. *)
Definition join (cache joinInstructions : value) : M value :=
  do i0 <- read joinInstructions (Index 0);
  do parent <- read i0 (Name "parent");
  do parentPK <- read i0 (Name "parentKey");
  do table <- readAt cache parent;
  do row0 <- read table (Index 0);
  do parentAttributeNames <- objectKeys row0;
  do results <- readAt cache parent;
  do _u <- (fun h => forEach (eachAssociation cache results) (groupBy h joinInstructions "alias") h);
  ret results.

Definition integrate (h : heap) (cache joinInstructions cb : value) : outcome :=
  match validate cache joinInstructions cb h with
  | Err e => Threw e
  | Ok (Some invalid, h') => callBack cb (Some invalid) VUndefined h'
  | Ok (None, h') =>
      match join cache joinInstructions h' with
      | Err e => Threw e
      | Ok (results, h'') => callBack cb None results h''
      end
  end.

End WithHost.

(** ** The join primitives and a host

    [leftOuterJoin], [innerJoin] and [populate] are modules of the
    repository of which only the calls are at hand; [anchor] is a library.
    They are given here as the specification describes them, over the rows
    of the tables. *)

(** The elements of an array. *)
Definition arrayElems (h : heap) (v : value) : list value :=
  match v with
  | VArr xs => xs
  | VRef l => match h !! l with Some (OArray xs) => xs | _ => [] end
  | _ => []
  end.

Definition asRow (h : heap) (v : value) : option row :=
  match v with
  | VObj d => Some d
  | VRef l => match h !! l with Some (ODict d) => Some d | _ => None end
  | _ => None
  end.

(** The rows of a table: the dictionaries among the elements of the array. *)
Definition rowsOf (h : heap) (v : value) : list row :=
  omap (asRow h) (arrayElems h v).

(** [a === b]: two inline objects are two objects. *)
Definition strictEq (a b : value) : bool :=
  match a, b with
  | VUndefined, VUndefined | VNull, VNull => true
  | VBool x, VBool y => Bool.eqb x y
  | VNum x, VNum y => Z.eqb x y
  | VStr x, VStr y | VFun x, VFun y => String.eqb x y
  | VRef x, VRef y => Nat.eqb x y
  | _, _ => false
  end.

Definition isNullish (v : value) : bool :=
  match v with VUndefined | VNull => true | _ => false end.

(** Modelled from the spec: the test of the joins, "matching" rows. The row
    [l] matches the row [r] when the column [lk] of [l] and the column [rk]
    of [r] hold the same value; a column that is missing or null matches
    nothing, as the NULL of the relational operators that the specification
    names. *)
Definition matches (l : row) (lk : string) (r : row) (rk : string) : bool :=
  negb (isNullish (prop l lk)) && strictEq (prop l lk) (prop r rk).

(** Modelled from the spec: a joined row, the left row followed by the right
    row it is paired with (a column of the left row hides the column of the
    same name of the right row). *)
Definition joinRows (l r : row) : row := l ++ r.

(** Modelled from the spec: Left Outer Join, "for every left row, attach all
    matching right rows under the join key, or none (representing
    NULL-side) if no match; preserves left-row order; does not deduplicate
    right matches". *)
Definition leftOuterJoinRows (L R : list row) (lk rk : string) : list row :=
  flat_map (fun l =>
    match List.filter (fun r => matches l lk r rk) R with
    | [] => [ l ]
    | ms => map (joinRows l) ms
    end) L.

(** Modelled from the spec: Inner Join, "only rows from left having at least
    one match in right are kept, paired with each match; rows with no match
    are dropped". *)
Definition innerJoinRows (L R : list row) (lk rk : string) : list row :=
  flat_map (fun l => map (joinRows l) (List.filter (fun r => matches l lk r rk) R)) L.

(** Modelled from the spec: the group that Populate attaches to a parent
    row, the joined rows whose [parentPK] is that of the parent row. *)
Definition groupOf (parent : row) (pk : string) (kids : list row) : list row :=
  List.filter (fun x => matches parent pk x pk) kids.

(** Modelled from the spec: Populate, "attaches the matching group to each
    parent row under alias", by mutation of the parent row. *)
Definition attach (alias pk : string) (kids : list row) (h : heap) (parent : value) : heap :=
  match parent with
  | VRef l =>
      match h !! l with
      | Some (ODict d) =>
          <[ l := ODict (set_prop d alias (VArr (map VObj (groupOf d pk kids)))) ]> h
      | _ => h
      end
  | _ => h
  end.

Definition primitiveKey (v : value) : key :=
  match v with
  | VUndefined => Name "undefined"
  | VNull => Name "null"
  | VBool true => Name "true"
  | VBool false => Name "false"
  | VNum n => if (0 <=? n)%Z then Index (Z.to_nat n) else Name (pretty n)
  | VStr s => stringKey s
  | VFun name => Name name
  | _ => Name "[object Object]"
  end.

Definition optionKey (h : heap) (v : value) : string := key_string (primitiveKey v).

(** Modelled from the spec: the host. [anchor], a library, throws when it
    is given a function; it is taken to accept a dictionary or an array as
    an object, an array as an array and a string as a string. The joins
    build their rows and leave the heap as it is; [populate] mutates the
    rows of [parentRows]. *)
Definition specHost : Host :=
  {| anchorTo := fun h v ty =>
       match v, ty with
       | VFun _, _ => Err (AnchorError "Anchor does not support functions yet!")
       | (VObj _ | VArr _), TObject => Ok false
       | VRef l, TObject => Ok (negb (bool_decide (is_Some (h !! l))))
       | VArr _, TArray => Ok false
       | VRef l, TArray => Ok match h !! l with Some (OArray _) => false | _ => true end
       | VStr _, TString => Ok false
       | _, _ => Ok true
       end;
     toPropertyKey := fun h v => primitiveKey v;
     leftOuterJoin := fun h o =>
       Ok (VArr (map VObj (leftOuterJoinRows (rowsOf h (left o)) (rowsOf h (right o))
                             (optionKey h (leftKey o)) (optionKey h (rightKey o)))), h);
     innerJoin := fun h o =>
       Ok (VArr (map VObj (innerJoinRows (rowsOf h (left o)) (rowsOf h (right o))
                             (optionKey h (leftKey o)) (optionKey h (rightKey o)))), h);
     populate := fun h o =>
       Ok (fold_left (attach (alias o) (optionKey h (parentPK o)) (rowsOf h (childRows o)))
             (arrayElems h (parentRows o)) h) |}.

End Integrator.

(* ===================================================================== *)
(** * Part III: properties of forgeStageTwoQuery                          *)
(* ===================================================================== *)

Module ForgeFacts.
Import Forge.

(** The first of the ad-hoc tests of the source file. *)
Example forge_find_sample :
  @forge sampleOrm
    [ ("using", VStr "user"); ("method", VStr "find");
      ("criteria", VObj [ ("where", VObj [ ("id", VStr "3d") ]); ("limit", VNum 3) ]) ]
  = (Ok tt,
     {| query :=
          [ ("using", VStr "user"); ("method", VStr "find");
            ("criteria",
             VObj [ ("where", VObj [ ("id", VStr "3d") ]); ("limit", VNum 3);
                    ("skip", VNum 0); ("sort", VArr [ VObj [ ("id", VStr "ASC") ] ]);
                    ("select", VArr [ VStr "*" ]); ("omit", VArr []) ]);
            ("populates", VObj []) ];
        trace :=
          [ CallGetModel (VStr "user");
            CallNormalizeCriteria
              (VObj [ ("where", VObj [ ("id", VStr "3d") ]); ("limit", VNum 3) ])
              (VStr "user") ] |}).
Proof. vm_compute. reflexivity. Qed.


(** ** The checks of the essentials *)

Definition isDictionary (v : value) : bool :=
  match v with VObj _ => true | _ => false end.

(** A query passes the checks of the essentials when its [meta] is absent
    or a dictionary, its [using] is a non-empty string that names a
    registered model [WLModel], its [method] is a recognized method that
    accepts the keys [queryKeys], and it has no other key than the three
    universal ones and [queryKeys]. *)
Record passesEssentials {deps : Dependencies} (q : dict) (u m : string)
    (WLModel : ModelDef) (queryKeys : list string) : Prop := {
  pe_meta : isUndefined (prop q "meta") || isDictionary (prop q "meta") = true;
  pe_using : prop q "using" = VStr u;
  pe_using_nonempty : String.eqb u "" = false;
  pe_model : getModel (VStr u) = Ok WLModel;
  pe_method : prop q "method" = VStr m;
  pe_keys : _getQueryKeys m = Some queryKeys;
  pe_no_extraneous : difference (keys q) (universalKeys ++ queryKeys) = []
}.

Lemma switch_not_empty (m : string) (ks : list string) :
  _getQueryKeys m = Some ks -> String.eqb m "" = false.
Proof.
  destruct (String.eqb m "") eqn:E; [|reflexivity].
  apply String.eqb_eq in E. subst m. discriminate.
Qed.

Section Essentials.
Context {deps : Dependencies}.

Lemma forge_essentials q u m WLModel ks :
  passesEssentials q u m WLModel ks ->
  forge q =
  forgeQueryKeys (VStr u) WLModel m (ensureTypeSafetyOf (prop q "meta")) ks
    {| query := q; trace := [ CallGetModel (VStr u) ] |}.
Proof.
  intros [Hmeta Hu Hne Hmod Hm Hks Hex].
  pose proof (switch_not_empty _ _ Hks) as Hmne.
  unfold forge, forgeStageTwoQuery.
  unfold bind at 1. unfold checkMeta, readKey, getQuery, bind at 1; simpl.
  destruct (prop q "meta") eqn:Emeta; simpl in Hmeta; try discriminate; simpl.
  all: unfold bind, checkUsing, readKey, getQuery, ret, bind; simpl; rewrite Hu; simpl;
    rewrite Hne; simpl; unfold lookupModel, tryCall, emit, bind, ret; simpl;
    rewrite Hmod; simpl; unfold checkMethod, readKey, getQuery, bind, ret; simpl;
    rewrite Hm, Hmne; simpl; unfold getQueryKeys; rewrite Hks; simpl;
    unfold checkKeys, getQuery, bind, when, ret; cbv beta iota; unfold query at 1;
    rewrite Hex; simpl; rewrite ?Emeta; reflexivity.
Qed.

End Essentials.

Arguments contains_str : simpl never.
Arguments _getQueryKeys : simpl never.
Arguments difference : simpl never.
Arguments keys : simpl never.

(** Run the primitives of the monad on the state at hand. *)
Ltac mrun :=
  cbv [bind readKey getQuery ret when writeKey putQuery throw emit tryCall call member];
  cbn.

(** ** Dictionaries *)

Lemma prop_set_prop_eq d k v : prop (set_prop d k v) k = v.
Proof.
  induction d as [|[k' v'] d IH]; simpl.
  - now rewrite String.eqb_refl.
  - destruct (String.eqb k' k) eqn:E; simpl; now rewrite E.
Qed.

Lemma prop_set_prop_ne d k k' v : k <> k' -> prop (set_prop d k v) k' = prop d k'.
Proof.
  intros Hne. induction d as [|[k0 v0] d IH]; simpl.
  - destruct (String.eqb_spec k k'); [contradiction | reflexivity].
  - destruct (String.eqb_spec k0 k) as [->|]; simpl.
    + destruct (String.eqb_spec k k'); [contradiction | reflexivity].
    + now rewrite IH.
Qed.

Lemma prop_delete_prop_eq d k : prop (delete_prop d k) k = VUndefined.
Proof.
  induction d as [|[k0 v0] d IH]; simpl; [reflexivity|].
  destruct (String.eqb k0 k) eqn:E; simpl; [assumption | now rewrite E].
Qed.

Lemma prop_delete_prop_ne d k k' : k <> k' -> prop (delete_prop d k) k' = prop d k'.
Proof.
  intros Hne. induction d as [|[k0 v0] d IH]; simpl; [reflexivity|].
  destruct (String.eqb_spec k0 k) as [->|]; simpl.
  - destruct (String.eqb_spec k k'); [contradiction | assumption].
  - now rewrite IH.
Qed.

Lemma field_set_field_ne v k k' x : k <> k' -> field (set_field v k x) k' = field v k'.
Proof. destruct v; simpl; auto. apply prop_set_prop_ne. Qed.

Lemma field_delete_field_ne v k k' : k <> k' -> field (delete_field v k) k' = field v k'.
Proof. destruct v; simpl; auto. apply prop_delete_prop_ne. Qed.

Lemma keys_NoDup d : NoDup (keys d).
Proof.
  induction d as [|[k v] d IH]; simpl; constructor.
  - intros H. apply list_elem_of_In, List.filter_In in H. destruct H as [_ H].
    now rewrite String.eqb_refl in H.
  - apply NoDup_ListNoDup, List.NoDup_filter, NoDup_ListNoDup, IH.
Qed.

(** ** What a computation preserves *)

Definition preserves {A} (R : state -> state -> Prop) (m : M A) : Prop :=
  forall s r s', m s = (r, s') -> R s s'.

Create HintDb preserves discriminated.

Section Preserves.
Context (R : state -> state -> Prop) `{!PreOrder R}.

Lemma preserves_ret {A} (a : A) : preserves R (ret a).
Proof. intros s r s' [= _ <-]. reflexivity. Qed.

Lemma preserves_throw {A} (e : error) : preserves R (@throw A e).
Proof. intros s r s' [= _ <-]. reflexivity. Qed.

Lemma preserves_getQuery : preserves R getQuery.
Proof. intros s r s' [= _ <-]. reflexivity. Qed.

Lemma preserves_bind {A B} (m : M A) (f : A -> M B) :
  preserves R m -> (forall a, preserves R (f a)) -> preserves R (bind m f).
Proof.
  intros Hm Hf s r s'. unfold bind. destruct (m s) as [[a|e] s1] eqn:E.
  - intros H. transitivity s1; [eapply Hm, E | eapply Hf, H].
  - intros [= _ <-]. eapply Hm, E.
Qed.

Lemma preserves_forEach {A} (f : A -> M unit) (xs : list A) :
  (forall x, In x xs -> preserves R (f x)) -> preserves R (forEach f xs).
Proof.
  induction xs as [|x xs IH]; intros Hf; simpl.
  - apply preserves_ret.
  - apply preserves_bind; [apply Hf; now left | intros _; apply IH].
    intros y Hy. apply Hf. now right.
Qed.

Lemma preserves_mapM {A B} (f : A -> M B) (xs : list A) :
  (forall x, preserves R (f x)) -> preserves R (mapM f xs).
Proof.
  intros Hf. induction xs as [|x xs IH]; simpl.
  - apply preserves_ret.
  - apply preserves_bind; [apply Hf | intros y].
    apply preserves_bind; [apply IH | intros ys; apply preserves_ret].
Qed.

End Preserves.

(** Decompose a goal [preserves R m] along the structure of [m]; what is
    left are the writes and the events, which depend on [R]. *)
Ltac preserves_step :=
  match goal with
  | |- preserves _ (bind _ _) => apply preserves_bind; [ exact _ | | intros ? ]
  | |- preserves _ (ret _) => apply preserves_ret; exact _
  | |- preserves _ (throw _) => apply preserves_throw; exact _
  | |- preserves _ getQuery => apply preserves_getQuery; exact _
  | |- preserves _ (forEach _ _) => apply preserves_forEach; [ exact _ | intros ? _ ]
  | |- preserves _ (mapM _ _) => apply preserves_mapM; [ exact _ | intros ? ]
  | |- preserves _ (if ?c then _ else _) => destruct c
  | |- preserves _ (match ?c with _ => _ end) => destruct c
  | |- preserves _ (when _ _) => unfold when
  | |- preserves _ (readKey _) => unfold readKey
  | |- preserves _ (writeKey _ _) => unfold writeKey
  | |- preserves _ (member _ _) => unfold member
  | |- preserves _ (first_elem _) => unfold first_elem
  | |- preserves _ (tryCall _ _ _) => unfold tryCall
  | |- preserves _ (call _ _) => unfold call
  end.

(** *** The trace only grows *)

Definition extendsTrace (s s' : state) : Prop := exists t, trace s' = trace s ++ t.

#[export] Instance extendsTrace_preorder : PreOrder extendsTrace.
Proof.
  split.
  - intros s. exists []. now rewrite app_nil_r.
  - intros s1 s2 s3 [t1 H1] [t2 H2]. exists (t1 ++ t2). now rewrite H2, H1, app_assoc.
Qed.

Lemma extendsTrace_emit ev : preserves extendsTrace (emit ev).
Proof. intros s r s' [= _ <-]. now exists [ev]. Qed.

Lemma extendsTrace_putQuery q : preserves extendsTrace (putQuery q).
Proof. intros s r s' [= _ <-]. exists []. simpl. now rewrite app_nil_r. Qed.

#[export] Hint Resolve extendsTrace_emit extendsTrace_putQuery
  : preserves.

Ltac preserves_auto := repeat (first [ solve [ auto with preserves ] | preserves_step ]).

(** The continuation of the first [bind] of the goal preserves the trace. *)
Ltac extends_trace_all :=
  unfold forgeQueryKeys, forgeCriteria, forgePopulates, forgePopulate, forgeSingularPopulate,
    forgePluralPopulate, readPopulate, writePopulate, deletePopulate,
    checkNotOmitted, includeInSelect, checkNotSorted, lookupAssociation,
    forgeNumericAttrName, forgeStreamIteratee, forgeNewRecord, forgeNewRecords,
    forgeValuesToSet, forgeValueToSet, forgeTargetRecordIds, forgeCollectionAttrName,
    forgeAssociatedIds;
  preserves_auto.

Lemma forgeQueryKeys_extendsTrace {deps : Dependencies} u W m ets ks :
  preserves extendsTrace (forgeQueryKeys u W m ets ks).
Proof. extends_trace_all. Qed.

(** ** C1: [select], [omit] and [limit] against the method *)

(** The test of the source for "the criteria explicitly specifies [k]". *)
Definition specifies (c : value) (k : string) : bool :=
  isObject c && negb (isUndefined (field c k)).

(** The criteria names a clause that the method is not compatible with. *)
Definition incompatibleClause (c : value) (m : string) : bool :=
  ((specifies c "select" || specifies c "omit")
   && negb (contains_str PROJECTION_COMPATIBLE_METHODS m))
  || (specifies c "limit" && negb (contains_str LIMIT_COMPATIBLE_METHODS m)).

(** The criteria as [normalizeCriteria] receives it. *)
Definition rawCriteria (q : dict) : value :=
  if isUndefined (prop q "criteria") then VObj [] else prop q "criteria".

Lemma forgeCriteria_incompatible {deps : Dependencies} u m ets q t :
  incompatibleClause (prop q "criteria") m = true ->
  forgeCriteria u m ets {| query := q; trace := t |}
  = (Err (UsageError E_INVALID_CRITERIA), {| query := q; trace := t |}).
Proof.
  unfold incompatibleClause, specifies, forgeCriteria. intros H. mrun.
  destruct (prop q "criteria") eqn:Ec; cbn in H |- *; try discriminate; rewrite ?Ec; cbn.
  all: destruct (contains_str PROJECTION_COMPATIBLE_METHODS m),
         (contains_str LIMIT_COMPATIBLE_METHODS m);
       repeat match type of H with
         | context [isUndefined ?x] => destruct (isUndefined x)
         end; cbn in H |- *; try discriminate; try reflexivity.
Qed.
Lemma forgeCriteria_compatible {deps : Dependencies} u m ets q t :
  incompatibleClause (prop q "criteria") m = false ->
  let q' := if isUndefined (prop q "criteria") then set_prop q "criteria" (VObj []) else q in
  let t' := t ++ [ CallNormalizeCriteria (rawCriteria q) u ] in
  forgeCriteria u m ets {| query := q; trace := t |}
  = match normalizeCriteria (rawCriteria q) u ets with
    | Ok c' => (Ok tt, {| query := set_prop q' "criteria" c'; trace := t' |})
    | Err e => (Err (criteriaHandler e), {| query := q'; trace := t' |})
    end.
Proof.
  unfold incompatibleClause, specifies, forgeCriteria, rawCriteria. intros H. mrun.
  destruct (prop q "criteria") eqn:Ec; cbn in H |- *;
    rewrite ?prop_set_prop_eq, ?Ec; cbn.
  all: try (destruct (normalizeCriteria _ u ets); reflexivity).
  all: destruct (contains_str PROJECTION_COMPATIBLE_METHODS m),
         (contains_str LIMIT_COMPATIBLE_METHODS m);
       repeat match type of H with
         | context [isUndefined ?x] => destruct (isUndefined x)
         end; cbn in H |- *; try discriminate;
       try (destruct (normalizeCriteria _ u ets); reflexivity).
Qed.



(** ** C2: extraneous keys *)

Lemma difference_not_empty (xs ys : list string) (x : string) :
  List.In x xs -> contains_str ys x = false -> (0 <? length (difference xs ys))%nat = true.
Proof.
  intros Hin Hx. unfold difference.
  assert (H : List.In x (List.filter (fun x => negb (contains_str ys x)) xs)).
  { apply List.filter_In. split; [assumption | now rewrite Hx]. }
  destruct (List.filter _ xs); [destruct H | reflexivity].
Qed.

(** C2 as stated fails when [meta] is not a dictionary: the check of [meta]
    comes first and throws the typed [E_INVALID_META], whatever other keys
    the query has. *)
Lemma extraneous_key_with_invalid_meta :
  let q := [ ("meta", VNum 5); ("using", VStr "user"); ("method", VStr "find");
             ("foo", VNum 1) ] in
  _getQueryKeys "find" = Some [ "criteria"; "populates" ] /\
  List.In "foo" (keys q) /\
  contains_str (universalKeys ++ [ "criteria"; "populates" ]) "foo" = false /\
  @forge sampleOrm q = (Err (UsageError E_INVALID_META), {| query := q; trace := [] |}) /\
  is_fatal (UsageError E_INVALID_META) = false.
Proof.
  cbv zeta. repeat split; try reflexivity.
  vm_compute. right; right; right; left; reflexivity.
Qed.

(** C2, as amended. For every supported method, forging a query that has a
    top-level key outside [meta], [using], [method] and the keys of the
    method throws, with the query left as it was and no normalizer called;
    provided [meta] is absent or a dictionary the error is a fatal one, not
    a typed usage error, and when [using] names a registered model it is the
    consistency violation that lists the extraneous keys. *)
Theorem extraneous_key_rejected_before_normalization
    {deps : Dependencies} (q : dict) (m : string) (ks : list string) (x : string) :
  prop q "method" = VStr m ->
  _getQueryKeys m = Some ks ->
  List.In x (keys q) ->
  contains_str (universalKeys ++ ks) x = false ->
  exists e t,
    forge q = (Err e, {| query := q; trace := t |})
    /\ existsb is_normalizer_call t = false
    /\ (isUndefined (prop q "meta") || isDictionary (prop q "meta") = true ->
        is_fatal e = true
        /\ forall u WLModel,
             prop q "using" = VStr u -> String.eqb u "" = false ->
             getModel (VStr u) = Ok WLModel ->
             e = ConsistencyViolation
                   (ExtraneousKeys (difference (keys q) (universalKeys ++ ks)))).
Proof.
  intros Hm Hks Hin Hx.
  pose proof (switch_not_empty _ _ Hks) as Hmne.
  pose proof (difference_not_empty _ _ _ Hin Hx) as Hd.
  unfold forge, forgeStageTwoQuery, checkMeta, checkUsing, lookupModel, checkMethod,
    getQueryKeys, checkKeys.
  mrun.
  destruct (prop q "meta") eqn:Emeta; cbn;
    try (eexists _, _; split; [reflexivity | split; [reflexivity | discriminate]]).
  all: destruct (prop q "using") as [| | | |u| | |] eqn:Eu; cbn;
    try (eexists _, _; split; [reflexivity | split; [reflexivity|]];
         intros _; split; [reflexivity | intros; discriminate]).
  all: destruct (String.eqb u "") eqn:Eue; cbn;
    try (eexists _, _; split; [reflexivity | split; [reflexivity|]];
         intros _; split; [reflexivity | intros ? ? [= <-]; congruence]).
  all: destruct (getModel (VStr u)) as [W|e] eqn:Eg; cbn;
    [| eexists _, _; split; [reflexivity | split; [reflexivity |]];
       intros _; split;
       [ unfold on_codes; destruct (contains_str _ (code e)); reflexivity
       | intros ? ? [= <-]; congruence ] ].
  all: rewrite Hm; cbn; rewrite Hmne, Hks; cbn; cbn in Hd; rewrite Hd; cbn.
  all: eexists _, _; split; [reflexivity | split; [reflexivity|]];
       intros _; split; reflexivity.
Qed.

Lemma extraneous_key_rejected_witness :
  exists e t,
    @forge sampleOrm
      [ ("using", VStr "user"); ("method", VStr "find"); ("foo", VNum 1) ]
    = (Err e, {| query := [ ("using", VStr "user"); ("method", VStr "find");
                            ("foo", VNum 1) ];
                 trace := t |})
    /\ existsb is_normalizer_call t = false
    /\ is_fatal e = true.
Proof.
  destruct (@extraneous_key_rejected_before_normalization sampleOrm
              [ ("using", VStr "user"); ("method", VStr "find"); ("foo", VNum 1) ]
              "find" [ "criteria"; "populates" ] "foo")
    as (e & t & H1 & H2 & H3).
  - reflexivity.
  - reflexivity.
  - vm_compute. right; right; left; reflexivity.
  - reflexivity.
  - exists e, t. split; [exact H1 | split; [exact H2 | apply H3; reflexivity]].
Defined.

(** ** C3: the recognized methods *)

(** The operations that the specification lists. *)
Definition supportedMethods : list string :=
  [ "find"; "findOne"; "stream"; "count"; "sum"; "avg"; "create"; "createEach";
    "findOrCreate"; "update"; "destroy"; "addToCollection"; "removeFromCollection";
    "replaceCollection" ].

Lemma switch_Some_In {A} (cases : list (string * A)) s a :
  switch cases s = Some a -> List.In (s, a) cases.
Proof.
  induction cases as [|[c x] cases IH]; simpl; [discriminate|].
  destruct (String.eqb_spec s c) as [->|]; [intros [= ->]; now left | right; auto].
Qed.

Lemma switch_None_not_In {A} (cases : list (string * A)) s :
  switch cases s = None <-> ~ List.In s (map fst cases).
Proof.
  induction cases as [|[c x] cases IH]; simpl; [tauto|].
  destruct (String.eqb_spec s c) as [->|Hne].
  - split; [discriminate | intros H; exfalso; apply H; now left].
  - rewrite IH. split; [intros H [E|E]; [congruence | contradiction] | tauto].
Qed.

Lemma recognized_iff_supported (m : string) :
  _getQueryKeys m <> None <-> List.In m supportedMethods.
Proof.
  unfold _getQueryKeys. rewrite switch_None_not_In.
  change (map fst methodTable) with supportedMethods.
  destruct (in_dec string_dec m supportedMethods); tauto.
Qed.

Lemma supportedMethods_NoDup : List.NoDup supportedMethods.
Proof.
  apply NoDup_ListNoDup. apply (bool_decide_unpack _). vm_compute. exact I.
Qed.

(** C3 as stated fails twice. The recognized methods are fourteen, so no
    list of twelve names is the set of recognized methods; and with a [meta]
    that is not a dictionary an unrecognized method is never looked at: the
    typed [E_INVALID_META] is thrown first. *)
Lemma recognized_methods_are_not_twelve :
  ~ (exists l : list string,
       length l = 12%nat /\ forall m, List.In m l <-> _getQueryKeys m <> None)
  /\ @forge sampleOrm [ ("meta", VNum 5); ("using", VStr "user"); ("method", VStr "frobnicate") ]
     = (Err (UsageError E_INVALID_META),
        {| query := [ ("meta", VNum 5); ("using", VStr "user");
                      ("method", VStr "frobnicate") ];
           trace := [] |}).
Proof.
  split; [|reflexivity].
  intros [l [Hlen H]].
  assert (Hincl : incl supportedMethods l).
  { intros m Hm. apply H, recognized_iff_supported, Hm. }
  pose proof (List.NoDup_incl_length supportedMethods_NoDup Hincl) as Hle.
  rewrite Hlen in Hle. cbn in Hle. lia.
Qed.

(** C3, as amended. The methods that [forgeStageTwoQuery] recognizes are
    exactly the fourteen operations that the specification lists, each
    mapped to a fixed list of additional top-level keys; for a [method]
    outside this set, forging a query whose [meta] is absent or a dictionary
    throws a fatal error, not a typed usage error, before any normalizer is
    called: the consistency violation of the unrecognized method when
    [using] names a registered model. *)
Theorem recognized_methods_are_the_fourteen :
  (forall m, _getQueryKeys m <> None <-> List.In m supportedMethods)
  /\ List.NoDup supportedMethods
  /\ length supportedMethods = 14%nat
  /\ (forall m ks, _getQueryKeys m = Some ks <-> List.In (m, ks) methodTable)
  /\ (forall (deps : Dependencies) (q : dict),
        (forall m, prop q "method" = VStr m -> ~ List.In m supportedMethods) ->
        isUndefined (prop q "meta") || isDictionary (prop q "meta") = true ->
        exists e t,
          forge q = (Err e, {| query := q; trace := t |})
          /\ is_fatal e = true
          /\ existsb is_normalizer_call t = false
          /\ (forall u m WLModel,
                prop q "using" = VStr u -> String.eqb u "" = false ->
                getModel (VStr u) = Ok WLModel ->
                prop q "method" = VStr m -> String.eqb m "" = false ->
                e = ConsistencyViolation (UnrecognizedMethod m))).
Proof.
  split; [exact recognized_iff_supported|].
  split; [exact supportedMethods_NoDup|].
  split; [reflexivity|].
  split.
  { intros m ks. split; [apply switch_Some_In|].
    unfold methodTable. cbn [List.In]. intros H.
    repeat destruct H as [H|H]; try (injection H as <- <-; reflexivity). destruct H. }
  intros deps q Hm Hmeta.
  assert (Hnone : forall m, prop q "method" = VStr m -> _getQueryKeys m = None).
  { intros m E. destruct (_getQueryKeys m) eqn:K; [|reflexivity].
    exfalso. apply (Hm m E). apply recognized_iff_supported. congruence. }
  unfold forge, forgeStageTwoQuery, checkMeta, checkUsing, lookupModel, checkMethod,
    getQueryKeys, checkKeys.
  mrun.
  destruct (prop q "meta") eqn:Emeta; cbn in Hmeta |- *; try discriminate.
  all: destruct (prop q "using") as [| | | |u| | |] eqn:Eu; cbn;
    try (eexists _, _; repeat split; try reflexivity; intros; discriminate).
  all: destruct (String.eqb u "") eqn:Eue; cbn;
    try (eexists _, _; repeat split; try reflexivity;
         intros ? ? ? [= <-]; congruence).
  all: destruct (getModel (VStr u)) as [W|e] eqn:Eg; cbn;
    [| eexists _, _; split; [reflexivity|]; split;
       [unfold on_codes; destruct (contains_str _ (code e)); reflexivity|];
       split; [reflexivity|]; intros ? ? ? [= <-]; congruence ].
  all: destruct (prop q "method") as [| | | |m| | |] eqn:Em; cbn;
    try (eexists _, _; repeat split; try reflexivity; intros; discriminate).
  all: destruct (String.eqb m "") eqn:Eme; cbn;
    try (eexists _, _; repeat split; try reflexivity;
         intros ? ? ? _ _ _ [= <-]; congruence).
  all: rewrite (Hnone m eq_refl); cbn.
  all: eexists _, _; repeat split; try reflexivity; intros ? ? ? _ _ _ [= <-] _; reflexivity.
Qed.


Lemma unrecognized_method_witness :
  exists e t,
    @forge sampleOrm [ ("using", VStr "user"); ("method", VStr "frobnicate") ]
    = (Err e, {| query := [ ("using", VStr "user"); ("method", VStr "frobnicate") ];
                 trace := t |})
    /\ is_fatal e = true
    /\ e = ConsistencyViolation (UnrecognizedMethod "frobnicate").
Proof.
  destruct (proj2 (proj2 (proj2 (proj2 recognized_methods_are_the_fourteen))) sampleOrm
              [ ("using", VStr "user"); ("method", VStr "frobnicate") ])
    as (e & t & H1 & H2 & _ & H4).
  - intros m [= <-]. vm_compute. intros H.
    repeat destruct H as [H|H]; try discriminate. destruct H.
  - reflexivity.
  - exists e, t. split; [exact H1 | split; [exact H2|]].
    apply (H4 "user" "frobnicate" {| primaryKey := VStr "id" |}); reflexivity.
Defined.


(** ** The loop over the populate directives *)

Lemma forEach_app {A} (f : A -> M unit) (xs ys : list A) (s : state) :
  forEach f (xs ++ ys) s
  = match forEach f xs s with
    | (Ok _, s') => forEach f ys s'
    | (Err e, s') => (Err e, s')
    end.
Proof.
  revert s. induction xs as [|x xs IH]; intros s; simpl; [reflexivity|].
  unfold bind. destruct (f x s) as [[[]|e] s1]; [apply IH | reflexivity].
Qed.

(** A directive is live when its right-hand side is neither [false] nor
    [undefined]; the others are stripped. *)
Definition isLive (rhs : value) : bool := negb (is_false rhs || isUndefined rhs).

(** What processing the directives [ks] leaves alone: the other directives,
    the clauses of the criteria other than [select], and the shape of the
    criteria. *)
Record populatesFrame (ks : list string) (s s' : state) : Prop := {
  pf_populates : forall x, ~ List.In x ks ->
    field (prop (query s') "populates") x = field (prop (query s) "populates") x;
  pf_criteria : forall f, f <> "select" ->
    field (prop (query s') "criteria") f = field (prop (query s) "criteria") f;
  pf_select : isArray (field (prop (query s) "criteria") "select") = true ->
    isArray (field (prop (query s') "criteria") "select") = true;
  pf_dictionary : isDictionary (prop (query s) "criteria") = true ->
    isDictionary (prop (query s') "criteria") = true
}.

#[export] Instance populatesFrame_preorder ks : PreOrder (populatesFrame ks).
Proof.
  split.
  - intros s. split; auto.
  - intros s1 s2 s3 [A1 B1 C1 D1] [A2 B2 C2 D2]. split; intros.
    + rewrite A2, A1; auto.
    + rewrite B2, B1; auto.
    + auto.
    + auto.
Qed.

Lemma populatesFrame_mono ks ks' s s' :
  incl ks ks' -> populatesFrame ks s s' -> populatesFrame ks' s s'.
Proof. intros Hi [A B C D]. split; auto. Qed.

Lemma preserves_mono {A} (R R' : state -> state -> Prop) (m : M A) :
  (forall s s', R s s' -> R' s s') -> preserves R m -> preserves R' m.
Proof. intros H Hm s r s' E. apply H. eapply Hm, E. Qed.

Lemma frame_emit ks ev : preserves (populatesFrame ks) (emit ev).
Proof. intros s r s' [= _ <-]. split; auto. Qed.

Lemma frame_writePopulate ks k v : List.In k ks -> preserves (populatesFrame ks) (writePopulate k v).
Proof.
  intros Hk s r s'. unfold writePopulate. mrun. intros [= _ <-]. split; cbn.
  - intros x Hx. rewrite prop_set_prop_eq. apply field_set_field_ne. congruence.
  - intros f _. now rewrite prop_set_prop_ne.
  - now rewrite prop_set_prop_ne.
  - now rewrite prop_set_prop_ne.
Qed.

Lemma frame_deletePopulate ks k : List.In k ks -> preserves (populatesFrame ks) (deletePopulate k).
Proof.
  intros Hk s r s'. unfold deletePopulate. mrun. intros [= _ <-]. split; cbn.
  - intros x Hx. rewrite prop_set_prop_eq. apply field_delete_field_ne. congruence.
  - intros f _. now rewrite prop_set_prop_ne.
  - now rewrite prop_set_prop_ne.
  - now rewrite prop_set_prop_ne.
Qed.

Lemma field_set_field_eq d k x : field (set_field (VObj d) k x) k = x.
Proof. apply prop_set_prop_eq. Qed.

Lemma frame_includeInSelect ks k : preserves (populatesFrame ks) (includeInSelect k).
Proof.
  intros s r s'. unfold includeInSelect, first_elem. mrun.
  destruct (prop (query s) "criteria") as [| | | | | |xs|d] eqn:Ec; cbn;
    try (intros [= _ <-]; reflexivity).
  destruct (prop d "select") as [| | | |str| |sel|o] eqn:Es; cbn;
    try (intros [= _ <-]; reflexivity).
  - destruct str; cbn;
      repeat match goal with |- context [if ?c then _ else _] => destruct c end;
      intros [= _ <-]; reflexivity.
  - assert (forall c, (if negb (is_str "*" c) && negb (existsb (is_str k) sel)
                       then fun s0 => (Ok tt, {| query := set_prop (query s0) "criteria"
                                (VObj (set_prop d "select" (VArr (sel ++ [VStr k]))));
                              trace := trace s0 |})
                       else fun s0 => (Ok tt, s0)) s = (r, s') -> populatesFrame ks s s') as Hw.
    { intros c. destruct (_ && _); [|intros [= _ <-]; reflexivity].
      intros [= _ <-]. split; cbn.
      - intros x _. now rewrite prop_set_prop_ne.
      - intros f Hf. rewrite prop_set_prop_eq, Ec. cbn. now rewrite prop_set_prop_ne.
      - intros _. rewrite prop_set_prop_eq. cbn. now rewrite prop_set_prop_eq.
      - intros _. now rewrite prop_set_prop_eq. }
    destruct sel as [|v sel']; [exact (Hw VUndefined) | exact (Hw v)].
  - repeat match goal with |- context [if ?c then _ else _] => destruct c end;
      intros [= _ <-]; reflexivity.
Qed.

#[export] Hint Resolve frame_emit frame_includeInSelect : preserves.
#[export] Hint Extern 1 (preserves (populatesFrame _) (writePopulate _ _)) =>
  apply frame_writePopulate; simpl; auto : preserves.
#[export] Hint Extern 1 (preserves (populatesFrame _) (deletePopulate _)) =>
  apply frame_deletePopulate; simpl; auto : preserves.

Lemma frame_forgePopulate {deps : Dependencies} u ets k :
  preserves (populatesFrame [k]) (forgePopulate u ets k).
Proof.
  unfold forgePopulate, forgeSingularPopulate, forgePluralPopulate, readPopulate,
    checkNotOmitted, checkNotSorted, lookupAssociation.
  preserves_auto.
Qed.

Definition criteriaDefaulted (q : dict) : dict :=
  if isUndefined (prop q "criteria") then set_prop q "criteria" (VObj []) else q.

(** The state in which the loop over the populate directives starts: the
    criteria has been replaced by its normal form [c']. *)
Definition populatesEntry (q : dict) (u : string) (c' : value) : state :=
  {| query := set_prop (criteriaDefaulted q) "criteria" c';
     trace := [ CallGetModel (VStr u); CallNormalizeCriteria (rawCriteria q) (VStr u) ] |}.

(** The query reaches the loop over its populate directives [d]: it passes
    the checks of the essentials, its method accepts [populates], and its
    criteria is normalized to [c']. *)
Record reachesPopulates {deps : Dependencies} (q : dict) (u m : string) (WLModel : ModelDef)
    (ks : list string) (c' : value) (d : dict) : Prop := {
  rp_essentials : passesEssentials q u m WLModel ks;
  rp_accepts : contains_str ks "populates" = true;
  rp_compatible : incompatibleClause (prop q "criteria") m = false;
  rp_normalized :
    normalizeCriteria (rawCriteria q) (VStr u) (ensureTypeSafetyOf (prop q "meta")) = Ok c';
  rp_populates : prop q "populates" = VObj d
}.

(** What is left to do after the populate directives. *)
Definition afterPopulates {deps : Dependencies} (ks : list string) : M unit :=
  run when (contains_str ks "eachRecordFn" || contains_str ks "eachBatchFn") forgeStreamIteratee;
  ret tt.

Lemma populates_of_entry q u c' : 
  prop (query (populatesEntry q u c')) "populates" = prop q "populates".
Proof.
  unfold populatesEntry, criteriaDefaulted. cbn.
  rewrite prop_set_prop_ne by discriminate.
  destruct (isUndefined _); [now rewrite prop_set_prop_ne by discriminate | reflexivity].
Qed.

Lemma criteria_of_entry q u c' : prop (query (populatesEntry q u c')) "criteria" = c'.
Proof. apply prop_set_prop_eq. Qed.

Lemma forge_reaches_populates {deps : Dependencies} q u m WLModel ks c' d :
  reachesPopulates q u m WLModel ks c' d ->
  forge q
  = bind (forEach (forgePopulate (VStr u) (ensureTypeSafetyOf (prop q "meta"))) (keys d))
         (fun _ => afterPopulates ks) (populatesEntry q u c').
Proof.
  intros [He Hp Hc Hn Hq].
  rewrite (forge_essentials _ _ _ _ _ He).
  pose proof (switch_Some_In _ _ _ (pe_keys _ _ _ _ _ He)) as Hin.
  unfold methodTable in Hin. cbn [List.In] in Hin.
  unfold forgeQueryKeys, afterPopulates.
  repeat destruct Hin as [Hin|Hin]; try contradiction;
    injection Hin as <- <-; try discriminate Hp.
  all: unfold bind at 1; unfold when at 1; cbv [contains_str existsb String.eqb Ascii.eqb Bool.eqb orb];
    rewrite forgeCriteria_compatible by assumption; rewrite Hn.
  all: unfold forgePopulates; fold (criteriaDefaulted q);
    change {| query := set_prop (criteriaDefaulted q) "criteria" c';
              trace := [CallGetModel (VStr u)] ++
                       [CallNormalizeCriteria (rawCriteria q) (VStr u)] |}
      with (populatesEntry q u c');
    cbv [bind readKey getQuery ret when writeKey putQuery throw];
    repeat (progress (rewrite ?populates_of_entry, ?Hq;
                      cbn [isUndefined isObject isArray isFunction negb orb]));
    destruct (forEach _ (keys d) (populatesEntry q u c')) as [[[]|e] s'']; reflexivity.
Qed.

(** *** The steps of one directive *)

Lemma dictionary_inv v : isDictionary v = true -> exists d, v = VObj d.
Proof. destruct v; try discriminate. eauto. Qed.

Lemma checkNotOmitted_run k s :
  isDictionary (prop (query s) "criteria") = true ->
  checkNotOmitted k s
  = (if contains (field (prop (query s) "criteria") "omit") k
     then Err (UsageError E_INVALID_POPULATES) else Ok tt, s).
Proof.
  intros Hd. apply dictionary_inv in Hd as [c Hc].
  unfold checkNotOmitted. mrun. rewrite Hc. cbn.
  destruct (contains (prop c "omit") k); reflexivity.
Qed.

Lemma checkNotSorted_run k s :
  isDictionary (prop (query s) "criteria") = true ->
  checkNotSorted k s
  = (if any (field (prop (query s) "criteria") "sort") (sortsBy k)
     then Err (UsageError E_INVALID_POPULATES) else Ok tt, s).
Proof.
  intros Hd. apply dictionary_inv in Hd as [c Hc].
  unfold checkNotSorted. mrun. rewrite Hc. cbn.
  destruct (any (prop c "sort") (sortsBy k)); reflexivity.
Qed.

Lemma includeInSelect_run k s :
  isDictionary (prop (query s) "criteria") = true ->
  isArray (field (prop (query s) "criteria") "select") = true ->
  exists s', includeInSelect k s = (Ok tt, s') /\ populatesFrame [] s s'.
Proof.
  intros Hd Hs. destruct (includeInSelect k s) as [r s'] eqn:E.
  exists s'. split; [|eapply frame_includeInSelect, E].
  apply dictionary_inv in Hd as [c Hc]. rewrite Hc in Hs. cbn in Hs.
  revert E. unfold includeInSelect, first_elem. mrun. rewrite Hc. cbn.
  destruct (prop c "select") as [| | | | | |sel|]; try discriminate.
  destruct sel; cbn;
    repeat match goal with |- context [if ?c then _ else _] => destruct c end;
    intros [= <- <-]; reflexivity.
Qed.

Lemma contains_dictionary c k f :
  contains (field c f) k = true -> isDictionary c = true.
Proof.
  destruct c; cbn; try discriminate; [|reflexivity].
  destruct (String.eqb f "sort"); discriminate.
Qed.

Lemma any_dictionary c p f : any (field c f) p = true -> isDictionary c = true.
Proof.
  destruct c; cbn; try discriminate; [|reflexivity].
  destruct (String.eqb f "sort"); discriminate.
Qed.

(** A live directive on an omitted attribute is rejected. *)
Lemma forgePopulate_omitted {deps : Dependencies} u ets k s :
  isLive (field (prop (query s) "populates") k) = true ->
  contains (field (prop (query s) "criteria") "omit") k = true ->
  forgePopulate u ets k s = (Err (UsageError E_INVALID_POPULATES), s).
Proof.
  unfold isLive. intros Hl Ho. apply negb_true_iff in Hl.
  unfold forgePopulate, readPopulate. unfold bind at 1. unfold bind at 1.
  unfold readKey at 1. unfold bind at 1. unfold getQuery at 1, ret at 1, ret at 1.
  rewrite Hl. unfold bind at 1.
  rewrite checkNotOmitted_run by (eapply contains_dictionary, Ho).
  rewrite Ho. reflexivity.
Qed.

(** A live directive on an attribute that the primary criteria sorts by is
    rejected. *)
Lemma forgePopulate_sorted {deps : Dependencies} u ets k s :
  isLive (field (prop (query s) "populates") k) = true ->
  isArray (field (prop (query s) "criteria") "select") = true ->
  any (field (prop (query s) "criteria") "sort") (sortsBy k) = true ->
  exists s', forgePopulate u ets k s = (Err (UsageError E_INVALID_POPULATES), s').
Proof.
  unfold isLive. intros Hl Hsel Hs. apply negb_true_iff in Hl.
  pose proof (any_dictionary _ _ _ Hs) as Hd.
  unfold forgePopulate, readPopulate. unfold bind at 1. unfold bind at 1.
  unfold readKey at 1. unfold bind at 1. unfold getQuery at 1, ret at 1, ret at 1.
  rewrite Hl. unfold bind at 1.
  rewrite checkNotOmitted_run by assumption.
  destruct (contains _ k); [eauto|].
  unfold bind at 1.
  destruct (includeInSelect_run k s Hd Hsel) as (s' & -> & Hf).
  unfold bind at 1.
  rewrite checkNotSorted_run by (apply (pf_dictionary _ _ _ Hf), Hd).
  rewrite (pf_criteria _ _ _ Hf) by discriminate. rewrite Hs. eauto.
Qed.

Lemma field_dictionary p k v :
  field p k = v -> isUndefined v = false -> isFunction v = false -> isDictionary p = true.
Proof.
  destruct p; cbn; intros <-; try discriminate; [|reflexivity].
  destruct (String.eqb k "sort"); discriminate.
Qed.

Definition emitted (s : state) (ev : event) : state :=
  {| query := query s; trace := trace s ++ [ ev ] |}.

(** A live directive on a singular association: [{}] and [true] are stored
    as [true], anything else is rejected. *)
Lemma forgePopulate_singular {deps : Dependencies} u ets k s def :
  let rhs := field (prop (query s) "populates") k in
  isLive rhs = true ->
  isDictionary (prop (query s) "criteria") = true ->
  isArray (field (prop (query s) "criteria") "select") = true ->
  getAttribute (VStr k) u = Ok def ->
  truthy (attr_model def) = true ->
  (isEmptyDict rhs || is_true rhs = false ->
   exists s', forgePopulate u ets k s = (Err (UsageError E_INVALID_POPULATES), s'))
  /\
  (isEmptyDict rhs || is_true rhs = true ->
   contains (field (prop (query s) "criteria") "omit") k = false ->
   any (field (prop (query s) "criteria") "sort") (sortsBy k) = false ->
   exists s', forgePopulate u ets k s = (Ok tt, s')
              /\ field (prop (query s') "populates") k = VBool true
              /\ populatesFrame [k] s s').
Proof.
  intros rhs Hl Hd Hsel Hg Hm. unfold isLive in Hl. apply negb_true_iff in Hl.
  assert (Hstart : forgePopulate u ets k s
    = match checkNotOmitted k s with
      | (Ok _, s0) =>
          match includeInSelect k s0 with
          | (Ok _, s1) =>
              match checkNotSorted k s1 with
              | (Ok _, s2) => forgeSingularPopulate k (emitted s2 (CallGetAttribute (VStr k) u))
              | (Err e, s2) => (Err e, s2)
              end
          | (Err e, s1) => (Err e, s1)
          end
      | (Err e, s0) => (Err e, s0)
      end).
  { unfold forgePopulate, readPopulate. unfold bind at 1. unfold bind at 1.
    unfold readKey at 1. unfold bind at 1. unfold getQuery at 1, ret at 1, ret at 1.
    fold rhs. rewrite Hl. unfold bind at 1.
    destruct (checkNotOmitted k s) as [[[]|e0] s0]; [|reflexivity].
    unfold bind at 1. destruct (includeInSelect k s0) as [[[]|e1] s1]; [|reflexivity].
    unfold bind at 1. destruct (checkNotSorted k s1) as [[[]|e2] s2]; [|reflexivity].
    unfold lookupAssociation, tryCall. mrun. rewrite Hg. cbn. rewrite Hm. reflexivity. }
  rewrite Hstart. rewrite checkNotOmitted_run by assumption.
  destruct (includeInSelect_run k s Hd Hsel) as (s1 & E1 & Hf).
  assert (Hrhs1 : field (prop (query s1) "populates") k = rhs)
    by (apply (pf_populates _ _ _ Hf); intros []).
  split.
  - intros Hno. destruct (contains _ k); [eauto|]. rewrite E1.
    rewrite checkNotSorted_run by (apply (pf_dictionary _ _ _ Hf), Hd).
    destruct (any _ _); [eauto|].
    unfold forgeSingularPopulate, readPopulate, writePopulate. mrun. rewrite Hrhs1.
    apply orb_false_iff in Hno as [-> ->]. cbn. eauto.
  - intros Hyes Ho Hs. rewrite Ho, E1.
    rewrite checkNotSorted_run by (apply (pf_dictionary _ _ _ Hf), Hd).
    rewrite (pf_criteria _ _ _ Hf) by discriminate. rewrite Hs.
    assert (Hp : isDictionary (prop (query s1) "populates") = true).
    { apply (field_dictionary _ _ _ Hrhs1); destruct rhs as [| |[]| | | | |[]]; 
        try discriminate; reflexivity. }
    apply dictionary_inv in Hp as [p Hp].
    unfold forgeSingularPopulate, readPopulate, writePopulate. mrun.
    rewrite Hrhs1. destruct (isEmptyDict rhs) eqn:Ee; cbn.
    + rewrite Hp. cbn. eexists. split; [reflexivity|]. split.
      * cbn. rewrite prop_set_prop_eq. cbn. apply prop_set_prop_eq.
      * split; cbn.
        -- intros x Hx. rewrite prop_set_prop_eq. cbn. rewrite prop_set_prop_ne.
           ++ rewrite <- (pf_populates _ _ _ Hf) by (intros []). now rewrite Hp.
           ++ intros ->. apply Hx. now left.
        -- intros f Hf'. rewrite prop_set_prop_ne by discriminate. now apply (pf_criteria _ _ _ Hf).
        -- intros _. rewrite prop_set_prop_ne by discriminate. now apply (pf_select _ _ _ Hf).
        -- intros _. rewrite prop_set_prop_ne by discriminate. now apply (pf_dictionary _ _ _ Hf).
    + cbn in Hyes. rewrite Hyes. cbn. eexists. split; [reflexivity|]. split.
      * cbn. rewrite Hrhs1. destruct rhs as [| |[]| | | | |]; try discriminate. reflexivity.
      * eapply populatesFrame_mono with (ks := []); [intros ? []|].
        destruct Hf as [A B C D]. split; cbn; auto.
Qed.

(** *** At a directive *)

(** The loop is at the directive [k]: the query reaches the loop and the
    directives [pre] that come before [k] have been processed without an
    error, leaving the state [s]. *)
Record atDirective {deps : Dependencies} (q : dict) (u m : string) (WLModel : ModelDef)
    (ks : list string) (c' : value) (d : dict) (pre : list string) (k : string)
    (post : list string) (s : state) : Prop := {
  ad_reaches : reachesPopulates q u m WLModel ks c' d;
  ad_keys : keys d = pre ++ k :: post;
  ad_before :
    forEach (forgePopulate (VStr u) (ensureTypeSafetyOf (prop q "meta"))) pre
      (populatesEntry q u c') = (Ok tt, s)
}.

Lemma frame_forEach {deps : Dependencies} u ets xs :
  preserves (populatesFrame xs) (forEach (forgePopulate u ets) xs).
Proof.
  apply preserves_forEach; [exact _|]. intros x Hx.
  eapply preserves_mono; [|apply frame_forgePopulate].
  intros s s'. apply populatesFrame_mono. intros y [<-|[]]. exact Hx.
Qed.

Lemma split_NoDup (pre post : list string) k :
  NoDup (pre ++ k :: post) -> ~ List.In k pre /\ ~ List.In k post.
Proof.
  rewrite NoDup_ListNoDup. intros H. apply List.NoDup_remove_2 in H.
  rewrite List.in_app_iff in H. tauto.
Qed.

Lemma at_directive {deps : Dependencies} q u m WLModel ks c' d pre k post s :
  atDirective q u m WLModel ks c' d pre k post s ->
  forge q
  = match forgePopulate (VStr u) (ensureTypeSafetyOf (prop q "meta")) k s with
    | (Ok _, s') =>
        bind (forEach (forgePopulate (VStr u) (ensureTypeSafetyOf (prop q "meta"))) post)
             (fun _ => afterPopulates ks) s'
    | (Err e, s') => (Err e, s')
    end
  /\ field (prop (query s) "populates") k = prop d k
  /\ (forall f, f <> "select" -> field (prop (query s) "criteria") f = field c' f)
  /\ (isArray (field c' "select") = true ->
      isArray (field (prop (query s) "criteria") "select") = true
      /\ isDictionary (prop (query s) "criteria") = true)
  /\ ~ List.In k post.
Proof.
  intros [Hr Hk Hb].
  pose proof (frame_forEach _ _ _ _ _ _ Hb) as [A B C D].
  pose proof (keys_NoDup d) as Hnd. rewrite Hk in Hnd. apply split_NoDup in Hnd as [Hpre Hpost].
  rewrite criteria_of_entry in B, C, D. rewrite populates_of_entry in A.
  rewrite (rp_populates _ _ _ _ _ _ _ Hr) in A.
  split; [|split; [|split; [|split]]].
  - rewrite (forge_reaches_populates _ _ _ _ _ _ _ Hr), Hk.
    unfold bind at 1. rewrite forEach_app, Hb. cbn [forEach]. unfold bind at 1.
    destruct (forgePopulate _ _ k s) as [[[]|e] s']; reflexivity.
  - now apply A.
  - exact B.
  - intros Hsel. split; [apply C, Hsel | apply D].
    apply (field_dictionary c' "select" _ eq_refl);
      destruct (field c' "select"); try discriminate; reflexivity.
  - exact Hpost.
Qed.

(** ** C5: populating an omitted attribute *)

Lemma contains_In xs k : List.In (VStr k) xs -> contains (VArr xs) k = true.
Proof.
  intros H. cbn. apply existsb_exists. exists (VStr k). split; [assumption|].
  cbn. apply String.eqb_refl.
Qed.

(** C5, as amended. When the loop over the populate directives comes to a
    key of [query.populates] whose right-hand side is neither [false] nor
    [undefined] and which is an element of the [omit] of the normalized
    criteria, forging throws [E_INVALID_POPULATES], whatever the model and
    the attribute. (A directive whose right-hand side is [false] or
    [undefined] is stripped instead, and a directive that comes earlier may
    already have thrown.) *)
Theorem populating_an_omitted_attribute_is_rejected {deps : Dependencies}
    q u m WLModel ks c' d pre k post s omitted :
  atDirective q u m WLModel ks c' d pre k post s ->
  isLive (prop d k) = true ->
  field c' "omit" = VArr omitted ->
  List.In (VStr k) omitted ->
  forge q = (Err (UsageError E_INVALID_POPULATES), s).
Proof.
  intros Had Hl Ho Hin.
  destruct (at_directive _ _ _ _ _ _ _ _ _ _ _ Had) as (-> & Hrhs & Hc & _).
  rewrite forgePopulate_omitted; [reflexivity | now rewrite Hrhs |].
  rewrite Hc by discriminate. rewrite Ho. now apply contains_In.
Qed.

(** ** C6: populating an attribute that the primary criteria sorts by *)

Lemma sortsBy_In directives k direction more :
  List.In (VObj ((k, direction) :: more)) directives ->
  any (VArr directives) (sortsBy k) = true.
Proof.
  intros H. cbn. apply existsb_exists. eexists. split; [exact H|].
  unfold sortsBy, first_key, keys. cbn. apply String.eqb_refl.
Qed.

(** C6, as amended. When the loop over the populate directives comes to a
    key of [query.populates] whose right-hand side is neither [false] nor
    [undefined] and which is the key of a comparator directive of the [sort]
    of the normalized criteria (a criteria that carries its [select]
    array), forging throws [E_INVALID_POPULATES], whatever the direction
    that the directive carries. *)
Theorem populating_a_sorted_attribute_is_rejected {deps : Dependencies}
    q u m WLModel ks c' d pre k post s directives direction more :
  atDirective q u m WLModel ks c' d pre k post s ->
  isArray (field c' "select") = true ->
  isLive (prop d k) = true ->
  field c' "sort" = VArr directives ->
  List.In (VObj ((k, direction) :: more)) directives ->
  exists s', forge q = (Err (UsageError E_INVALID_POPULATES), s').
Proof.
  intros Had Hsel' Hl Hs Hin.
  destruct (at_directive _ _ _ _ _ _ _ _ _ _ _ Had) as (-> & Hrhs & Hc & Hshape & _).
  destruct (Hshape Hsel') as [Hsel _].
  destruct (forgePopulate_sorted (VStr u) (ensureTypeSafetyOf (prop q "meta")) k s)
    as [s' ->]; [now rewrite Hrhs | assumption | | eauto].
  rewrite Hc by discriminate. rewrite Hs. eapply sortsBy_In, Hin.
Qed.

(** ** C4: the right-hand side of a singular association *)

Definition queryUnchanged (s s' : state) : Prop := query s' = query s.

#[export] Instance queryUnchanged_preorder : PreOrder queryUnchanged.
Proof. split; [intros s; reflexivity | intros s1 s2 s3 H1 H2; unfold queryUnchanged in *; congruence]. Qed.

Lemma afterPopulates_queryUnchanged {deps : Dependencies} ks :
  preserves queryUnchanged (afterPopulates ks).
Proof. unfold afterPopulates, forgeStreamIteratee. preserves_auto. Qed.

(** C4, as amended. When the loop over the populate directives comes to a
    key that names a singular ("model") association, the normalized
    criteria carrying its [select] array: a right-hand side equal to [{}]
    or [true] is accepted, provided the attribute is neither omitted nor
    sorted by in the primary criteria, and the value stored in
    [query.populates] is exactly [true], also when forging returns; a
    right-hand side other than [{}], [true], [false] and [undefined] makes
    forging throw [E_INVALID_POPULATES]. *)
Theorem singular_populate_true_or_rejected {deps : Dependencies}
    q u m WLModel ks c' d pre k post s def :
  atDirective q u m WLModel ks c' d pre k post s ->
  isArray (field c' "select") = true ->
  getAttribute (VStr k) (VStr u) = Ok def ->
  truthy (attr_model def) = true ->
  (isEmptyDict (prop d k) || is_true (prop d k) = true ->
   contains (field c' "omit") k = false ->
   any (field c' "sort") (sortsBy k) = false ->
   (exists s',
      forgePopulate (VStr u) (ensureTypeSafetyOf (prop q "meta")) k s = (Ok tt, s')
      /\ field (prop (query s') "populates") k = VBool true)
   /\ (forall sf, forge q = (Ok tt, sf) -> field (prop (query sf) "populates") k = VBool true))
  /\
  (isEmptyDict (prop d k) || is_true (prop d k) = false ->
   isLive (prop d k) = true ->
   exists s', forge q = (Err (UsageError E_INVALID_POPULATES), s')).
Proof.
  intros Had Hsel' Hg Hm.
  destruct (at_directive _ _ _ _ _ _ _ _ _ _ _ Had) as (Hforge & Hrhs & Hc & Hshape & Hpost).
  destruct (Hshape Hsel') as [Hsel Hd].
  split.
  - intros Hyes Ho Hs.
    assert (Hl : isLive (field (prop (query s) "populates") k) = true).
    { rewrite Hrhs. destruct (prop d k) as [| |[]| | | | |[]]; try discriminate; reflexivity. }
    destruct (forgePopulate_singular (VStr u) (ensureTypeSafetyOf (prop q "meta")) k s def
                Hl Hd Hsel Hg Hm) as [_ HA].
    destruct HA as (s' & E & Hv & Hf).
    { now rewrite Hrhs. }
    { rewrite Hc by discriminate. exact Ho. }
    { rewrite Hc by discriminate. exact Hs. }
    split; [eauto|].
    intros sf. rewrite Hforge, E. unfold bind.
    destruct (forEach _ post s') as [[[]|e] s4] eqn:E4; [|discriminate].
    intros Hf'. apply afterPopulates_queryUnchanged in Hf'. rewrite Hf'.
    apply frame_forEach in E4. rewrite (pf_populates _ _ _ E4) by assumption. exact Hv.
  - intros Hno Hl. rewrite Hforge.
    rewrite <- Hrhs in Hno, Hl.
    destruct (forgePopulate_singular (VStr u) (ensureTypeSafetyOf (prop q "meta")) k s def
                Hl Hd Hsel Hg Hm) as [HB _].
    destruct (HB Hno) as [s' ->]. eauto.
Qed.

(** ** Sample queries *)

(** [{ using: 'user', method: 'find', criteria: c, populates: p }] *)
Definition findUsers (c p : dict) : dict :=
  [ ("using", VStr "user"); ("method", VStr "find"); ("criteria", VObj c);
    ("populates", VObj p) ].

(** The normal form that the sample normalizer gives to a criteria with the
    clauses [sort] and [omit]. *)
Definition normalized (sort omit : list value) : value :=
  VObj [ ("where", VObj []); ("limit", VNum MAX_SAFE_INTEGER); ("skip", VNum 0);
         ("sort", VArr sort); ("select", VArr [ VStr "*" ]); ("omit", VArr omit) ].

Definition byIdAsc : value := VObj [ ("id", VStr "ASC") ].
Definition byMomAsc : value := VObj [ ("mom", VStr "ASC") ].

Lemma findUsers_atDirective c p c' k post :
  incompatibleClause (VObj c) "find" = false ->
  sampleNormalizeCriteria (VObj c) (VStr "user") true = Ok c' ->
  keys p = k :: post ->
  @atDirective sampleOrm (findUsers c p) "user" "find" {| primaryKey := VStr "id" |}
    [ "criteria"; "populates" ] c' p [] k post (populatesEntry (findUsers c p) "user" c').
Proof.
  intros H1 H2 H5. split; [split; try assumption; try reflexivity | exact H5 | reflexivity].
  split; reflexivity.
Defined.

Lemma populating_an_omitted_attribute_witness :
  fst (@forge sampleOrm (findUsers [ ("omit", VArr [ VStr "pets" ]) ] [ ("pets", VBool true) ]))
  = Err (UsageError E_INVALID_POPULATES).
Proof.
  rewrite (@populating_an_omitted_attribute_is_rejected sampleOrm
             (findUsers [ ("omit", VArr [ VStr "pets" ]) ] [ ("pets", VBool true) ])
             "user" "find" {| primaryKey := VStr "id" |} [ "criteria"; "populates" ]
             (normalized [ byIdAsc ] [ VStr "pets" ]) [ ("pets", VBool true) ]
             [] "pets" []
             (populatesEntry (findUsers [ ("omit", VArr [ VStr "pets" ]) ]
                                [ ("pets", VBool true) ])
                "user" (normalized [ byIdAsc ] [ VStr "pets" ]))
             [ VStr "pets" ]).
  - reflexivity.
  - apply findUsers_atDirective; reflexivity.
  - reflexivity.
  - reflexivity.
  - left. reflexivity.
Defined.

(** C5 as stated fails on a directive whose right-hand side is [false]: the
    key is a key of [query.populates] and an element of the normalized
    [omit], and forging succeeds, the directive being stripped. It also
    fails when an earlier directive throws an error of another kind. *)
Lemma populate_false_of_an_omitted_attribute_is_stripped :
  (let q := findUsers [ ("omit", VArr [ VStr "pets" ]) ] [ ("pets", VBool false) ] in
   List.In "pets" (keys [ ("pets", VBool false) ])
   /\ sampleNormalizeCriteria (VObj [ ("omit", VArr [ VStr "pets" ]) ]) (VStr "user") true
      = Ok (normalized [ byIdAsc ] [ VStr "pets" ])
   /\ fst (@forge sampleOrm q) = Ok tt
   /\ prop (query (snd (@forge sampleOrm q))) "populates" = VObj [])
  /\
  (let q := findUsers [ ("omit", VArr [ VStr "mom" ]) ]
              [ ("pets", VObj [ ("limit", VNum 0) ]); ("mom", VBool true) ] in
   fst (@forge sampleOrm q) = Err (ConsistencyViolation (SubcriteriaMatchesNothing "pets"))).
Proof.
  cbv zeta. repeat split; try reflexivity. left. reflexivity.
Qed.

Lemma populating_a_sorted_attribute_witness :
  exists s',
    @forge sampleOrm (findUsers [ ("sort", VArr [ byMomAsc ]) ] [ ("mom", VBool true) ])
    = (Err (UsageError E_INVALID_POPULATES), s').
Proof.
  apply (@populating_a_sorted_attribute_is_rejected sampleOrm
           (findUsers [ ("sort", VArr [ byMomAsc ]) ] [ ("mom", VBool true) ])
           "user" "find" {| primaryKey := VStr "id" |} [ "criteria"; "populates" ]
           (normalized [ byMomAsc ] []) [ ("mom", VBool true) ]
           [] "mom" []
           (populatesEntry (findUsers [ ("sort", VArr [ byMomAsc ]) ] [ ("mom", VBool true) ])
              "user" (normalized [ byMomAsc ] []))
           [ byMomAsc ] (VStr "ASC") []).
  - apply findUsers_atDirective; reflexivity.
  - reflexivity.
  - reflexivity.
  - reflexivity.
  - left. reflexivity.
Defined.

(** C6 as stated fails on a directive whose right-hand side is [false], which
    is stripped, and when an earlier directive throws an error of another
    kind. *)
Lemma populate_false_of_a_sorted_attribute_is_stripped :
  (let q := findUsers [ ("sort", VArr [ byMomAsc ]) ] [ ("mom", VBool false) ] in
   List.In "mom" (keys [ ("mom", VBool false) ])
   /\ sampleNormalizeCriteria (VObj [ ("sort", VArr [ byMomAsc ]) ]) (VStr "user") true
      = Ok (normalized [ byMomAsc ] [])
   /\ fst (@forge sampleOrm q) = Ok tt
   /\ prop (query (snd (@forge sampleOrm q))) "populates" = VObj [])
  /\
  (let q := findUsers [ ("sort", VArr [ byMomAsc ]) ]
              [ ("pets", VObj [ ("limit", VNum 0) ]); ("mom", VBool true) ] in
   fst (@forge sampleOrm q) = Err (ConsistencyViolation (SubcriteriaMatchesNothing "pets"))).
Proof.
  cbv zeta. repeat split; try reflexivity. left. reflexivity.
Qed.

(** C4 as stated fails twice. With [{}] on the right-hand side the singular
    association [mom] is rejected when the primary criteria sorts by [mom]
    (the case of the ad-hoc test of the source file); and the right-hand side
    [false], which is neither [{}] nor [true], does not fail: it is stripped. *)
Lemma singular_populate_counterexamples :
  (let q := findUsers [ ("sort", VArr [ byMomAsc ]) ] [ ("mom", VObj []) ] in
   sampleGetAttribute (VStr "mom") (VStr "user")
      = Ok {| attr_type := VUndefined; attr_model := VStr "user"; attr_collection := VUndefined |}
   /\ fst (@forge sampleOrm q) = Err (UsageError E_INVALID_POPULATES))
  /\
  (let q := findUsers [] [ ("mom", VBool false) ] in
   isEmptyDict (VBool false) || is_true (VBool false) = false
   /\ fst (@forge sampleOrm q) = Ok tt
   /\ prop (query (snd (@forge sampleOrm q))) "populates" = VObj []).
Proof. cbv zeta. repeat split; reflexivity. Qed.

Lemma singular_populate_witness :
  field (prop (query (snd (@forge sampleOrm (findUsers [] [ ("mom", VObj []) ])))) "populates")
    "mom"
  = VBool true.
Proof.
  refine (proj2 (proj1 (@singular_populate_true_or_rejected sampleOrm
                          (findUsers [] [ ("mom", VObj []) ])
                          "user" "find" {| primaryKey := VStr "id" |} [ "criteria"; "populates" ]
                          (normalized [ byIdAsc ] []) [ ("mom", VObj []) ]
                          [] "mom" []
                          (populatesEntry (findUsers [] [ ("mom", VObj []) ]) "user"
                             (normalized [ byIdAsc ] []))
                          {| attr_type := VUndefined; attr_model := VStr "user";
                             attr_collection := VUndefined |} _ _ _ _) _ _ _) _ _).
  - apply findUsers_atDirective; reflexivity.
  - reflexivity.
  - reflexivity.
  - reflexivity.
  - reflexivity.
  - reflexivity.
  - reflexivity.
  - reflexivity.
Defined.

End ForgeFacts.

(* ===================================================================== *)
(** * Part IV: properties of the query integrator                         *)
(* ===================================================================== *)

Module IntegratorFacts.
Import Integrator.

(** ** Sample data: users and their pets *)

Definition userRow (id : Z) (name : string) : object :=
  ODict [ ("id", VNum id); ("name", VStr name) ].
Definition petRow (id userId : Z) : object :=
  ODict [ ("id", VNum id); ("userId", VNum userId) ].

(** A cache, at location 1, with two users and two pets of the first user. *)
Definition sampleHeap : heap :=
  list_to_map
    [ (1, ODict [ ("user", VRef 2); ("pet", VRef 5) ]);
      (2, OArray [ VRef 3; VRef 4 ]);
      (3, userRow 1 "ann");
      (4, userRow 2 "bob");
      (5, OArray [ VRef 6; VRef 7 ]);
      (6, petRow 10 1);
      (7, petRow 11 1) ].

(** A cache, at location 1, whose [user] table has no row. *)
Definition emptyHeap : heap :=
  list_to_map
    [ (1, ODict [ ("user", VRef 2); ("pet", VRef 3) ]);
      (2, OArray []);
      (3, OArray []) ].

Definition instruction (parent child parentKey childKey alias : string) : value :=
  VObj [ ("parent", VStr parent); ("child", VStr child); ("parentKey", VStr parentKey);
         ("childKey", VStr childKey); ("alias", VStr alias) ].

Definition petsOfUser : value := instruction "user" "pet" "id" "userId" "pets".

(** The scenario of the specification: every user gets the array of its
    pets, a user without pets an empty array. *)
Example integrate_pets :
  exists h',
    @integrate specHost sampleHeap (VRef 1) (VArr [ petsOfUser ]) (VFun "cb")
    = CalledBack None (VRef 2) h'
    /\ (exists d, h' !! 3 = Some (ODict d) /\
          prop d "pets"
          = VArr [ VObj [ ("id", VNum 1); ("name", VStr "ann"); ("id", VNum 10); ("userId", VNum 1) ];
                   VObj [ ("id", VNum 1); ("name", VStr "ann"); ("id", VNum 11); ("userId", VNum 1) ] ])
    /\ (exists d, h' !! 4 = Some (ODict d) /\ prop d "pets" = VArr []).
Proof.
  eexists. split; [vm_compute; reflexivity|].
  split; eexists; (split; [vm_compute; reflexivity | reflexivity]).
Qed.

(** ** The validation *)

Lemma get_error h v k e : get h v k = Err e -> e = TypeError.
Proof.
  destruct v as [| | | | | |l| |]; cbn; intros H; try discriminate H;
    try (now injection H as <-).
  destruct (h !! l) as [[]|]; discriminate H.
Qed.

Section Validation.
Context {host : Host}.

(** The validation reads and does not write; it lets the call go on only
    when [cb] is a function. *)
Lemma validate_ok cache ji cb h r h' :
  validate cache ji cb h = Ok (r, h') ->
  h' = h /\ (r = None -> isFunction cb = true).
Proof.
  unfold validate, anchored, bind, read, readAt, read, ret.
  destruct (isFunction cb) eqn:Ef; cbn [negb].
  all: repeat first
    [ match goal with
      | |- context [match anchorTo ?h ?v ?ty with _ => _ end] =>
          destruct (anchorTo h v ty) as [[]|]
      | |- context [match get ?h ?v ?k with _ => _ end] => destruct (get h v k)
      end
    | progress cbn ];
    try discriminate; intros [= <- <-]; split; auto; discriminate.
Qed.

(** The validation throws what the engine throws when it reads a property
    of [undefined] or [null], or what [anchor] throws. *)
Lemma validate_error cache ji cb h e :
  validate cache ji cb h = Err e ->
  e = TypeError \/ exists v ty, anchorTo h v ty = Err e.
Proof.
  unfold validate, anchored, bind, read, readAt, read, ret.
  repeat first
    [ match goal with
      | |- context [match anchorTo ?h ?v ?ty with _ => _ end] =>
          let E := fresh "E" in destruct (anchorTo h v ty) as [[]|] eqn:E
      | |- context [match get ?h ?v ?k with _ => _ end] =>
          let E := fresh "E" in destruct (get h v k) eqn:E; [|apply get_error in E; subst]
      | |- context [if ?c then _ else _] => destruct c
      end
    | progress cbn ];
    try discriminate; intros [= <-]; eauto.
Qed.

End Validation.

(** ** C7: integrate throws *)

(** C7: [integrate] throws on an input that meets its contract. With a
    cache whose parent table has no row the validation passes and
    [Object.keys(cache[parent][0])] throws a [TypeError]; the loop throws on
    an instruction that is [null], which the validation does not look at;
    and with a [cb] that is not a function the report of the invalid usage
    is itself a throw. *)
Theorem integrate_throws_on_an_empty_parent_table :
  @validate specHost (VRef 1) (VArr [ petsOfUser ]) (VFun "cb") emptyHeap = Ok (None, emptyHeap)
  /\ @integrate specHost emptyHeap (VRef 1) (VArr [ petsOfUser ]) (VFun "cb") = Threw TypeError
  /\ @integrate specHost sampleHeap (VRef 1) (VArr [ petsOfUser; VNull ]) (VFun "cb")
     = Threw TypeError
  /\ @integrate specHost sampleHeap (VNum 5) (VArr [ petsOfUser ]) VUndefined = Threw TypeError.
Proof. repeat split; vm_compute; reflexivity. Qed.

(** ** The groups of the instructions *)

Lemma insertIndexed_Permutation {A} (x : nat * A) sorted :
  Permutation (insertIndexed x sorted) (x :: sorted).
Proof.
  induction sorted as [|y sorted IH]; cbn; [reflexivity|].
  destruct (fst x <=? fst y)%nat; [reflexivity|].
  rewrite IH. apply perm_swap.
Qed.

Lemma sortIndexed_Permutation {A} (l : list (nat * A)) :
  Permutation (fold_right insertIndexed [] l) l.
Proof.
  induction l as [|x l IH]; cbn; [reflexivity|].
  rewrite insertIndexed_Permutation. now apply perm_skip.
Qed.

Lemma indexed_entries {A} (entries : list (string * A)) :
  map snd (indexed entries) = List.filter (fun e => isArrayIndex (fst e)) entries.
Proof.
  unfold indexed, isArrayIndex. induction entries as [|e entries IH]; cbn; [reflexivity|].
  destruct (arrayIndex (fst e)); cbn; now rewrite IH.
Qed.

Lemma filter_partition {A} (p : A -> bool) (l : list A) :
  Permutation (List.filter p l ++ List.filter (fun x => negb (p x)) l) l.
Proof.
  induction l as [|x l IH]; cbn; [reflexivity|].
  destruct (p x); cbn.
  - now apply perm_skip.
  - rewrite <- Permutation_middle. now apply perm_skip.
Qed.

(** The engine enumerates every property, once. *)
Lemma enumerate_Permutation {A} (entries : list (string * A)) :
  Permutation (enumerate entries) entries.
Proof.
  unfold enumerate. rewrite (Permutation_map snd (sortIndexed_Permutation (indexed entries))).
  rewrite indexed_entries. apply (filter_partition (fun e => isArrayIndex (fst e))).
Qed.

Lemma addToGroup_keys gs a x :
  map fst (addToGroup gs a x)
  = if existsb (String.eqb a) (map fst gs) then map fst gs else map fst gs ++ [ a ].
Proof.
  induction gs as [|[b g] gs IH]; cbn; [reflexivity|].
  rewrite (String.eqb_sym a b). destruct (String.eqb b a); cbn; [reflexivity|].
  rewrite IH. destruct (existsb _ _); reflexivity.
Qed.

Lemma addToGroup_NoDup gs a x :
  List.NoDup (map fst gs) -> List.NoDup (map fst (addToGroup gs a x)).
Proof.
  intros Hnd. rewrite addToGroup_keys. destruct (existsb _ _) eqn:E; [assumption|].
  apply List.NoDup_app; [assumption | repeat constructor; intros [] |].
  intros b Hb [<-|[]].
  assert (existsb (String.eqb a) (map fst gs) = true); [|congruence].
  apply existsb_exists. exists a. split; [assumption | apply String.eqb_refl].
Qed.

(** No two groups have the same key. *)
Lemma groupBy_NoDup {host : Host} h collection k :
  List.NoDup (map fst (groupBy h collection k)).
Proof.
  unfold groupBy.
  eapply Permutation_NoDup;
    [ apply Permutation_map; symmetry; apply enumerate_Permutation |].
  unfold grouped.
  assert (Hgs : List.NoDup (map fst (@nil (string * list value)))) by constructor.
  revert Hgs. generalize (@nil (string * list value)).
  induction (elements h collection) as [|x xs IH]; intros gs Hgs; cbn; [exact Hgs|].
  apply IH. now apply addToGroup_NoDup.
Qed.

(** The loop visits the groups of the aliases [b], [10], [a] and [2] in
    the order [2], [10], [b], [a]. *)
Example groups_in_key_order :
  map fst (@groupBy specHost sampleHeap
             (VArr [ instruction "user" "pet" "id" "userId" "b";
                     instruction "user" "pet" "id" "userId" "10";
                     instruction "user" "pet" "id" "userId" "a";
                     instruction "user" "pet" "id" "userId" "2";
                     instruction "user" "pet" "id" "userId" "b" ]) "alias")
  = [ "2"; "10"; "b"; "a" ].
Proof. vm_compute. reflexivity. Qed.

(** ** The loop over the groups *)

Definition attaches (group : string * list value) : bool :=
  match snd group with
  | [ _ ] | [ _; _ ] => true
  | _ => false
  end.

Section Loop.
Context {host : Host}.

Lemma eachAssociation_skips cache results group h :
  attaches group = false -> eachAssociation cache results group h = Ok (tt, h).
Proof.
  destruct group as [alias [|i0 [|i1 [|i2 rest]]]]; cbn; try discriminate; reflexivity.
Qed.

Lemma forEach_attaching cache results groups h :
  forEach (eachAssociation cache results) groups h
  = forEach (eachAssociation cache results) (List.filter attaches groups) h.
Proof.
  revert h. induction groups as [|g groups IH]; intros h; cbn; [reflexivity|].
  destruct (attaches g) eqn:E; cbn.
  - unfold bind. destruct (eachAssociation cache results g h) as [[[] h']|e]; [apply IH | reflexivity].
  - unfold bind. rewrite eachAssociation_skips by assumption. apply IH.
Qed.


Lemma join_run cache ji h i0 parent results row0 :
  get h ji (Index 0) = Ok i0 ->
  get h i0 (Name "parent") = Ok parent ->
  get h cache (toPropertyKey h parent) = Ok results ->
  get h results (Index 0) = Ok row0 ->
  isNullish row0 = false ->
  join cache ji h
  = match forEach (eachAssociation cache results) (groupBy h ji "alias") h with
    | Ok (_, h') => Ok (results, h')
    | Err e => Err e
    end.
Proof.
  intros H0 Hp Hr Hrow Hn. unfold join, bind, read, readAt, read, objectKeys, ret.
  rewrite H0, Hp.
  assert (exists pk, get h i0 (Name "parentKey") = Ok pk) as [pk ->].
  { destruct i0 as [| | | | | |l| |]; cbn in Hp |- *; try discriminate; eauto.
    destruct (h !! l) as [[]|]; eauto. }
  rewrite Hr, Hrow. destruct row0; try discriminate Hn; rewrite Hr;
    destruct (forEach _ _ h) as [[[] h']|e]; reflexivity.
Qed.

Lemma join_results cache ji h results h' :
  join cache ji h = Ok (results, h') ->
  exists i0 parent,
    get h ji (Index 0) = Ok i0 /\ get h i0 (Name "parent") = Ok parent
    /\ get h cache (toPropertyKey h parent) = Ok results
    /\ forEach (eachAssociation cache results) (groupBy h ji "alias") h = Ok (tt, h').
Proof.
  unfold join, bind, read, readAt, read, objectKeys, ret.
  destruct (get h ji (Index 0)) as [i0|] eqn:E0; [|discriminate].
  destruct (get h i0 (Name "parent")) as [parent|] eqn:Ep; [|discriminate].
  destruct (get h i0 (Name "parentKey")) as [pk|]; [|discriminate].
  destruct (get h cache (toPropertyKey h parent)) as [table|] eqn:Et; [|discriminate].
  destruct (get h table (Index 0)) as [row0|]; [|discriminate].
  destruct row0; try discriminate; rewrite Et;
    destruct (forEach (eachAssociation cache table) _ h) as [[[] h'']|e] eqn:Ef;
    try discriminate; intros [= <- <-]; eauto 10.
Qed.

(** A call that ends in [cb(null, results)] has passed the validation and
    gone through the loop. *)
Lemma integrate_called_back h cache ji cb results h' :
  integrate h cache ji cb = CalledBack None results h' ->
  exists i0 parent,
    get h ji (Index 0) = Ok i0 /\ get h i0 (Name "parent") = Ok parent
    /\ get h cache (toPropertyKey h parent) = Ok results
    /\ forEach (eachAssociation cache results) (groupBy h ji "alias") h = Ok (tt, h').
Proof.
  unfold integrate.
  destruct (validate cache ji cb h) as [[[inv|] h1]|e] eqn:Ev.
  - unfold callBack. destruct (isFunction cb); discriminate.
  - apply validate_ok in Ev as [-> _].
    destruct (join cache ji h) as [[r h2]|e] eqn:Ej; [|discriminate].
    unfold callBack. destruct (isFunction cb); [|discriminate]. intros [= <- <-].
    now apply join_results.
  - discriminate.
Qed.

End Loop.

(** ** The rows under the joins of the specification *)

Fixpoint hasKey (d : row) (k : string) : bool :=
  match d with
  | [] => false
  | (k', _) :: d' => String.eqb k' k || hasKey d' k
  end.


Lemma row_set_prop_ne d k v a : k <> a -> prop (set_prop d k v) a = prop d a.
Proof.
  intros Hne. induction d as [|[k' v'] d IH]; cbn.
  - now apply String.eqb_neq in Hne as ->.
  - destruct (String.eqb_spec k' k) as [->|Hk]; cbn.
    + now apply String.eqb_neq in Hne as ->.
    + now rewrite IH.
Qed.

Lemma hasKey_set_prop_ne d k v a : k <> a -> hasKey (set_prop d k v) a = hasKey d a.
Proof.
  intros Hne. induction d as [|[k' v'] d IH]; cbn.
  - apply String.eqb_neq in Hne as ->. reflexivity.
  - destruct (String.eqb_spec k' k) as [->|Hk]; cbn; [reflexivity | now rewrite IH].
Qed.


Lemma rows_inline h xs : omap (asRow h) (map VObj xs) = xs.
Proof. induction xs as [|x xs IH]; cbn; [reflexivity | now rewrite IH]. Qed.



(** *** In place *)








(** *** The turn of a group *)

(** The tables and the keys of a direct populate, as the instruction [i0]
    names them in the heap [h]. *)
Inductive directOf (h : heap) (cache i0 : value)
    : list row -> list row -> string -> string -> Prop :=
| direct_of parent child parentKey childKey l r :
    get h i0 (Name "parent") = Ok parent -> get h cache (primitiveKey parent) = Ok l ->
    get h i0 (Name "child") = Ok child -> get h cache (primitiveKey child) = Ok r ->
    get h i0 (Name "parentKey") = Ok parentKey -> get h i0 (Name "childKey") = Ok childKey ->
    directOf h cache i0 (rowsOf h l) (rowsOf h r) (optionKey h parentKey) (optionKey h childKey).

(** The tables and the keys of a populate through a junction, as the
    instructions [i0] and [i1] name them in the heap [h]: the rows of the
    parent table, of the junction table and of the child table, and the key
    columns of the two hops. *)
Inductive junctionOf (h : heap) (cache i0 i1 : value)
    : list row -> list row -> list row -> string -> string -> string -> string -> Prop :=
| junction_of parent0 child0 parentKey0 childKey0 child1 parentKey1 childKey1 l r r1 :
    get h i0 (Name "parent") = Ok parent0 -> get h cache (primitiveKey parent0) = Ok l ->
    get h i0 (Name "child") = Ok child0 -> get h cache (primitiveKey child0) = Ok r ->
    get h i0 (Name "parentKey") = Ok parentKey0 -> get h i0 (Name "childKey") = Ok childKey0 ->
    get h i1 (Name "child") = Ok child1 -> get h cache (primitiveKey child1) = Ok r1 ->
    get h i1 (Name "parentKey") = Ok parentKey1 -> get h i1 (Name "childKey") = Ok childKey1 ->
    junctionOf h cache i0 i1 (rowsOf h l) (rowsOf h r) (rowsOf h r1)
      (optionKey h parentKey0) (optionKey h childKey0)
      (optionKey h parentKey1) (optionKey h childKey1).

(** The rows that the turn of a group hands to [populate] as [childRows] in
    the heap [h], and the name of the parent key: for one instruction the
    inner join of the two tables, for two instructions the inner join of
    the left outer join of the first two tables with the third. *)
Inductive childRowsOf (h : heap) (cache : value) : list value -> string -> list row -> Prop :=
| childRows_direct i0 P C pk ck :
    directOf h cache i0 P C pk ck ->
    childRowsOf h cache [ i0 ] pk (innerJoinRows P C pk ck)
| childRows_junction i0 i1 P J C pk0 ck0 pk1 ck1 :
    junctionOf h cache i0 i1 P J C pk0 ck0 pk1 ck1 ->
    childRowsOf h cache [ i0; i1 ] pk0
      (innerJoinRows (leftOuterJoinRows P J pk0 ck0) C pk1 ck1).

Ltac run_reads :=
  unfold bind, read, readAt, read; cbn;
  repeat match goal with
    | |- context [match get ?h ?v ?k with _ => _ end] =>
        let E := fresh "E" in destruct (get h v k) eqn:E; [|discriminate]
    end.

(** With the joins of the specification, the turn of a group of one or two
    instructions attaches, to each of the results, its group of the child
    rows. *)
Lemma eachAssociation_attaching cache results alias instructions h h' :
  @eachAssociation specHost cache results (alias, instructions) h = Ok (tt, h') ->
  attaches (alias, instructions) = true ->
  exists pk kids,
    childRowsOf h cache instructions pk kids
    /\ h' = fold_left (attach alias pk kids) (arrayElems h results) h.
Proof.
  destruct instructions as [|i0 [|i1 [|i2 rest]]]; try discriminate; cbn; intros H _;
    revert H; run_reads.
  all: intros [= <-]; simplify_eq; rewrite !rows_inline;
    eexists _, _; (split; [do 2 econstructor; eassumption | reflexivity]).
Qed.



(** *** What a turn leaves alone *)

(** Every row holds under the key [a] what it held, and has the key if it
    had it. *)
Definition keepsAlias (a : string) (h h' : heap) : Prop :=
  forall l d, h !! l = Some (ODict d) ->
    exists d', h' !! l = Some (ODict d') /\ prop d' a = prop d a /\ hasKey d' a = hasKey d a.

Lemma keepsAlias_refl a h : keepsAlias a h h.
Proof. intros l d H. eauto. Qed.

Lemma keepsAlias_trans a h1 h2 h3 :
  keepsAlias a h1 h2 -> keepsAlias a h2 h3 -> keepsAlias a h1 h3.
Proof.
  intros H12 H23 l d H. destruct (H12 l d H) as (d2 & H2 & Hp2 & Hk2).
  destruct (H23 l d2 H2) as (d3 & H3 & Hp3 & Hk3). exists d3. repeat split; congruence.
Qed.

Lemma attach_keepsAlias a alias pk kids h parent :
  alias <> a -> keepsAlias a h (attach alias pk kids h parent).
Proof.
  intros Hne. unfold attach. destruct parent as [| | | | | |l0| |]; try apply keepsAlias_refl.
  destruct (h !! l0) as [[d0|xs]|] eqn:E; try apply keepsAlias_refl.
  intros l d H. destruct (decide (l0 = l)) as [->|Hl].
  - rewrite lookup_insert_eq. rewrite E in H. injection H as <-. eexists. split; [reflexivity|].
    split; [now apply row_set_prop_ne | now apply hasKey_set_prop_ne].
  - rewrite lookup_insert_ne by assumption. eauto.
Qed.

Lemma fold_attach_keepsAlias a alias pk kids parents h :
  alias <> a -> keepsAlias a h (fold_left (attach alias pk kids) parents h).
Proof.
  intros Hne. revert h. induction parents as [|p ps IH]; intros h; cbn; [apply keepsAlias_refl|].
  apply (keepsAlias_trans _ _ (attach alias pk kids h p)); [now apply attach_keepsAlias | apply IH].
Qed.

(** The turn of a group leaves alone the alias of every other group, and
    its own when it has neither one nor two instructions. *)
Lemma eachAssociation_keepsAlias a cache results group h h' :
  @eachAssociation specHost cache results group h = Ok (tt, h') ->
  (fst group = a -> attaches group = false) ->
  keepsAlias a h h'.
Proof.
  destruct group as [alias instructions]. intros H Ha.
  destruct (attaches (alias, instructions)) eqn:Ea.
  - destruct (eachAssociation_attaching _ _ _ _ _ _ H Ea) as (pk & kids & _ & ->).
    apply fold_attach_keepsAlias. intros ->. specialize (Ha eq_refl). discriminate.
  - rewrite eachAssociation_skips in H by assumption. injection H as <-. apply keepsAlias_refl.
Qed.

Lemma forEach_keepsAlias a cache results groups h h' :
  forEach (@eachAssociation specHost cache results) groups h = Ok (tt, h') ->
  (forall g, List.In g groups -> fst g = a -> attaches g = false) ->
  keepsAlias a h h'.
Proof.
  revert h. induction groups as [|g groups IH]; intros h; cbn.
  - intros [= <-] _. apply keepsAlias_refl.
  - unfold bind. destruct (eachAssociation cache results g h) as [[[] h1]|e] eqn:E; [|discriminate].
    intros H Ha. eapply keepsAlias_trans.
    + eapply eachAssociation_keepsAlias; [exact E | apply Ha; now left].
    + apply IH; [exact H | intros g' Hg'; apply Ha; now right].
Qed.

(** *** What a turn attaches *)






(** In a call that ends in [cb(null, results)], the alias of a group that
    has neither one nor two instructions is left alone. *)
Lemma skipped_group h cache ji cb results h' alias instructions :
  @integrate specHost h cache ji cb = CalledBack None results h' ->
  List.In (alias, instructions) (@groupBy specHost h ji "alias") ->
  attaches (alias, instructions) = false ->
  keepsAlias alias h h'.
Proof.
  intros Hi Hin Ha.
  destruct (integrate_called_back _ _ _ _ _ _ Hi) as (i0 & parent & _ & _ & _ & Hloop).
  apply (forEach_keepsAlias _ _ _ _ _ _ Hloop).
  intros [a is'] Hg Hfst. cbn in Hfst. subst a.
  assert (is' = instructions) as ->; [|exact Ha].
  pose proof (@groupBy_NoDup specHost h ji "alias") as Hnd.
  apply in_split in Hin as (pre & post & Hsplit). rewrite Hsplit in Hg, Hnd.
  rewrite map_app in Hnd. cbn in Hnd. pose proof (NoDup_remove_2 _ _ _ Hnd) as Hout.
  apply in_app_or in Hg as [Hg|[Hg|Hg]].
  - exfalso. apply Hout, in_or_app. left.
    change alias with (fst (alias, is')). now apply in_map.
  - congruence.
  - exfalso. apply Hout, in_or_app. right.
    change alias with (fst (alias, is')). now apply in_map.
Qed.

(** ** C10: groups of three instructions or more *)

Definition toysOfUser : value := instruction "user" "toy" "id" "userId" "toys".

(** Three instructions for the pets, between them one for the toys, of
    which the cache has no table. *)
Definition petsThrice : value :=
  VArr [ petsOfUser; toysOfUser; petsOfUser; petsOfUser ].

Definition sampleHeapWithToys : heap :=
  <[ 3 := ODict [ ("id", VNum 1); ("name", VStr "ann"); ("toys", VArr []) ] ]>
    (<[ 4 := ODict [ ("id", VNum 2); ("name", VStr "bob"); ("toys", VArr []) ] ]> sampleHeap).

(** A call with an alias of three instructions need not end in the
    callback. With a parent table that has no row it throws, whatever the
    instructions are: [Object.keys(cache[parent][0])] comes before the
    loop. And the turn of another alias can throw: here that of the
    instruction [null], which the validation does not look at. *)
Lemma three_instructions_on_an_empty_table :
  @validate specHost (VRef 1) (VArr [ petsOfUser; petsOfUser; petsOfUser ]) (VFun "cb") emptyHeap
  = Ok (None, emptyHeap)
  /\ @groupBy specHost emptyHeap (VArr [ petsOfUser; petsOfUser; petsOfUser ]) "alias"
     = [ ("pets", [ petsOfUser; petsOfUser; petsOfUser ]) ]
  /\ @integrate specHost emptyHeap (VRef 1) (VArr [ petsOfUser; petsOfUser; petsOfUser ])
       (VFun "cb")
     = Threw TypeError
  /\ @groupBy specHost sampleHeap (VArr [ petsOfUser; petsOfUser; petsOfUser; VNull ]) "alias"
     = [ ("pets", [ petsOfUser; petsOfUser; petsOfUser ]); ("undefined", [ VNull ]) ]
  /\ @integrate specHost sampleHeap (VRef 1)
       (VArr [ petsOfUser; petsOfUser; petsOfUser; VNull ]) (VFun "cb")
     = Threw TypeError.
Proof. repeat split; vm_compute; reflexivity. Qed.

(** C10. A call that passes the validation and finds a first row in the
    parent table is the loop over the groups of one or two instructions
    alone: it ends in [cb(null, results)] when their turns return, and
    throws what a turn throws; with no such group it ends in
    [cb(null, results)] and the heap is as it was. With the joins of the
    specification, a call that ends in [cb(null, results)] leaves alone, in
    every row, the alias of a group of three instructions or more: the row
    holds under it what it held, and has the key only if it had it. *)
Theorem groups_of_three_or_more_attach_nothing :
  (forall (host : Host) h cache ji cb i0 parent results row0,
     validate cache ji cb h = Ok (None, h) ->
     get h ji (Index 0) = Ok i0 ->
     get h i0 (Name "parent") = Ok parent ->
     get h cache (toPropertyKey h parent) = Ok results ->
     get h results (Index 0) = Ok row0 ->
     isNullish row0 = false ->
     integrate h cache ji cb
     = match forEach (eachAssociation cache results)
               (List.filter attaches (groupBy h ji "alias")) h with
       | Ok (_, h') => CalledBack None results h'
       | Err e => Threw e
       end
     /\ (List.Forall (fun g => (3 <= length (snd g))%nat) (groupBy h ji "alias") ->
         integrate h cache ji cb = CalledBack None results h))
  /\ (forall h cache ji cb results h' alias instructions,
        @integrate specHost h cache ji cb = CalledBack None results h' ->
        List.In (alias, instructions) (@groupBy specHost h ji "alias") ->
        (3 <= length instructions)%nat ->
        keepsAlias alias h h').
Proof.
  split.
  - intros host h cache ji cb i0 parent results row0 Hv H0 Hp Hr Hrow Hn.
    assert (Hrun : integrate h cache ji cb
                   = match forEach (eachAssociation cache results)
                             (List.filter attaches (groupBy h ji "alias")) h with
                     | Ok (_, h') => CalledBack None results h'
                     | Err e => Threw e
                     end).
    { unfold integrate. rewrite Hv.
      rewrite (join_run _ _ _ _ _ _ _ H0 Hp Hr Hrow Hn), forEach_attaching.
      apply validate_ok in Hv as [_ Hcb].
      destruct (forEach _ _ h) as [[[] h']|e]; [|reflexivity].
      unfold callBack. now rewrite Hcb. }
    split; [exact Hrun|].
    intros Hall. rewrite Hrun. clear Hrun.
    replace (List.filter attaches (groupBy h ji "alias")) with (@nil (string * list value));
      [reflexivity|].
    symmetry. induction Hall as [|g gs Hg _ IH]; cbn; [reflexivity|].
    destruct g as [alias [|i0' [|i1 [|i2 rest]]]]; cbn in Hg |- *; try lia. exact IH.
  - intros h cache ji cb results h' alias instructions Hi Hin Hlen.
    apply (skipped_group _ _ _ _ _ _ _ _ Hi Hin).
    destruct instructions as [|i0' [|i1 [|i2 rest]]]; cbn in Hlen |- *; try lia; reflexivity.
Qed.

Lemma groups_of_three_witness :
  @integrate specHost sampleHeap (VRef 1) petsThrice (VFun "cb")
  = CalledBack None (VRef 2) sampleHeapWithToys
  /\ @integrate specHost sampleHeap (VRef 1) petsThrice (VFun "cb")
     = match forEach (@eachAssociation specHost (VRef 1) (VRef 2))
               (List.filter attaches (@groupBy specHost sampleHeap petsThrice "alias"))
               sampleHeap with
       | Ok (_, h') => CalledBack None (VRef 2) h'
       | Err e => Threw e
       end
  /\ keepsAlias "pets" sampleHeap sampleHeapWithToys.
Proof.
  assert (Hrun : @integrate specHost sampleHeap (VRef 1) petsThrice (VFun "cb")
                 = CalledBack None (VRef 2) sampleHeapWithToys)
    by (vm_compute; reflexivity).
  split; [exact Hrun | split].
  - refine (proj1 (proj1 groups_of_three_or_more_attach_nothing specHost
                     sampleHeap (VRef 1) petsThrice (VFun "cb") petsOfUser (VStr "user")
                     (VRef 2) (VRef 3) _ _ _ _ _ _)).
    + vm_compute. reflexivity.
    + reflexivity.
    + reflexivity.
    + vm_compute. reflexivity.
    + vm_compute. reflexivity.
    + reflexivity.
  - refine (proj2 groups_of_three_or_more_attach_nothing
              sampleHeap (VRef 1) petsThrice (VFun "cb") (VRef 2) sampleHeapWithToys "pets"
              [ petsOfUser; petsOfUser; petsOfUser ] Hrun _ _).
    + vm_compute. left. reflexivity.
    + cbn. lia.
Defined.

(** ** C9: the results are the array of the cache, mutated in place *)




(** ** C8: a populate through a junction *)







(** The child row [c0] is linked only through junction rows that match no
    parent row: a junction row that is linked to it matches no parent
    row. *)
Definition linkedOnlyThroughUnmatchedJunction (P J : list row) (pk0 ck0 pk1 ck1 : string)
    (c0 : row) : Prop :=
  forall j, List.In j J -> matches j pk1 c0 ck1 = true ->
    forall p, List.In p P -> matches p pk0 j ck0 = false.

(** No parent row is itself linked to the child row [c0]: none holds, in a
    column of its own that has the name of the key of the second hop, the
    key of [c0]. *)
Definition notLinkedDirectly (P : list row) (pk1 ck1 : string) (c0 : row) : Prop :=
  forall p, List.In p P -> matches p pk1 c0 ck1 = false.


(** Users and pets through a junction table; the second junction row names
    a user that is not in the cache. *)
Definition junctionHeap : heap :=
  list_to_map
    [ (1, ODict [ ("user", VRef 2); ("user_pet", VRef 5); ("pet", VRef 8) ]);
      (2, OArray [ VRef 3; VRef 4 ]);
      (3, userRow 1 "ann");
      (4, userRow 2 "bob");
      (5, OArray [ VRef 6; VRef 7 ]);
      (6, ODict [ ("user_id", VNum 1); ("pet_id", VNum 10) ]);
      (7, ODict [ ("user_id", VNum 99); ("pet_id", VNum 11) ]);
      (8, OArray [ VRef 9; VRef 10 ]);
      (9, ODict [ ("id", VNum 10); ("species", VStr "cat") ]);
      (10, ODict [ ("id", VNum 11); ("species", VStr "dog") ]) ].

Definition userToJunction : row :=
  [ ("parent", VStr "user"); ("child", VStr "user_pet"); ("parentKey", VStr "id");
    ("childKey", VStr "user_id"); ("alias", VStr "pets") ].
Definition junctionToPet : row :=
  [ ("parent", VStr "user_pet"); ("child", VStr "pet"); ("parentKey", VStr "pet_id");
    ("childKey", VStr "id"); ("alias", VStr "pets") ].

Definition petsThroughJunction : value := VArr [ VObj userToJunction; VObj junctionToPet ].

Definition dog : row := [ ("id", VNum 11); ("species", VStr "dog") ].

Definition junctionHeapAfter : heap :=
  <[ 3 := ODict [ ("id", VNum 1); ("name", VStr "ann");
                  ("pets", VArr [ VObj [ ("id", VNum 1); ("name", VStr "ann");
                                         ("user_id", VNum 1); ("pet_id", VNum 10);
                                         ("id", VNum 10); ("species", VStr "cat") ] ]) ] ]>
    (<[ 4 := ODict [ ("id", VNum 2); ("name", VStr "bob"); ("pets", VArr []) ] ]>
       junctionHeap).

(** The cat of ann is attached; the dog, which only the junction row of the
    unknown user links, is attached to nobody. *)
Example integrate_through_junction :
  @integrate specHost junctionHeap (VRef 1) petsThroughJunction (VFun "cb")
  = CalledBack None (VRef 2) junctionHeapAfter.
Proof. vm_compute. reflexivity. Qed.

(** The dog of the sample is such a child row. *)
Example dog_is_linked_only_through_unmatched_junction :
  notLinkedDirectly (rowsOf junctionHeap (VRef 2)) "pet_id" "id" dog
  /\ linkedOnlyThroughUnmatchedJunction (rowsOf junctionHeap (VRef 2))
       (rowsOf junctionHeap (VRef 5)) "id" "user_id" "pet_id" "id" dog.
Proof.
  split.
  - intros p Hp. vm_compute in Hp. destruct Hp as [<-|[<-|[]]]; reflexivity.
  - intros j Hj. vm_compute in Hj. destruct Hj as [<-|[<-|[]]]; intros Hm p Hp;
      vm_compute in Hm; try discriminate;
      vm_compute in Hp; destruct Hp as [<-|[<-|[]]]; reflexivity.
Qed.






End IntegratorFacts.

(* ===================================================================== *)
(** * Part V: further properties of forgeStageTwoQuery                    *)
(* ===================================================================== *)

Module ForgeLaws.
Import Forge ForgeFacts.

(** ** The blocks of the function *)

Section Blocks.
Context {deps : Dependencies}.

(** The blocks that follow the checks of the essentials, in the order of
    the source, each under the test of its query key. *)
Definition blocks (usingId : value) (WLModel : ModelDef) (method : string)
    (ensureTypeSafety : bool) (queryKeys : list string) : list (M unit) :=
  [ when (contains_str queryKeys "criteria") (forgeCriteria usingId method ensureTypeSafety);
    when (contains_str queryKeys "populates") (forgePopulates usingId ensureTypeSafety);
    when (contains_str queryKeys "numericAttrName") (forgeNumericAttrName usingId);
    when (contains_str queryKeys "eachRecordFn" || contains_str queryKeys "eachBatchFn")
      forgeStreamIteratee;
    when (contains_str queryKeys "newRecord") (forgeNewRecord usingId ensureTypeSafety);
    when (contains_str queryKeys "newRecords") (forgeNewRecords usingId ensureTypeSafety);
    when (contains_str queryKeys "valuesToSet") (forgeValuesToSet usingId ensureTypeSafety);
    when (contains_str queryKeys "targetRecordIds") (forgeTargetRecordIds usingId WLModel);
    when (contains_str queryKeys "collectionAttrName") (forgeCollectionAttrName usingId);
    when (contains_str queryKeys "associatedIds") (forgeAssociatedIds usingId) ].

Lemma forgeQueryKeys_blocks u W m ets ks :
  forgeQueryKeys u W m ets ks = forEach (fun block => block) (blocks u W m ets ks).
Proof. reflexivity. Qed.

End Blocks.

(** The state in which the blocks start. *)
Definition afterEssentials (q : dict) (u : string) : state :=
  {| query := q; trace := [ CallGetModel (VStr u) ] |}.

Ltac untouched :=
  right; do 2 eexists;
  split; [ reflexivity
         | split; [ eauto
                  | unfold on_codes; split; [ intros ? ? | intros ? ];
                    try destruct (contains_str _ _); congruence ] ].

(** Either the query passes the checks of the essentials, or forging throws
    with the query as it was, after at most the call of [getModel]. *)
Lemma essentials_or_untouched {deps : Dependencies} q :
  (exists u m WLModel ks, passesEssentials q u m WLModel ks)
  \/ (exists e t, forge q = (Err e, {| query := q; trace := t |})
                  /\ (t = [] \/ t = [ CallGetModel (prop q "using") ])
                  /\ (forall c, e = UsageError c -> c = E_INVALID_META)
                  /\ e <> TypeError).
Proof.
  unfold forge, forgeStageTwoQuery, checkMeta, checkUsing, lookupModel, checkMethod,
    getQueryKeys, checkKeys.
  mrun.
  destruct (prop q "meta") eqn:Emeta; cbn; try solve [untouched].
  all: destruct (prop q "using") as [| | | |u| | |] eqn:Eu; cbn; try solve [untouched].
  all: destruct (String.eqb u "") eqn:Ene; cbn; try solve [untouched].
  all: destruct (getModel (VStr u)) as [W|e] eqn:Emod; cbn; try solve [untouched].
  all: destruct (prop q "method") as [| | | |m| | |] eqn:Emeth; cbn; try solve [untouched].
  all: destruct (String.eqb m "") eqn:Emne; cbn; try solve [untouched].
  all: destruct (_getQueryKeys m) as [ks|] eqn:Eks; cbn; try solve [untouched].
  all: destruct (difference (keys q) _) as [|x xs] eqn:Ed; cbn;
    try solve [untouched].
  all: left; exists u, m, W, ks; split; try assumption; rewrite Emeta; reflexivity.
Qed.


(** ** The keys that forging leaves alone *)

(** The query key [k] holds in [s'] what it held in [s]. *)
Definition keepsKey (k : string) (s s' : state) : Prop :=
  prop (query s') k = prop (query s) k.

#[export] Instance keepsKey_preorder k : PreOrder (keepsKey k).
Proof.
  split; [intros s; reflexivity | intros s1 s2 s3 H1 H2; unfold keepsKey in *; congruence].
Qed.

Lemma keepsKey_emit k ev : preserves (keepsKey k) (emit ev).
Proof. intros s r s' [= _ <-]. reflexivity. Qed.

Lemma keepsKey_writeKey k k' v : k' <> k -> preserves (keepsKey k) (writeKey k' v).
Proof.
  intros Hne s r s'. unfold writeKey. mrun. intros [= _ <-].
  unfold keepsKey. cbn. now apply prop_set_prop_ne.
Qed.

#[export] Hint Resolve keepsKey_emit : preserves.
#[export] Hint Extern 1 (preserves (keepsKey _) (writeKey _ _)) =>
  apply keepsKey_writeKey; first [ assumption | congruence ] : preserves.

(** The keys that some block assigns to. *)
Definition assignedKeys : list string :=
  [ "criteria"; "populates"; "newRecord"; "newRecords"; "valuesToSet";
    "targetRecordIds"; "associatedIds" ].

(** Forging may rewrite the key [k] of the query [q]: [k] is one of the
    keys that a block assigns to, and the method of [q] accepts it. *)
Definition mayRewrite (q : dict) (k : string) : bool :=
  contains_str assignedKeys k
  && match prop q "method" with
     | VStr m => match _getQueryKeys m with
                 | Some ks => contains_str ks k
                 | None => false
                 end
     | _ => false
     end.

Lemma contains_str_In l s : contains_str l s = true <-> List.In s l.
Proof.
  unfold contains_str. rewrite existsb_exists. split.
  - intros (x & Hx & E). apply String.eqb_eq in E. now subst.
  - intros H. exists s. split; [assumption | apply String.eqb_refl].
Qed.

(** *** The own keys of a dictionary *)

Lemma keys_In d k : List.In k (keys d) <-> List.In k (map fst d).
Proof.
  induction d as [|[k' v] d IH]; [reflexivity|]. unfold keys; fold keys. cbn [map fst List.In].
  rewrite List.filter_In, IH, negb_true_iff, String.eqb_neq.
  destruct (String.eqb_spec k' k); intuition.
Qed.

Lemma In_keys_set_prop d k v x :
  List.In x (keys (set_prop d k v)) <-> x = k \/ List.In x (keys d).
Proof.
  rewrite !keys_In. induction d as [|[k' v'] d IH]; cbn.
  - intuition.
  - destruct (String.eqb_spec k' k) as [->|Hne]; cbn; [intuition|]. rewrite IH. intuition.
Qed.

Lemma In_keys_delete_prop d k x :
  List.In x (keys (delete_prop d k)) <-> x <> k /\ List.In x (keys d).
Proof.
  rewrite !keys_In. induction d as [|[k' v'] d IH]; cbn.
  - intuition.
  - destruct (String.eqb_spec k' k) as [->|Hne]; cbn; rewrite IH; intuition; congruence.
Qed.

(** A key that holds a value that is not [undefined] is an own key. *)
Lemma defined_is_key d k : prop d k <> VUndefined -> List.In k (keys d).
Proof.
  rewrite keys_In. induction d as [|[k' v] d IH]; cbn; [congruence|].
  destruct (String.eqb_spec k' k) as [->|Hne]; auto.
Qed.

(** [k] is an own key of [v]: [_.has(v, k)]. *)
Definition hasOwn (v : value) (k : string) : bool :=
  match v with
  | VObj d => contains_str (keys d) k
  | _ => false
  end.

Lemma bool_iff (a b : bool) : (a = true <-> b = true) -> a = b.
Proof. destruct a, b; intuition. Qed.

Lemma hasOwn_set_field_eq d k v : hasOwn (set_field (VObj d) k v) k = true.
Proof. cbn. apply contains_str_In, In_keys_set_prop. now left. Qed.

Lemma hasOwn_set_field_ne p k v x :
  x <> k -> hasOwn (set_field p k v) x = hasOwn p x.
Proof.
  intros Hne. destruct p as [| | | | | | |d]; try reflexivity.
  cbn. apply bool_iff. rewrite !contains_str_In, In_keys_set_prop. intuition.
Qed.

Lemma hasOwn_delete_field_eq d k : hasOwn (delete_field (VObj d) k) k = false.
Proof.
  cbn. apply not_true_is_false. rewrite contains_str_In, In_keys_delete_prop. intuition.
Qed.

Lemma hasOwn_delete_field_ne p k x :
  x <> k -> hasOwn (delete_field p k) x = hasOwn p x.
Proof.
  intros Hne. destruct p as [| | | | | | |d]; try reflexivity.
  cbn. apply bool_iff. rewrite !contains_str_In, In_keys_delete_prop. intuition.
Qed.

(** A method that accepts [populates] accepts [criteria]. *)
Lemma populates_with_criteria m ks :
  _getQueryKeys m = Some ks ->
  contains_str ks "populates" = true -> contains_str ks "criteria" = true.
Proof.
  intros Hks. apply switch_Some_In in Hks. unfold methodTable in Hks. cbn [List.In] in Hks.
  repeat destruct Hks as [Hks|Hks]; try contradiction; injection Hks as <- <-;
    vm_compute; congruence.
Qed.

Ltac unfold_blocks :=
  unfold forgeCriteria, forgePopulates, forgePopulate, forgeSingularPopulate,
    forgePluralPopulate, readPopulate, writePopulate, deletePopulate,
    checkNotOmitted, includeInSelect, checkNotSorted, lookupAssociation,
    forgeNumericAttrName, forgeStreamIteratee, forgeNewRecord, forgeNewRecords,
    forgeValuesToSet, forgeValueToSet, forgeTargetRecordIds, forgeCollectionAttrName,
    forgeAssociatedIds.

Section KeepsKey.
Context {deps : Dependencies}.
Variables (u : value) (W : ModelDef) (m : string) (ets : bool).

Lemma keepsKey_forgeCriteria k :
  k <> "criteria" -> preserves (keepsKey k) (forgeCriteria u m ets).
Proof. intros H. unfold_blocks. preserves_auto. Qed.

Lemma keepsKey_forgePopulate k x :
  k <> "criteria" -> k <> "populates" -> preserves (keepsKey k) (forgePopulate u ets x).
Proof. intros H1 H2. unfold_blocks. preserves_auto. Qed.

Lemma keepsKey_forgePopulates k :
  k <> "criteria" -> k <> "populates" -> preserves (keepsKey k) (forgePopulates u ets).
Proof.
  intros H1 H2. unfold forgePopulates. preserves_auto.
  all: now apply keepsKey_forgePopulate.
Qed.

Lemma keepsKey_forgeNumericAttrName k : preserves (keepsKey k) (forgeNumericAttrName u).
Proof. unfold_blocks. preserves_auto. Qed.

Lemma keepsKey_forgeStreamIteratee k : preserves (keepsKey k) forgeStreamIteratee.
Proof. unfold_blocks. preserves_auto. Qed.

Lemma keepsKey_forgeNewRecord k :
  k <> "newRecord" -> preserves (keepsKey k) (forgeNewRecord u ets).
Proof. intros H. unfold_blocks. preserves_auto. Qed.

Lemma keepsKey_forgeNewRecords k :
  k <> "newRecords" -> preserves (keepsKey k) (forgeNewRecords u ets).
Proof. intros H. unfold_blocks. preserves_auto. Qed.

Lemma keepsKey_forgeValuesToSet k :
  k <> "valuesToSet" -> preserves (keepsKey k) (forgeValuesToSet u ets).
Proof. intros H. unfold_blocks. preserves_auto. Qed.

Lemma keepsKey_forgeTargetRecordIds k :
  k <> "targetRecordIds" -> preserves (keepsKey k) (forgeTargetRecordIds u W).
Proof. intros H. unfold_blocks. preserves_auto. Qed.

Lemma keepsKey_forgeCollectionAttrName k : preserves (keepsKey k) (forgeCollectionAttrName u).
Proof. unfold_blocks. preserves_auto. Qed.

Lemma keepsKey_forgeAssociatedIds k :
  k <> "associatedIds" -> preserves (keepsKey k) (forgeAssociatedIds u).
Proof. intros H. unfold_blocks. preserves_auto. Qed.

End KeepsKey.


(** A block under its test keeps the key [k], given that the block does
    when the test holds. *)
Ltac keeps_block side :=
  unfold when;
  match goal with
  | |- preserves _ (if ?c then _ else _) =>
      let G := fresh "G" in
      destruct c eqn:G;
      [ first [ apply keepsKey_forgeCriteria | apply keepsKey_forgePopulates
              | apply keepsKey_forgeNumericAttrName | apply keepsKey_forgeStreamIteratee
              | apply keepsKey_forgeNewRecords | apply keepsKey_forgeNewRecord
              | apply keepsKey_forgeValuesToSet | apply keepsKey_forgeTargetRecordIds
              | apply keepsKey_forgeCollectionAttrName | apply keepsKey_forgeAssociatedIds ];
        side G
      | apply preserves_ret; exact _ ]
  end.

Lemma keepsKey_forgeQueryKeys {deps : Dependencies} u W m ets ks k :
  _getQueryKeys m = Some ks ->
  contains_str assignedKeys k && contains_str ks k = false ->
  preserves (keepsKey k) (forgeQueryKeys u W m ets ks).
Proof.
  intros Hks Hk.
  assert (Hc : contains_str ks "populates" = true -> k <> "criteria").
  { intros Hp ->. rewrite (populates_with_criteria _ _ Hks Hp) in Hk. discriminate Hk. }
  unfold forgeQueryKeys.
  repeat (apply preserves_bind; [ exact _ | | intros _ ]); try (apply preserves_ret; exact _).
  all: keeps_block ltac:(fun G =>
         try (intros ->; rewrite G in Hk; discriminate Hk);
         try (apply Hc; first [ exact G | reflexivity ])).
Qed.

(** X1. Forging assigns to a key of the query only if the key is one of
    [criteria], [populates], [newRecord], [newRecords], [valuesToSet],
    [targetRecordIds] and [associatedIds] and the method accepts it: every
    other key holds what it held, whether forging returns or throws. *)
Theorem forging_rewrites_only_the_keys_of_the_method {deps : Dependencies} q k :
  mayRewrite q k = false ->
  prop (query (snd (forge q))) k = prop q k.
Proof.
  intros Hk. destruct (essentials_or_untouched q) as [(u & m & W & ks & He)|(e & t & -> & _)];
    [|reflexivity].
  rewrite (forge_essentials _ _ _ _ _ He).
  unfold mayRewrite in Hk. rewrite (pe_method _ _ _ _ _ He), (pe_keys _ _ _ _ _ He) in Hk.
  destruct (forgeQueryKeys _ _ _ _ _ _) as [r s'] eqn:E.
  apply (keepsKey_forgeQueryKeys _ _ _ _ _ k (pe_keys _ _ _ _ _ He) Hk) in E. exact E.
Qed.


(** ** What a computation throws *)

(** From a state that satisfies [I], the computation [m] returns in a state
    that satisfies [I], or throws an error that satisfies [P]. *)
Definition safe {A} (I : state -> Prop) (P : error -> Prop) (m : M A) : Prop :=
  forall s, I s -> match m s with
                   | (Ok _, s') => I s'
                   | (Err e, _) => P e
                   end.

Section Safe.
Context (I : state -> Prop) (P : error -> Prop).

Lemma safe_ret {A} (a : A) : safe I P (ret a).
Proof. intros s Hs. exact Hs. Qed.

Lemma safe_throw {A} (e : error) : P e -> safe I P (@throw A e).
Proof. intros He s Hs. exact He. Qed.

Lemma safe_getQuery : safe I P getQuery.
Proof. intros s Hs. exact Hs. Qed.

Lemma safe_bind {A B} (m : M A) (f : A -> M B) :
  safe I P m -> (forall a, safe I P (f a)) -> safe I P (bind m f).
Proof.
  intros Hm Hf s Hs. unfold bind. specialize (Hm s Hs).
  destruct (m s) as [[a|e] s1]; [apply Hf, Hm | exact Hm].
Qed.

Lemma safe_forEach {A} (f : A -> M unit) (xs : list A) :
  (forall x, safe I P (f x)) -> safe I P (forEach f xs).
Proof.
  intros Hf. induction xs as [|x xs IH]; simpl.
  - apply safe_ret.
  - apply safe_bind; [apply Hf | intros _; apply IH].
Qed.

Lemma safe_mapM {A B} (f : A -> M B) (xs : list A) :
  (forall x, safe I P (f x)) -> safe I P (mapM f xs).
Proof.
  intros Hf. induction xs as [|x xs IH]; simpl.
  - apply safe_ret.
  - apply safe_bind; [apply Hf | intros y].
    apply safe_bind; [apply IH | intros ys; apply safe_ret].
Qed.

Lemma safe_emit ev : (forall s, I s -> I (emitted s ev)) -> safe I P (emit ev).
Proof. intros H s Hs. apply H, Hs. Qed.

Lemma safe_writeKey k v :
  (forall s, I s -> I {| query := set_prop (query s) k v; trace := trace s |}) ->
  safe I P (writeKey k v).
Proof. intros H s Hs. apply H, Hs. Qed.

Lemma safe_tryCall {A} ev (r : result exn A) handler :
  (forall s, I s -> I (emitted s ev)) ->
  (forall e, r = Err e -> P (handler e)) ->
  safe I P (tryCall ev r handler).
Proof.
  intros Hi Hr s Hs. unfold tryCall. mrun.
  destruct r as [a|e]; cbn; [apply Hi, Hs | now apply Hr].
Qed.

End Safe.

Lemma safe_mono {A} (I : state -> Prop) (P P' : error -> Prop) (m : M A) :
  (forall e, P e -> P' e) -> safe I P m -> safe I P' m.
Proof.
  intros H Hm s Hs. specialize (Hm s Hs). destruct (m s) as [[a|e] s']; auto.
Qed.

(** Decompose a goal [safe I P m] along the structure of [m]. *)
Ltac safe_step :=
  match goal with
  | |- safe _ _ (bind _ _) => apply safe_bind; [ | intros ? ]
  | |- safe _ _ (ret _) => apply safe_ret
  | |- safe _ _ getQuery => apply safe_getQuery
  | |- safe _ _ (throw _) => apply safe_throw
  | |- safe _ _ (forEach _ _) => apply safe_forEach; intros ?
  | |- safe _ _ (mapM _ _) => apply safe_mapM; intros ?
  | |- safe _ _ (emit _) => apply safe_emit
  | |- safe _ _ (writeKey _ _) => apply safe_writeKey
  | |- safe _ _ (tryCall _ _ _) => apply safe_tryCall
  | |- safe _ _ (call _ _) => unfold call; apply safe_tryCall
  | |- safe _ _ (if ?c then _ else _) => destruct c
  | |- safe _ _ (match ?c with _ => _ end) => destruct c
  | |- safe _ _ (when _ _) => unfold when
  | |- safe _ _ (readKey _) => unfold readKey
  | |- safe _ _ (member _ _) => unfold member
  | |- safe _ _ (first_elem _) => unfold first_elem
  end.

(** ** The typed errors of a method *)

(** The query keys that a code of [buildUsageError] speaks of. *)
Definition errorKeys (c : usage_code) : list string :=
  match c with
  | E_INVALID_META => [ "meta" ]
  | E_INVALID_CRITERIA => [ "criteria" ]
  | E_INVALID_POPULATES => [ "populates" ]
  | E_INVALID_NUMERIC_ATTR_NAME => [ "numericAttrName" ]
  | E_INVALID_STREAM_ITERATEE => [ "eachRecordFn"; "eachBatchFn" ]
  | E_INVALID_NEW_RECORD => [ "newRecord" ]
  | E_INVALID_NEW_RECORDS => [ "newRecords" ]
  | E_INVALID_VALUES_TO_SET => [ "valuesToSet" ]
  | E_INVALID_TARGET_RECORD_IDS => [ "targetRecordIds" ]
  | E_INVALID_COLLECTION_ATTR_NAME => [ "collectionAttrName" ]
  | E_INVALID_ASSOCIATED_IDS => [ "associatedIds" ]
  end.

(** The error, if it is a typed usage error, speaks of one of the keys [ks]. *)
Definition speaksOf (ks : list string) (e : error) : Prop :=
  match e with
  | UsageError c => existsb (contains_str ks) (errorKeys c) = true
  | _ => True
  end.

Ltac speaks :=
  unfold criteriaHandler, subcriteriaHandler, on_codes;
  repeat match goal with
  | |- context [contains_str _ (code ?e)] => destruct (contains_str _ (code e))
  end;
  cbn [speaksOf errorKeys existsb];
  try exact Logic.I;
  rewrite ?orb_false_r; try assumption;
  repeat match goal with G : _ = true |- _ => rewrite G end;
  rewrite ?orb_true_r; try reflexivity.

Lemma forgeQueryKeys_speaksOf {deps : Dependencies} u W m ets ks :
  safe (fun _ => True) (speaksOf ks) (forgeQueryKeys u W m ets ks).
Proof.
  unfold forgeQueryKeys.
  repeat (apply safe_bind; [ | intros _ ]); try apply safe_ret.
  all: unfold when;
    match goal with |- safe _ _ (if ?c then _ else _) =>
      let G := fresh "G" in destruct c eqn:G; [ | apply safe_ret ] end.
  all: unfold_blocks.
  all: repeat first [ safe_step | solve [ auto ] | solve [ intros; speaks ] ].
Qed.


(** X2. A typed usage error that forging throws is [E_INVALID_META] or speaks
    of a query key that the method accepts: with the method [create], say,
    the only typed errors are [E_INVALID_META] and [E_INVALID_NEW_RECORD]. *)
Theorem typed_errors_speak_of_the_keys_of_the_method {deps : Dependencies} q c s :
  forge q = (Err (UsageError c), s) ->
  c = E_INVALID_META
  \/ exists m ks, prop q "method" = VStr m /\ _getQueryKeys m = Some ks
                  /\ existsb (contains_str ks) (errorKeys c) = true.
Proof.
  intros Hf.
  destruct (essentials_or_untouched q) as [(u & m & W & ks & He)|(e & t & E & _ & Hc & _)].
  - right. exists m, ks.
    split; [apply (pe_method _ _ _ _ _ He) | split; [apply (pe_keys _ _ _ _ _ He)|]].
    rewrite (forge_essentials _ _ _ _ _ He) in Hf.
    pose proof (forgeQueryKeys_speaksOf (VStr u) W m (ensureTypeSafetyOf (prop q "meta")) ks
                  (afterEssentials q u) Logic.I) as H.
    unfold afterEssentials in H. rewrite Hf in H. exact H.
  - left. rewrite E in Hf. injection Hf as -> _. now apply Hc.
Qed.


(** ** When forging returns *)

Lemma forEach_returns {A} (f : A -> M unit) (pre : list A) x post s0 sf :
  forEach f (pre ++ x :: post) s0 = (Ok tt, sf) ->
  exists s1 s2, forEach f pre s0 = (Ok tt, s1) /\ f x s1 = (Ok tt, s2)
                /\ forEach f post s2 = (Ok tt, sf).
Proof.
  rewrite forEach_app. destruct (forEach f pre s0) as [[[]|e] s1]; [|discriminate].
  cbn [forEach]. unfold bind at 1. destruct (f x s1) as [[[]|e] s2] eqn:E; [|discriminate].
  intros H. eauto.
Qed.

(** When forging returns, the query passes the checks of the essentials and
    every block returns: the blocks before it have led from the query as it
    was to its start, the blocks after it lead from its end to the result. *)
Lemma forge_returns {deps : Dependencies} q sf :
  forge q = (Ok tt, sf) ->
  exists u m W ks,
    passesEssentials q u m W ks
    /\ forall pre block post,
         blocks (VStr u) W m (ensureTypeSafetyOf (prop q "meta")) ks = pre ++ block :: post ->
         exists s1 s2,
           forEach (fun b => b) pre (afterEssentials q u) = (Ok tt, s1)
           /\ block s1 = (Ok tt, s2)
           /\ forEach (fun b => b) post s2 = (Ok tt, sf).
Proof.
  intros Hf.
  destruct (essentials_or_untouched q) as [(u & m & W & ks & He)|(e & t & E & _)];
    [|rewrite E in Hf; discriminate].
  exists u, m, W, ks. split; [assumption|].
  intros pre block post Hb.
  rewrite (forge_essentials _ _ _ _ _ He), forgeQueryKeys_blocks, Hb in Hf.
  exact (forEach_returns (fun b => b) pre block post _ _ Hf).
Qed.

(** The key [k] holds the same after the blocks that [H] runs. *)
Ltac kept H :=
  match type of H with
  | forEach _ _ ?s = (_, ?s') =>
      match goal with
      | |- prop (query _) ?k = prop _ ?k => change (keepsKey k s s')
      | |- keepsKey _ _ _ => idtac
      end;
      eapply preserves_forEach; [ exact _ | | exact H ];
      let b := fresh "b" in let Hb := fresh "Hb" in
      intros b Hb; cbn [List.In] in Hb;
      repeat destruct Hb as [<-|Hb]; try contradiction;
      keeps_block ltac:(fun G => first [ discriminate | congruence ])
  end.

(** Evaluate the tests of the query keys. *)
Ltac tests H :=
  unfold when in H;
  cbv [contains_str existsb String.eqb Ascii.eqb Bool.eqb orb] in H.

Lemma is_str_eq s v : is_str s v = true -> v = VStr s.
Proof.
  destruct v; try discriminate. cbn. intros H. apply String.eqb_eq in H. now subst.
Qed.

Lemma isFunction_inv v : isFunction v = true -> exists name, v = VFun name.
Proof. destruct v; try discriminate. eauto. Qed.

(** The decomposition of the blocks at the block of index [n]. *)
Ltac at_block H n :=
  match type of H with
  | forall pre block post, blocks ?u ?W ?m ?ets ?ks = _ -> _ =>
      let s1 := fresh "s1" in let s2 := fresh "s2" in
      let Hpre := fresh "Hpre" in let Hblock := fresh "Hblock" in let Hpost := fresh "Hpost" in
      destruct (H (firstn n (blocks u W m ets ks))
                  (nth n (blocks u W m ets ks) (ret tt))
                  (skipn (S n) (blocks u W m ets ks)) eq_refl)
        as (s1 & s2 & Hpre & Hblock & Hpost);
      cbn [firstn skipn nth blocks] in Hpre, Hblock, Hpost
  end.

(** X3. A [stream] query is forged only if exactly one of [eachRecordFn] and
    [eachBatchFn] is given, and that one is a function. *)
Theorem stream_takes_exactly_one_iteratee {deps : Dependencies} q sf :
  forge q = (Ok tt, sf) ->
  prop q "method" = VStr "stream" ->
  (isFunction (prop q "eachRecordFn") && isUndefined (prop q "eachBatchFn"))
  || (isUndefined (prop q "eachRecordFn") && isFunction (prop q "eachBatchFn")) = true.
Proof.
  intros Hf Hm. destruct (forge_returns _ _ Hf) as (u & m & W & ks & He & Hb).
  pose proof (pe_method _ _ _ _ _ He) as Hm'. rewrite Hm in Hm'. injection Hm' as <-.
  pose proof (pe_keys _ _ _ _ _ He) as Hks. vm_compute in Hks. injection Hks as <-.
  at_block Hb 3%nat.
  assert (Hr : prop (query s1) "eachRecordFn" = prop q "eachRecordFn") by kept Hpre.
  assert (Hbf : prop (query s1) "eachBatchFn" = prop q "eachBatchFn") by kept Hpre.
  tests Hblock. unfold forgeStreamIteratee in Hblock. revert Hblock. mrun.
  rewrite Hr, Hbf.
  destruct (prop q "eachRecordFn"), (prop q "eachBatchFn"); cbn; try discriminate; reflexivity.
Qed.


(** X4. A [sum] or an [avg] query is forged only if its [numericAttrName] is a
    string that names an attribute of the model whose type is ['number']. *)
Theorem sum_and_avg_take_a_numeric_attribute {deps : Dependencies} q sf m :
  forge q = (Ok tt, sf) ->
  prop q "method" = VStr m ->
  m = "sum" \/ m = "avg" ->
  exists n def,
    prop q "numericAttrName" = VStr n
    /\ getAttribute (VStr n) (prop q "using") = Ok def
    /\ attr_type def = VStr "number".
Proof.
  intros Hf Hm Hsa. destruct (forge_returns _ _ Hf) as (u & m' & W & ks & He & Hb).
  pose proof (pe_method _ _ _ _ _ He) as Hm'. rewrite Hm in Hm'. injection Hm' as <-.
  pose proof (pe_keys _ _ _ _ _ He) as Hks. rewrite (pe_using _ _ _ _ _ He).
  at_block Hb 2%nat.
  assert (Hn : prop (query s1) "numericAttrName" = prop q "numericAttrName") by kept Hpre.
  assert (Hblock' : forgeNumericAttrName (VStr u) s1 = (Ok tt, s2)).
  { destruct Hsa as [-> | ->]; vm_compute in Hks; injection Hks as <-; tests Hblock;
      exact Hblock. }
  clear Hblock. revert Hblock'. unfold forgeNumericAttrName. mrun. rewrite Hn.
  destruct (prop q "numericAttrName") as [| | | |n| | |]; cbn; try discriminate.
  destruct (getAttribute (VStr n) (VStr u)) as [def|e] eqn:Eg; cbn; [|discriminate].
  destruct (is_str "number" (attr_type def)) eqn:Et; cbn; [|discriminate].
  intros _. exists n, def. repeat split; [assumption | now apply is_str_eq].
Qed.

Lemma bind_returns {A B} (m : M A) (f : A -> M B) s b sf :
  bind m f s = (Ok b, sf) -> exists a s1, m s = (Ok a, s1) /\ f a s1 = (Ok b, sf).
Proof.
  unfold bind. destruct (m s) as [[a|e] s1]; [eauto | discriminate].
Qed.

Lemma tryCall_returns {A} ev (r : result exn A) handler s a sf :
  tryCall ev r handler s = (Ok a, sf) -> r = Ok a /\ sf = emitted s ev.
Proof.
  unfold tryCall. mrun. destruct r; cbn; [|discriminate]. intros [= -> <-]. split; reflexivity.
Qed.

(** X5. The collection methods ([addToCollection], [removeFromCollection],
    [replaceCollection]) are forged only if [collectionAttrName] names a
    plural association of the model; the target ids are then normalized
    against the type of the primary key of the model, the associated ids
    against the type of the primary key of the associated model, and
    nothing else of the query is changed. *)
Theorem collection_ids_are_normalized_against_their_primary_keys {deps : Dependencies}
    q sf m :
  forge q = (Ok tt, sf) ->
  prop q "method" = VStr m ->
  List.In m [ "addToCollection"; "removeFromCollection"; "replaceCollection" ] ->
  exists WLModel pkAttrDef name associationDef AssociatedModel associatedPkDef ids ids',
    getModel (prop q "using") = Ok WLModel
    /\ getAttribute (primaryKey WLModel) (prop q "using") = Ok pkAttrDef
    /\ normalizePkValues (prop q "targetRecordIds") (attr_type pkAttrDef) = Ok ids
    /\ prop q "collectionAttrName" = VStr name
    /\ getAttribute (VStr name) (prop q "using") = Ok associationDef
    /\ truthy (attr_collection associationDef) = true
    /\ getModel (attr_collection associationDef) = Ok AssociatedModel
    /\ getAttribute (primaryKey AssociatedModel) (attr_collection associationDef)
       = Ok associatedPkDef
    /\ normalizePkValues (prop q "associatedIds") (attr_type associatedPkDef) = Ok ids'
    /\ query sf = set_prop (set_prop q "targetRecordIds" ids) "associatedIds" ids'.
Proof.
  intros Hf Hm Hin.
  destruct (essentials_or_untouched q) as [(u & m' & W & ks & He)|(e & t & E & _)];
    [|rewrite E in Hf; discriminate].
  pose proof (pe_method _ _ _ _ _ He) as Hm'. rewrite Hm in Hm'. injection Hm' as <-.
  pose proof (pe_keys _ _ _ _ _ He) as Hks. rewrite (pe_using _ _ _ _ _ He).
  rewrite (forge_essentials _ _ _ _ _ He) in Hf. unfold forgeQueryKeys in Hf.
  assert (Hf' : bind (forgeTargetRecordIds (VStr u) W)
                  (fun _ => bind (forgeCollectionAttrName (VStr u))
                              (fun _ => forgeAssociatedIds (VStr u)))
                  (afterEssentials q u) = (Ok tt, sf)).
  { cbn [List.In] in Hin. repeat destruct Hin as [<-|Hin]; try contradiction;
      vm_compute in Hks; injection Hks as <-; tests Hf; revert Hf;
      unfold bind, ret, afterEssentials;
      repeat match goal with
             | |- context [match ?x with _ => _ end] => destruct x as [[[]|?] ?]
             end; auto. }
  clear Hf Hks Hin. 
  apply bind_returns in Hf' as ([] & s1 & H1 & Hf').
  apply bind_returns in Hf' as ([] & s2 & H2 & H3).
  unfold forgeTargetRecordIds in H1.
  apply bind_returns in H1 as (pk & s01 & Hpk & H1). apply tryCall_returns in Hpk as [Hpk ->].
  apply bind_returns in H1 as (t0 & s02 & Ht & H1). revert Ht. mrun. intros [= <- <-].
  apply bind_returns in H1 as (ids & s03 & Hids & H1). apply tryCall_returns in Hids as [Hids ->].
  revert H1. mrun. intros [= <-].
  unfold forgeCollectionAttrName in H2. revert H2. mrun.
  rewrite prop_set_prop_ne by discriminate.
  destruct (prop q "collectionAttrName") as [| | | |name| | |] eqn:Ename; cbn; try discriminate.
  destruct (getAttribute (VStr name) (VStr u)) as [def|e] eqn:Edef; cbn; [|discriminate].
  destruct (truthy (attr_collection def)) eqn:Ecoll; cbn; [|discriminate].
  intros [= <-].
  unfold forgeAssociatedIds in H3. revert H3. mrun.
  rewrite !prop_set_prop_ne by discriminate. rewrite Ename, Edef. cbn.
  destruct (getModel (attr_collection def)) as [W'|e] eqn:EW'; cbn; [|discriminate].
  destruct (getAttribute (primaryKey W') (attr_collection def)) as [pk'|e] eqn:Epk'; cbn;
    [|discriminate].
  rewrite !prop_set_prop_ne by discriminate.
  destruct (normalizePkValues (prop q "associatedIds") (attr_type pk')) as [ids'|e] eqn:Eids';
    cbn; [|discriminate].
  intros [= <-]. cbn.
  exists W, pk, name, def, W', pk', ids, ids'.
  repeat split; try assumption. apply (pe_model _ _ _ _ _ He).
Qed.


(** ** New records *)

Lemma tryCall_Ok {A} ev (a : A) handler s :
  tryCall ev (Ok a) handler s = (Ok a, emitted s ev).
Proof. reflexivity. Qed.

Lemma tryCall_Err {A} ev e handler s :
  @tryCall A ev (Err e) handler s = (Err (handler e), emitted s ev).
Proof. reflexivity. Qed.

Section MapCalls.
Context {A : Type} (ev : value -> event) (r : value -> result exn A) (handler : exn -> error).

Lemma mapM_returns xs ys q t :
  Forall2 (fun x y => r x = Ok y) xs ys ->
  mapM (fun x => tryCall (ev x) (r x) handler) xs {| query := q; trace := t |}
  = (Ok ys, {| query := q; trace := t ++ map ev xs |}).
Proof.
  intros H. revert t. induction H as [|x y xs ys Hx _ IH]; intros t; cbn [mapM map].
  - now rewrite app_nil_r.
  - unfold bind at 1. rewrite Hx, tryCall_Ok. unfold emitted. cbn [query trace].
    unfold bind at 1. rewrite IH. cbn. now rewrite <- app_assoc.
Qed.

Lemma mapM_throws pre x post ys e q t :
  Forall2 (fun x y => r x = Ok y) pre ys ->
  r x = Err e ->
  mapM (fun x => tryCall (ev x) (r x) handler) (pre ++ x :: post) {| query := q; trace := t |}
  = (Err (handler e), {| query := q; trace := t ++ map ev (pre ++ [ x ]) |}).
Proof.
  intros H Hx. revert t. induction H as [|x0 y0 xs ys Hx0 _ IH]; intros t; cbn [mapM map app].
  - unfold bind at 1. rewrite Hx, tryCall_Err. reflexivity.
  - unfold bind at 1. rewrite Hx0, tryCall_Ok. unfold emitted. cbn [query trace].
    unfold bind at 1. rewrite IH. cbn. now rewrite <- app_assoc.
Qed.

End MapCalls.

(** X6. [createEach] normalizes the new records one by one, in order. When
    every record is accepted the array of the normalized records replaces
    [newRecords]; at the first record that is refused forging throws, the
    records that follow are not looked at, and the query is left as it was.
    What is not an array is refused before any record is looked at. *)
Theorem createEach_normalizes_every_record_or_none {deps : Dependencies} q u W ks :
  passesEssentials q u "createEach" W ks ->
  let normalize r := normalizeNewRecord r (VStr u) (ensureTypeSafetyOf (prop q "meta")) in
  (forall xs ys,
     prop q "newRecords" = VArr xs ->
     Forall2 (fun x y => normalize x = Ok y) xs ys ->
     forge q = (Ok tt, {| query := set_prop q "newRecords" (VArr ys);
                          trace := CallGetModel (VStr u) :: map CallNormalizeNewRecord xs |}))
  /\ (forall pre x post ys e,
        prop q "newRecords" = VArr (pre ++ x :: post) ->
        Forall2 (fun x y => normalize x = Ok y) pre ys ->
        normalize x = Err e ->
        forge q = (Err (on_codes newRecordCodes (UsageError E_INVALID_NEW_RECORDS) Rethrown e),
                   {| query := q;
                      trace := CallGetModel (VStr u)
                               :: map CallNormalizeNewRecord (pre ++ [ x ]) |}))
  /\ (isArray (prop q "newRecords") = false ->
      forge q = (Err (UsageError E_INVALID_NEW_RECORDS), afterEssentials q u)).
Proof.
  intros He normalize.
  pose proof (pe_keys _ _ _ _ _ He) as Hks. vm_compute in Hks. injection Hks as <-.
  assert (Hf : forge q = bind (forgeNewRecords (VStr u) (ensureTypeSafetyOf (prop q "meta")))
                           (fun _ => ret tt) (afterEssentials q u)).
  { rewrite (forge_essentials _ _ _ _ _ He). reflexivity. }
  rewrite Hf. unfold forgeNewRecords, afterEssentials.
  cbv [bind readKey getQuery ret when writeKey putQuery throw]. cbn [query trace].
  split; [|split].
  - intros xs ys Hx Hall. rewrite Hx. cbv beta iota zeta delta [isUndefined].
    rewrite (mapM_returns CallNormalizeNewRecord normalize _ xs ys) by assumption.
    reflexivity.
  - intros pre x post ys e Hx Hall Herr. rewrite Hx. cbv beta iota zeta delta [isUndefined].
    rewrite (mapM_throws CallNormalizeNewRecord normalize _ pre x post ys e) by assumption.
    reflexivity.
  - intros Hn. destruct (prop q "newRecords"); try discriminate; reflexivity.
Qed.


(** ** Loops over the keys of a dictionary *)

Section Slots.
Context {A : Type} (slot : state -> string -> A) (I : state -> Prop) (f : string -> M unit)
  (Q : string -> A -> A -> Prop).

(** Each turn of the loop keeps [I], settles its own slot and leaves the
    other slots alone. *)
Hypothesis turn : forall k s s',
  I s -> f k s = (Ok tt, s') ->
  I s' /\ Q k (slot s k) (slot s' k) /\ (forall x, x <> k -> slot s' x = slot s x).

Lemma forEach_slots ks s s' :
  NoDup ks -> I s -> forEach f ks s = (Ok tt, s') ->
  I s' /\ (forall k, List.In k ks -> Q k (slot s k) (slot s' k))
  /\ (forall x, ~ List.In x ks -> slot s' x = slot s x).
Proof.
  intros Hnd. revert s. induction Hnd as [|k ks Hk Hnd IH]; intros s Hs; cbn [forEach].
  - intros [= <-]. split; [assumption | split; [intros k [] | reflexivity]].
  - intros H. apply bind_returns in H as ([] & s1 & H1 & H2).
    destruct (turn _ _ _ Hs H1) as (Hs1 & Hq & Hfr).
    destruct (IH _ Hs1 H2) as (Hs' & Hqs & Hfrs).
    rewrite list_elem_of_In in Hk.
    split; [assumption | split].
    + intros x [<-|Hx].
      * rewrite Hfrs by assumption. exact Hq.
      * rewrite <- Hfr by (intros ->; contradiction). now apply Hqs.
    + intros x Hx. rewrite Hfrs by (intros Hx'; apply Hx; now right).
      apply Hfr. intros ->. apply Hx. now left.
Qed.

End Slots.

Lemma prop_not_key d k : ~ List.In k (keys d) -> prop d k = VUndefined.
Proof.
  induction d as [|[k' v] d IH]; [reflexivity|]. unfold keys; fold keys. cbn [prop List.In].
  intros H. destruct (String.eqb_spec k' k) as [->|Hne]; [exfalso; apply H; now left|].
  apply IH. intros Hin. apply H. right. apply List.filter_In. split; [assumption|].
  apply negb_true_iff. now apply String.eqb_neq.
Qed.

(** ** Values to set *)

Section ValuesToSet.
Context {deps : Dependencies}.

(** What [update] leaves of the key [k] in [valuesToSet'], where [d] was
    the content of [valuesToSet]: a key of [d] is a key of [valuesToSet']
    and holds the normal form of its value, or it is no longer a key when
    the normalizer says that the value should be ignored; what was not a
    key of [d] is not a key of [valuesToSet']. *)
Definition valueSet (u : value) (ets : bool) (d : dict) (k : string) (valuesToSet' : value)
    : Prop :=
  if contains_str (keys d) k
  then match normalizeValueToSet (prop d k) k u ets with
       | Ok v' => hasOwn valuesToSet' k = true /\ field valuesToSet' k = v'
       | Err e => code e = "E_SHOULD_BE_IGNORED" /\ hasOwn valuesToSet' k = false
       end
  else hasOwn valuesToSet' k = false.

(** The value and the presence of the key [k] in [valuesToSet]. *)
Definition valueSlot (s : state) (k : string) : value * bool :=
  (field (prop (query s) "valuesToSet") k, hasOwn (prop (query s) "valuesToSet") k).

Lemma forgeValueToSet_returns u ets k s s' :
  isDictionary (prop (query s) "valuesToSet") = true ->
  forgeValueToSet u ets k s = (Ok tt, s') ->
  isDictionary (prop (query s') "valuesToSet") = true
  /\ match normalizeValueToSet (fst (valueSlot s k)) k u ets with
     | Ok v' => snd (valueSlot s' k) = true /\ fst (valueSlot s' k) = v'
     | Err e => code e = "E_SHOULD_BE_IGNORED" /\ snd (valueSlot s' k) = false
     end
  /\ (forall x, x <> k -> valueSlot s' x = valueSlot s x).
Proof.
  intros Hd. apply dictionary_inv in Hd as [d Hd]. unfold valueSlot.
  unfold forgeValueToSet. mrun. rewrite Hd. cbn [field fst snd].
  destruct (normalizeValueToSet (prop d k) k u ets) as [v'|e]; cbn.
  - intros [= <-]. cbn. rewrite prop_set_prop_eq.
    split; [reflexivity|]. split; [split|].
    + apply (hasOwn_set_field_eq d).
    + apply prop_set_prop_eq.
    + intros x Hx. f_equal.
      * apply prop_set_prop_ne. congruence.
      * now apply (hasOwn_set_field_ne (VObj d)).
  - destruct (String.eqb (code e) "E_SHOULD_BE_IGNORED") eqn:Ec; cbn; [|discriminate].
    intros [= <-]. cbn. rewrite prop_set_prop_eq.
    split; [reflexivity|]. split; [split|].
    + now apply String.eqb_eq.
    + apply (hasOwn_delete_field_eq d).
    + intros x Hx. f_equal.
      * apply prop_delete_prop_ne. congruence.
      * now apply (hasOwn_delete_field_ne (VObj d)).
Qed.

End ValuesToSet.

(** X7. An [update] query is forged only if [valuesToSet] is a dictionary. Each
    of its values is then replaced by its normal form, under the same key,
    except the values that the normalizer marks as to be ignored, whose
    keys are deleted: they are no longer keys of [valuesToSet]. No key is
    added. *)
Theorem update_sets_the_normalized_values {deps : Dependencies} q sf :
  forge q = (Ok tt, sf) ->
  prop q "method" = VStr "update" ->
  exists d,
    prop q "valuesToSet" = VObj d
    /\ forall k, valueSet (prop q "using") (ensureTypeSafetyOf (prop q "meta")) d k
                   (prop (query sf) "valuesToSet").
Proof.
  intros Hf Hm. destruct (forge_returns _ _ Hf) as (u & m & W & ks & He & Hb).
  pose proof (pe_method _ _ _ _ _ He) as Hm'. rewrite Hm in Hm'. injection Hm' as <-.
  pose proof (pe_keys _ _ _ _ _ He) as Hks. vm_compute in Hks. injection Hks as <-.
  rewrite (pe_using _ _ _ _ _ He).
  at_block Hb 6%nat.
  assert (H1 : prop (query s1) "valuesToSet" = prop q "valuesToSet") by kept Hpre.
  assert (H2 : prop (query sf) "valuesToSet" = prop (query s2) "valuesToSet") by kept Hpost.
  tests Hblock. unfold forgeValuesToSet in Hblock.
  apply bind_returns in Hblock as (v & s1' & Hv & Hblock). revert Hv. mrun. intros [= <- <-].
  rewrite H1 in Hblock.
  destruct (prop q "valuesToSet") as [| | | | | | |d] eqn:Ed; try discriminate Hblock.
  exists d. split; [reflexivity|]. cbn in Hblock.
  set (ets := ensureTypeSafetyOf (prop q "meta")) in *.
  destruct (forEach_slots valueSlot
              (fun s => isDictionary (prop (query s) "valuesToSet") = true)
              (forgeValueToSet (VStr u) ets)
              (fun k slot0 slot1 =>
                 match normalizeValueToSet (fst slot0) k (VStr u) ets with
                 | Ok v' => snd slot1 = true /\ fst slot1 = v'
                 | Err e => code e = "E_SHOULD_BE_IGNORED" /\ snd slot1 = false
                 end)
              (forgeValueToSet_returns (VStr u) ets)
              (keys d) s1 s2 (keys_NoDup d)) as (_ & Hin & Hout);
    [now rewrite H1 | assumption |].
  intros k. unfold valueSet. rewrite H2.
  destruct (contains_str (keys d) k) eqn:Ek.
  - apply contains_str_In in Ek. specialize (Hin k Ek). unfold valueSlot in Hin.
    rewrite H1 in Hin. exact Hin.
  - assert (Hk : ~ List.In k (keys d))
      by (intros Hk; apply contains_str_In in Hk; congruence).
    specialize (Hout k Hk). unfold valueSlot in Hout. rewrite H1 in Hout.
    injection Hout as _ ->. exact Ek.
Qed.


(** ** The populate directives *)

(** [populates] stays a dictionary. *)
Definition staysDictionary (k : string) (s s' : state) : Prop :=
  isDictionary (prop (query s) k) = true -> isDictionary (prop (query s') k) = true.

#[export] Instance staysDictionary_preorder k : PreOrder (staysDictionary k).
Proof. split; [intros s H; exact H | intros s1 s2 s3 H1 H2 H; auto]. Qed.

Lemma staysDictionary_emit k ev : preserves (staysDictionary k) (emit ev).
Proof. intros s r s' [= _ <-] H. exact H. Qed.

Lemma staysDictionary_writeKey k k' v :
  k' <> k -> preserves (staysDictionary k) (writeKey k' v).
Proof.
  intros Hne s r s'. unfold writeKey. mrun. intros [= _ <-] H. cbn.
  now rewrite prop_set_prop_ne.
Qed.

Lemma staysDictionary_writePopulate k v :
  preserves (staysDictionary "populates") (writePopulate k v).
Proof.
  intros s r s'. unfold writePopulate. mrun. intros [= _ <-] H. cbn.
  rewrite prop_set_prop_eq. apply dictionary_inv in H as [d ->]. reflexivity.
Qed.

Lemma staysDictionary_deletePopulate k :
  preserves (staysDictionary "populates") (deletePopulate k).
Proof.
  intros s r s'. unfold deletePopulate. mrun. intros [= _ <-] H. cbn.
  rewrite prop_set_prop_eq. apply dictionary_inv in H as [d ->]. reflexivity.
Qed.

#[export] Hint Resolve staysDictionary_emit staysDictionary_writePopulate
  staysDictionary_deletePopulate : preserves.
#[export] Hint Extern 1 (preserves (staysDictionary _) (writeKey _ _)) =>
  apply staysDictionary_writeKey; first [ assumption | congruence ] : preserves.

(** The keys of [populates] other than [k] are as they were: what was a
    key is a key, what was not is not. *)
Definition keepsOwnKeys (k : string) (s s' : state) : Prop :=
  forall x, x <> k ->
    hasOwn (prop (query s') "populates") x = hasOwn (prop (query s) "populates") x.

#[export] Instance keepsOwnKeys_preorder k : PreOrder (keepsOwnKeys k).
Proof.
  split; [intros s x Hx; reflexivity|].
  intros s1 s2 s3 H1 H2 x Hx. rewrite (H2 x Hx). exact (H1 x Hx).
Qed.

Lemma keepsOwnKeys_emit k ev : preserves (keepsOwnKeys k) (emit ev).
Proof. intros s r s' [= _ <-] x Hx. reflexivity. Qed.

Lemma keepsOwnKeys_writeKey k k' v :
  k' <> "populates" -> preserves (keepsOwnKeys k) (writeKey k' v).
Proof.
  intros Hne s r s'. unfold writeKey. mrun. intros [= _ <-] x Hx. cbn.
  now rewrite prop_set_prop_ne.
Qed.

Lemma keepsOwnKeys_writePopulate k v : preserves (keepsOwnKeys k) (writePopulate k v).
Proof.
  intros s r s'. unfold writePopulate. mrun. intros [= _ <-] x Hx. cbn.
  rewrite prop_set_prop_eq. now apply hasOwn_set_field_ne.
Qed.

Lemma keepsOwnKeys_deletePopulate k : preserves (keepsOwnKeys k) (deletePopulate k).
Proof.
  intros s r s'. unfold deletePopulate. mrun. intros [= _ <-] x Hx. cbn.
  rewrite prop_set_prop_eq. now apply hasOwn_delete_field_ne.
Qed.

#[export] Hint Resolve keepsOwnKeys_emit keepsOwnKeys_writePopulate
  keepsOwnKeys_deletePopulate : preserves.
#[export] Hint Extern 1 (preserves (keepsOwnKeys _) (writeKey _ _)) =>
  apply keepsOwnKeys_writeKey; first [ assumption | congruence ] : preserves.

Section Populate.
Context {deps : Dependencies}.
Variables (u : value) (ets : bool).

Lemma keepsOwnKeys_forgePopulate k :
  preserves (keepsOwnKeys k) (forgePopulate u ets k).
Proof.
  unfold forgePopulate, forgeSingularPopulate, forgePluralPopulate, readPopulate,
    checkNotOmitted, includeInSelect, checkNotSorted, lookupAssociation.
  preserves_auto.
Qed.

Lemma staysDictionary_forgePopulate k :
  preserves (staysDictionary "populates") (forgePopulate u ets k).
Proof.
  unfold forgePopulate, forgeSingularPopulate, forgePluralPopulate, readPopulate,
    checkNotOmitted, includeInSelect, checkNotSorted, lookupAssociation.
  preserves_auto.
Qed.

(** The checks of a directive that come before its right-hand side is
    looked at keep [populates]. *)
Lemma keepsPopulates_checks k :
  preserves (keepsKey "populates")
    (run checkNotOmitted k; run includeInSelect k; checkNotSorted k).
Proof. unfold checkNotOmitted, includeInSelect, checkNotSorted. preserves_auto. Qed.

(** What forging leaves of the key [k] in [populates], of which [rhs] was
    the right-hand side: [own] tells whether [k] is a key at the end, and
    [v] is what it holds. A directive that is [false] or [undefined] is
    gone: [k] is not a key. Otherwise [k] is a key and names an association
    of the model: a singular one, and [rhs] was [{}] or [true] and [true] is
    left; or a plural one, and what is left is the normal form of [rhs] as
    a criteria for the associated model, [true] standing for [{}]. *)
Definition populateForged (rhs : value) (k : string) (v : value) (own : bool) : Prop :=
  if isLive rhs
  then exists def,
         getAttribute (VStr k) u = Ok def
         /\ own = true
         /\ if truthy (attr_model def)
            then isEmptyDict rhs || is_true rhs = true /\ v = VBool true
            else truthy (attr_collection def) = true
                 /\ normalizeCriteria (if is_true rhs then VObj [] else rhs)
                      (attr_collection def) ets = Ok v
  else own = false.

(** The value and the presence of the key [k] in [populates]. *)
Definition populateSlot (s : state) (k : string) : value * bool :=
  (field (prop (query s) "populates") k, hasOwn (prop (query s) "populates") k).

Lemma readPopulate_run k s :
  readPopulate k s = (Ok (field (prop (query s) "populates") k), s).
Proof. reflexivity. Qed.

Lemma writePopulate_run k v s d :
  prop (query s) "populates" = VObj d ->
  writePopulate k v s
  = (Ok tt, {| query := set_prop (query s) "populates" (VObj (set_prop d k v));
               trace := trace s |}).
Proof. intros H. unfold writePopulate. mrun. now rewrite H. Qed.

Lemma forgePopulate_returns k s s' :
  isDictionary (prop (query s) "populates") = true ->
  forgePopulate u ets k s = (Ok tt, s') ->
  isDictionary (prop (query s') "populates") = true
  /\ populateForged (fst (populateSlot s k)) k
       (fst (populateSlot s' k)) (snd (populateSlot s' k))
  /\ (forall x, x <> k -> populateSlot s' x = populateSlot s x).
Proof.
  intros Hd H. unfold populateSlot. cbn [fst snd].
  split; [eapply staysDictionary_forgePopulate; eassumption|].
  split; [|intros x Hx; f_equal;
           [ apply (pf_populates _ _ _ (frame_forgePopulate u ets k _ _ _ H));
             intros [->|[]]; congruence
           | exact (keepsOwnKeys_forgePopulate k _ _ _ H x Hx) ]].
  apply dictionary_inv in Hd as [p Hp].
  unfold populateForged, isLive. unfold forgePopulate in H.
  apply bind_returns in H as (rhs & s0 & Hr & H). rewrite readPopulate_run in Hr.
  injection Hr as <- <-. rewrite Hp in *. cbn [field] in *.
  destruct (is_false (prop p k) || isUndefined (prop p k)) eqn:El; cbn [negb].
  - revert H. unfold deletePopulate. mrun. rewrite Hp. intros [= <-]. cbn [query].
    rewrite prop_set_prop_eq. apply (hasOwn_delete_field_eq p).
  - assert (Hchecks : exists s1, bind (checkNotOmitted k)
                        (fun _ => bind (includeInSelect k) (fun _ => checkNotSorted k)) s
                        = (Ok tt, s1)
                      /\ bind (lookupAssociation u k) (fun populateAttrDef =>
                           bind (if truthy (attr_model populateAttrDef)
                                 then ret (attr_model populateAttrDef)
                                 else if truthy (attr_collection populateAttrDef)
                                      then ret (attr_collection populateAttrDef)
                                      else throw (UsageError E_INVALID_POPULATES))
                             (fun otherModelIdentity =>
                                if truthy (attr_model populateAttrDef)
                                then forgeSingularPopulate k
                                else forgePluralPopulate u ets otherModelIdentity k)) s1
                         = (Ok tt, s')).
    { revert H. unfold bind.
      destruct (checkNotOmitted k s) as [[[]|e0] s0]; [|discriminate].
      destruct (includeInSelect k s0) as [[[]|e1] s1]; [|discriminate].
      destruct (checkNotSorted k s1) as [[[]|e2] s2]; [|discriminate].
      intros H. exists s2. split; [reflexivity | exact H]. }
    destruct Hchecks as (s1 & Hc & H1). clear H.
    apply keepsPopulates_checks in Hc. unfold keepsKey in Hc. rewrite Hp in Hc.
    apply bind_returns in H1 as (def & s2 & Hdef & H1).
    apply tryCall_returns in Hdef as [Hdef ->].
    exists def. split; [assumption|].
    apply bind_returns in H1 as (other & s3 & Hother & H1).
    destruct (truthy (attr_model def)) eqn:Em.
    + injection Hother as <- <-. revert H1.
      unfold forgeSingularPopulate. unfold bind at 1. rewrite readPopulate_run.
      cbn [emitted query]. rewrite Hc. cbn [field].
      destruct (isEmptyDict (prop p k)) eqn:Ee; cbn [orb].
      * rewrite (writePopulate_run _ _ _ p) by exact Hc. intros [= <-]. cbn [query].
        rewrite prop_set_prop_eq.
        split; [apply (hasOwn_set_field_eq p)|].
        split; [reflexivity | apply prop_set_prop_eq].
      * destruct (is_true (prop p k)) eqn:Et; cbn; [|discriminate].
        intros [= <-]. cbn [emitted query]. rewrite Hc.
        assert (Hv : prop p k = VBool true)
          by (destruct (prop p k) as [| |[]| | | | |]; try discriminate; reflexivity).
        split; [|split; [reflexivity | exact Hv]].
        apply contains_str_In, defined_is_key. rewrite Hv. discriminate.
    + destruct (truthy (attr_collection def)) eqn:Ecoll; [|discriminate].
      injection Hother as <- <-.
      cut (hasOwn (prop (query s') "populates") k = true
           /\ normalizeCriteria (if is_true (prop p k) then VObj [] else prop p k)
                (attr_collection def) ets = Ok (field (prop (query s') "populates") k));
        [intros [Hown Hn]; split; [exact Hown | split; [reflexivity | exact Hn]]|].
      revert H1.
      unfold forgePluralPopulate. unfold bind at 1. rewrite readPopulate_run.
      set (s2 := emitted s1 _).
      assert (Hc2 : prop (query s2) "populates" = VObj p) by exact Hc.
      rewrite Hc2. cbn [field].
      assert (Hrhs : exists s3 p3,
                 when (is_true (prop p k)) (writePopulate k (VObj [])) s2 = (Ok tt, s3)
                 /\ prop (query s3) "populates" = VObj p3
                 /\ prop p3 k = if is_true (prop p k) then VObj [] else prop p k).
      { unfold when. destruct (is_true (prop p k)).
        - rewrite (writePopulate_run _ _ _ p) by exact Hc2. eexists _, _.
          split; [reflexivity|]. cbn. rewrite prop_set_prop_eq.
          split; [reflexivity | apply prop_set_prop_eq].
        - exists s2, p. repeat split. exact Hc2. }
      destruct Hrhs as (s3 & p3 & Hw & Hp3 & Hk3). unfold bind at 1. rewrite Hw.
      unfold bind at 1. rewrite readPopulate_run, Hp3. cbn [field]. rewrite Hk3.
      set (rhs := if is_true (prop p k) then VObj [] else prop p k).
      unfold bind at 1.
      destruct (normalizeCriteria rhs (attr_collection def) ets) as [sub|e] eqn:En;
        [rewrite tryCall_Ok | rewrite tryCall_Err; discriminate].
      unfold bind at 1. rewrite (writePopulate_run _ _ _ p3) by exact Hp3.
      set (s4 := {| query := set_prop _ _ _; trace := _ |}).
      intros H.
      assert (Hk : keepsKey "populates" s4 s').
      { revert H. generalize s4. intros s0 H.
        match type of H with
        | ?m s0 = _ => assert (Hm : preserves (keepsKey "populates") m)
                         by (unfold readPopulate; preserves_auto)
        end.
        exact (Hm _ _ _ H). }
      unfold keepsKey in Hk. rewrite Hk. unfold s4. cbn [query].
      rewrite prop_set_prop_eq.
      split; [apply (hasOwn_set_field_eq p3) | cbn; now rewrite prop_set_prop_eq].
Qed.

End Populate.


(** The three methods that accept [populates]. *)
Definition populatingMethods : list string := [ "find"; "findOne"; "stream" ].

Lemma populating_keys m ks :
  List.In m populatingMethods -> _getQueryKeys m = Some ks ->
  contains_str ks "criteria" = true /\ contains_str ks "populates" = true.
Proof.
  intros Hin Hks. unfold populatingMethods in Hin. cbn [List.In] in Hin.
  repeat destruct Hin as [<-|Hin]; try contradiction;
    vm_compute in Hks; injection Hks as <-; split; reflexivity.
Qed.

(** X8. When a [find], a [findOne] or a [stream] query has been forged, each
    key of [populates] is as [populateForged] says: the directives that
    were [false] or [undefined] are gone, their keys are no longer keys of
    [populates]; the key of a singular association holds [true], the key
    of a plural one the normal form of its subcriteria; and [populates] has
    no key that it did not have. *)
Theorem forged_populates_are_true_or_normalized {deps : Dependencies} q sf m :
  forge q = (Ok tt, sf) ->
  prop q "method" = VStr m ->
  List.In m populatingMethods ->
  forall k,
    populateForged (prop q "using") (ensureTypeSafetyOf (prop q "meta"))
      (field (prop q "populates") k) k
      (field (prop (query sf) "populates") k) (hasOwn (prop (query sf) "populates") k).
Proof.
  intros Hf Hm Hin k. destruct (forge_returns _ _ Hf) as (u & m' & W & ks & He & Hb).
  pose proof (pe_method _ _ _ _ _ He) as Hm'. rewrite Hm in Hm'. injection Hm' as <-.
  destruct (populating_keys _ _ Hin (pe_keys _ _ _ _ _ He)) as [_ Hp].
  rewrite (pe_using _ _ _ _ _ He).
  at_block Hb 1%nat.
  assert (H1 : prop (query s1) "populates" = prop q "populates") by kept Hpre.
  assert (H2 : prop (query sf) "populates" = prop (query s2) "populates") by kept Hpost.
  rewrite Hp in Hblock. unfold when, forgePopulates in Hblock. rewrite H2.
  set (ets := ensureTypeSafetyOf (prop q "meta")) in *.
  apply bind_returns in Hblock as (p0 & s1a & Hp0 & Hblock).
  revert Hp0. mrun. intros [= <- <-]. rewrite H1 in Hblock.
  assert (Hloop : forall d s,
            prop (query s) "populates" = VObj d ->
            prop d k = field (prop q "populates") k ->
            forEach (forgePopulate (VStr u) ets) (keys d) s = (Ok tt, s2) ->
            populateForged (VStr u) ets (field (prop q "populates") k) k
              (field (prop (query s2) "populates") k)
              (hasOwn (prop (query s2) "populates") k)).
  { intros d s Hd Hk Hloop.
    destruct (forEach_slots populateSlot
                (fun s => isDictionary (prop (query s) "populates") = true)
                (forgePopulate (VStr u) ets)
                (fun k slot0 slot1 =>
                   populateForged (VStr u) ets (fst slot0) k (fst slot1) (snd slot1))
                (forgePopulate_returns (VStr u) ets)
                (keys d) s s2 (keys_NoDup d)) as (_ & Hkeys & Hout);
      [now rewrite Hd | assumption |].
    destruct (contains_str (keys d) k) eqn:Ek.
    - apply contains_str_In in Ek. specialize (Hkeys k Ek). unfold populateSlot in Hkeys.
      rewrite Hd in Hkeys. cbn [field fst snd] in Hkeys. now rewrite Hk in Hkeys.
    - assert (Hnk : ~ List.In k (keys d))
        by (intros Hk'; apply contains_str_In in Hk'; congruence).
      specialize (Hout k Hnk). unfold populateSlot in Hout. rewrite Hd in Hout.
      injection Hout as _ ->. cbn [hasOwn]. rewrite Ek.
      rewrite <- Hk, (prop_not_key d k Hnk). reflexivity. }
  destruct (isUndefined (prop q "populates")) eqn:Eu.
  - destruct (prop q "populates"); try discriminate Eu.
    revert Hblock. mrun. rewrite prop_set_prop_eq. cbn. intros [= <-]. cbn.
    rewrite prop_set_prop_eq. reflexivity.
  - apply bind_returns in Hblock as ([] & s1b & Hw & Hblock). injection Hw as <-.
    apply bind_returns in Hblock as (p & s1c & Hp1 & Hblock).
    revert Hp1. mrun. rewrite H1. intros [= <- <-].
    destruct (prop q "populates") as [| | | | | | |d] eqn:Ed;
      try discriminate Hblock; try discriminate Eu.
    cbn in Hblock. apply (Hloop d s1); [assumption | reflexivity | assumption].
Qed.


(** ** The criteria after the populate directives *)

(** [v[0]], where [v] is neither [undefined] nor [null]. *)
Definition firstOf (v : value) : value :=
  match v with
  | VArr (x :: _) => x
  | VStr (String c _) => VStr (String c EmptyString)
  | VObj d => prop d "0"
  | _ => VUndefined
  end.

(** The [select] clause covers the attribute [k]: it starts with ['*'] or
    it contains [k]. *)
Definition selects (select : value) (k : string) : bool :=
  is_str "*" (firstOf select) || contains select k.

(** The clause [b] is the clause [a] with the names [ys] pushed at its end;
    nothing is pushed to what is not an array. *)
Definition appended (a b : value) (ys : list string) : Prop :=
  match a with
  | VArr xs => b = VArr (xs ++ map VStr ys)
  | _ => b = a /\ ys = []
  end.

Lemma appended_nil a : appended a a [].
Proof. destruct a; cbn; auto. now rewrite app_nil_r. Qed.

Lemma appended_trans a b c ys zs :
  appended a b ys -> appended b c zs -> appended a c (ys ++ zs).
Proof.
  destruct a; cbn; try (intros [-> ->]; cbn; intros [-> ->]; now split).
  intros ->. cbn. intros ->. now rewrite map_app, app_assoc.
Qed.

Lemma selects_appended a b ys k :
  selects a k = true -> appended a b ys -> selects b k = true.
Proof.
  destruct a as [| | | | | |xs|]; cbn [appended]; try (intros H [-> _]; exact H).
  intros H ->. unfold selects in *. cbn [contains firstOf] in *.
  destruct xs as [|x xs]; [discriminate H|]. cbn [app existsb] in *.
  rewrite existsb_app. destruct (is_str "*" x); [reflexivity|].
  cbn [orb] in *. apply orb_true_iff in H as [-> | ->]; [reflexivity|].
  cbn. now rewrite orb_true_r.
Qed.

Definition selectOf (s : state) : value := field (prop (query s) "criteria") "select".

Lemma selectOf_kept s s' : keepsKey "criteria" s s' -> selectOf s' = selectOf s.
Proof. unfold keepsKey, selectOf. now intros ->. Qed.

(** [includeInSelect] pushes [k] or nothing, and [select] covers [k] then. *)
Lemma includeInSelect_returns k s s' :
  includeInSelect k s = (Ok tt, s') ->
  (exists ys, appended (selectOf s) (selectOf s') ys /\ (ys = [] \/ ys = [ k ]))
  /\ selects (selectOf s') k = true.
Proof.
  unfold includeInSelect, first_elem, selectOf, selects. mrun.
  destruct (prop (query s) "criteria") as [| | | | | | |c] eqn:Ec; cbn; try discriminate.
  destruct (prop c "select") as [| | | |str| |sel|o] eqn:Es; cbn; try discriminate.
  - destruct str as [|ch str]; cbn.
    + destruct (has_substring k "") eqn:Eh; cbn; [|discriminate].
      intros [= <-]. rewrite Ec. cbn. rewrite Es. cbn. rewrite Eh.
      split; [exists []; split; [now split | now left] | reflexivity].
    + destruct (negb _ && negb _) eqn:Ecnd; cbn; [discriminate|].
      intros [= <-]. rewrite Ec. cbn. rewrite Es. cbn.
      split; [exists []; split; [now split | now left]|].
      apply andb_false_iff in Ecnd as [H|H]; apply negb_false_iff in H; rewrite H;
        [reflexivity | apply orb_true_r].
  - assert (Hw : forall c0,
              (if negb (is_str "*" c0) && negb (existsb (is_str k) sel)
               then fun s0 => (@Ok error unit tt,
                                 {| query := set_prop (query s0) "criteria"
                                      (VObj (set_prop c "select" (VArr (sel ++ [VStr k]))));
                                    trace := trace s0 |})
               else fun s0 => (Ok tt, s0)) s = (Ok tt, s') ->
              firstOf (VArr sel) = c0 ->
              (exists ys, appended (VArr sel) (field (prop (query s') "criteria") "select") ys
                          /\ (ys = [] \/ ys = [k]))
              /\ is_str "*" (firstOf (field (prop (query s') "criteria") "select"))
                 || contains (field (prop (query s') "criteria") "select") k = true).
    { intros c0. destruct (negb _ && negb _) eqn:Ecnd; intros [= <-] H0.
      - cbn. rewrite prop_set_prop_eq. cbn. rewrite prop_set_prop_eq.
        split; [exists [k]; split; [reflexivity | now right]|].
        cbn. rewrite existsb_app. cbn. rewrite String.eqb_refl. cbn.
        now rewrite !orb_true_r.
      - rewrite Ec. cbn. rewrite Es.
        split; [exists []; split; [cbn; now rewrite app_nil_r | now left]|].
        rewrite H0. cbn.
        apply andb_false_iff in Ecnd as [H|H]; apply negb_false_iff in H; rewrite H;
          [reflexivity | apply orb_true_r]. }
    destruct sel as [|v sel']; intros H; [apply (Hw VUndefined) | apply (Hw v)];
      first [ exact H | reflexivity ].
  - destruct (negb _ && negb _) eqn:Ecnd; cbn; [discriminate|].
    intros [= <-]. rewrite Ec. cbn. rewrite Es. cbn.
    split; [exists []; split; [now split | now left]|].
    apply andb_false_iff in Ecnd as [H|H]; apply negb_false_iff in H; rewrite H;
      [reflexivity | apply orb_true_r].
Qed.


Section Select.
Context {deps : Dependencies}.
Variables (u : value) (ets : bool).

Let slot (s : state) (k : string) : value := field (prop (query s) "populates") k.

(** A directive pushes its own name to [select], or nothing, and nothing
    when it is stripped; when it is not, [select] covers its name. *)
Lemma forgePopulate_select k s s' :
  forgePopulate u ets k s = (Ok tt, s') ->
  exists ys,
    appended (selectOf s) (selectOf s') ys
    /\ (ys = [] \/ (ys = [ k ] /\ isLive (slot s k) = true))
    /\ (isLive (slot s k) = true -> selects (selectOf s') k = true).
Proof.
  unfold forgePopulate. intros H.
  apply bind_returns in H as (rhs & s0 & Hr & H). rewrite readPopulate_run in Hr.
  injection Hr as <- <-. fold (slot s k) in H. unfold isLive.
  destruct (is_false (slot s k) || isUndefined (slot s k)); cbn [negb].
  - exists []. assert (Hk : keepsKey "criteria" s s').
    { eapply (_ : preserves (keepsKey "criteria") (deletePopulate k)), H. }
    rewrite (selectOf_kept _ _ Hk).
    split; [apply appended_nil | split; [now left | discriminate]].
  - apply bind_returns in H as ([] & s0 & H0 & H).
    apply bind_returns in H as ([] & s1 & H1 & H).
    assert (K0 : keepsKey "criteria" s s0).
    { eapply (_ : preserves (keepsKey "criteria") (checkNotOmitted k)), H0. }
    assert (K1 : keepsKey "criteria" s1 s').
    { revert H. generalize s1. intros s2 H.
      match type of H with
      | ?m s2 = _ =>
          assert (Hm : preserves (keepsKey "criteria") m)
            by (unfold checkNotSorted, lookupAssociation, forgeSingularPopulate,
                  forgePluralPopulate, readPopulate, writePopulate; preserves_auto)
      end.
      exact (Hm _ _ _ H). }
    destruct (includeInSelect_returns _ _ _ H1) as ((ys & Ha & Hys) & Hsel).
    rewrite (selectOf_kept _ _ K1), <- (selectOf_kept _ _ K0).
    exists ys. split; [assumption | split; [|intros _; assumption]].
    destruct Hys as [->| ->]; [now left | right; now split].
  Unshelve.
  all: unfold deletePopulate, checkNotOmitted; preserves_auto.
Qed.

Lemma forEach_select ks s s' :
  NoDup ks ->
  forEach (forgePopulate u ets) ks s = (Ok tt, s') ->
  exists ys,
    appended (selectOf s) (selectOf s') ys
    /\ (forall y, List.In y ys -> List.In y ks /\ isLive (slot s y) = true)
    /\ (forall k, List.In k ks -> isLive (slot s k) = true -> selects (selectOf s') k = true).
Proof.
  intros Hnd. revert s. induction Hnd as [|k ks Hk Hnd IH]; intros s; cbn [forEach].
  - intros [= <-]. exists []. split; [apply appended_nil | split; [intros y [] | intros k []]].
  - intros H. apply bind_returns in H as ([] & s1 & H1 & H2).
    rewrite list_elem_of_In in Hk.
    destruct (forgePopulate_select _ _ _ H1) as (ys & Ha & Hys & Hsel).
    destruct (IH _ H2) as (zs & Hb & Hzs & Hsels).
    assert (Hfr : forall x, x <> k -> slot s1 x = slot s x).
    { intros x Hx. apply (pf_populates _ _ _ (frame_forgePopulate u ets k _ _ _ H1)).
      intros [->|[]]. congruence. }
    exists (ys ++ zs). split; [eapply appended_trans; eassumption | split].
    + intros y Hy. apply List.in_app_iff in Hy as [Hy|Hy].
      * destruct Hys as [->|[-> Hl]]; [destruct Hy|].
        destruct Hy as [<-|[]]. split; [now left | assumption].
      * destruct (Hzs y Hy) as [Hin Hl]. split; [now right|].
        rewrite <- Hfr; [assumption | intros ->; contradiction].
    + intros x [<-|Hx] Hl.
      * eapply selects_appended; [apply Hsel, Hl | exact Hb].
      * apply Hsels; [assumption|]. rewrite Hfr; [assumption | intros ->; contradiction].
Qed.

End Select.

(** X9. When a [find], a [findOne] or a [stream] query has been forged, its
    criteria is the normal form that [normalizeCriteria] gave, but for the
    [select] clause: to an array, the names of populate directives that are
    neither [false] nor [undefined] have been pushed, so that [select]
    starts with ['*'] or contains the name of every such directive. *)
Theorem populated_attributes_are_selected {deps : Dependencies} q sf m :
  forge q = (Ok tt, sf) ->
  prop q "method" = VStr m ->
  List.In m populatingMethods ->
  let live k := isLive (field (prop q "populates") k) in
  exists c' ys,
    normalizeCriteria (rawCriteria q) (prop q "using") (ensureTypeSafetyOf (prop q "meta"))
    = Ok c'
    /\ (forall f, f <> "select" -> field (prop (query sf) "criteria") f = field c' f)
    /\ appended (field c' "select") (field (prop (query sf) "criteria") "select") ys
    /\ (forall y, List.In y ys -> live y = true)
    /\ (forall k, live k = true ->
          selects (field (prop (query sf) "criteria") "select") k = true).
Proof.
  intros Hf Hm Hin live. destruct (forge_returns _ _ Hf) as (u & m' & W & ks & He & Hb).
  pose proof (pe_method _ _ _ _ _ He) as Hm'. rewrite Hm in Hm'. injection Hm' as <-.
  destruct (populating_keys _ _ Hin (pe_keys _ _ _ _ _ He)) as [Hc Hp].
  rewrite (pe_using _ _ _ _ _ He).
  set (ets := ensureTypeSafetyOf (prop q "meta")) in *.
  at_block Hb 1%nat.
  (* the criteria block *)
  rewrite Hc in Hpre. cbn [forEach when] in Hpre.
  apply bind_returns in Hpre as ([] & s1' & Hcrit & Hret). injection Hret as <-.
  unfold afterEssentials in Hcrit.
  destruct (incompatibleClause (prop q "criteria") m) eqn:Ei;
    [rewrite forgeCriteria_incompatible in Hcrit by assumption; discriminate|].
  rewrite forgeCriteria_compatible in Hcrit by assumption.
  destruct (normalizeCriteria (rawCriteria q) (VStr u) ets) as [c'|e] eqn:En; [|discriminate].
  injection Hcrit as <-.
  assert (H1 : prop (query sf) "criteria" = prop (query s2) "criteria") by kept Hpost.
  rewrite H1. clear Hpost H1.
  exists c'.
  (* the populates block *)
  remember {| query := set_prop _ "criteria" c'; trace := _ |} as s1 eqn:Es1 in Hblock.
  assert (Hc1 : prop (query s1) "criteria" = c') by (rewrite Es1; apply prop_set_prop_eq).
  assert (Hp1 : prop (query s1) "populates" = prop q "populates").
  { rewrite Es1. cbn. rewrite prop_set_prop_ne by discriminate.
    destruct (isUndefined (prop q "criteria")); [now rewrite prop_set_prop_ne|reflexivity]. }
  clear Es1.
  rewrite Hp in Hblock. unfold when, forgePopulates in Hblock.
  apply bind_returns in Hblock as (p0 & s1a & Hp0 & Hblock).
  revert Hp0. mrun. rewrite Hp1. intros [= <- <-].
  destruct (isUndefined (prop q "populates")) eqn:Eu.
  - exists []. revert Hblock. mrun. rewrite prop_set_prop_eq. cbn. intros [= <-].
    cbn [query]. rewrite prop_set_prop_ne by discriminate. rewrite Hc1.
    split; [reflexivity | split; [reflexivity | split; [apply appended_nil|]]].
    split; [intros y []|]. intros k Hl. exfalso. unfold live in Hl.
    destruct (prop q "populates"); discriminate.
  - apply bind_returns in Hblock as ([] & s1b & Hw & Hblock). injection Hw as <-.
    apply bind_returns in Hblock as (p & s1c & Hp1' & Hblock).
    revert Hp1'. mrun. rewrite Hp1. intros [= <- <-].
    destruct (prop q "populates") as [| | | | | | |d] eqn:Ed;
      try discriminate Hblock; try discriminate Eu.
    cbn in Hblock.
    destruct (forEach_select (VStr u) ets (keys d) s1 s2 (keys_NoDup d) Hblock)
      as (ys & Ha & Hys & Hsel).
    pose proof (frame_forEach (VStr u) ets (keys d) _ _ _ Hblock) as Hfr.
    exists ys. split; [reflexivity|]. unfold selectOf in *. rewrite Hc1 in *.
    split; [intros f Hne; rewrite (pf_criteria _ _ _ Hfr) by assumption; now rewrite Hc1|].
    split; [assumption|]. unfold live. cbn [field].
    rewrite Hp1 in Hys, Hsel. cbn [field] in Hys, Hsel. split.
    + intros y Hy. apply Hys, Hy.
    + intros k Hl. apply Hsel; [|assumption].
      destruct (contains_str (keys d) k) eqn:Ek; [now apply contains_str_In|].
      rewrite prop_not_key in Hl; [discriminate|].
      intros Hk. apply contains_str_In in Hk. congruence.
Qed.

(** ** Errors of the engine *)

(** The normal forms that [normalizeCriteria] returns are dictionaries that
    carry a [select] array. *)
Definition normalFormsAreDictionaries {deps : Dependencies} : Prop :=
  forall c identity ensureTypeSafety c',
    normalizeCriteria c identity ensureTypeSafety = Ok c' ->
    isDictionary c' = true /\ isArray (field c' "select") = true.

Definition notOfTheEngine (e : error) : Prop := e <> TypeError.

Ltac not_of_the_engine :=
  unfold notOfTheEngine, criteriaHandler, subcriteriaHandler, on_codes;
  repeat match goal with
  | |- context [contains_str _ (code ?e)] => destruct (contains_str _ (code e))
  end; discriminate.

Ltac safe_auto :=
  repeat first [ safe_step | solve [ auto ] | solve [ intros; not_of_the_engine ] ].

Section Engine.
Context {deps : Dependencies}.
Hypothesis normal : normalFormsAreDictionaries.
Variables (u : value) (ets : bool).

(** The state of the loop over the populate directives: the criteria is a
    dictionary that carries a [select] array, [populates] is a dictionary. *)
Definition inLoop (s : state) : Prop :=
  isDictionary (prop (query s) "criteria") = true
  /\ isArray (field (prop (query s) "criteria") "select") = true
  /\ isDictionary (prop (query s) "populates") = true.

Lemma singular_notOfTheEngine k :
  safe (fun _ => True) notOfTheEngine (forgeSingularPopulate k).
Proof. unfold forgeSingularPopulate, readPopulate, writePopulate. safe_auto. Qed.

Lemma plural_notOfTheEngine other k s e s' :
  isDictionary (prop (query s) "populates") = true ->
  forgePluralPopulate u ets other k s = (Err e, s') -> notOfTheEngine e.
Proof.
  intros Hp. apply dictionary_inv in Hp as [p Hp].
  unfold forgePluralPopulate. unfold bind at 1. rewrite readPopulate_run, Hp.
  assert (Hrhs : exists s3 p3,
             when (is_true (field (VObj p) k)) (writePopulate k (VObj [])) s = (Ok tt, s3)
             /\ prop (query s3) "populates" = VObj p3).
  { unfold when. destruct (is_true _).
    - rewrite (writePopulate_run _ _ _ p) by exact Hp. eexists _, _.
      split; [reflexivity|]. cbn. apply prop_set_prop_eq.
    - exists s, p. split; [reflexivity | exact Hp]. }
  destruct Hrhs as (s3 & p3 & Hw & Hp3). unfold bind at 1. rewrite Hw.
  unfold bind at 1. rewrite readPopulate_run, Hp3.
  set (rhs := field (VObj p3) k). unfold bind at 1.
  destruct (normalizeCriteria rhs other ets) as [sub|e0] eqn:En;
    [rewrite tryCall_Ok | rewrite tryCall_Err; intros [= <- _]; not_of_the_engine].
  destruct (normal _ _ _ _ En) as [Hsub _]. apply dictionary_inv in Hsub as [d ->].
  unfold bind at 1. rewrite (writePopulate_run _ _ _ p3) by exact Hp3.
  unfold when, call. destruct production; [|discriminate].
  unfold bind at 1.
  destruct (isCapableOfOptimizedPopulate k u) as [b|e0];
    [rewrite tryCall_Ok | rewrite tryCall_Err; intros [= <- _]; discriminate].
  destruct b; cbn [negb]; [discriminate|].
  unfold bind at 1. rewrite readPopulate_run. cbn [emitted query].
  rewrite prop_set_prop_eq. cbn [field]. rewrite prop_set_prop_eq.
  mrun. destruct (_ || _); discriminate.
Qed.

Lemma forgePopulate_inLoop k s :
  inLoop s ->
  match forgePopulate u ets k s with
  | (Ok _, s') => inLoop s'
  | (Err e, _) => notOfTheEngine e
  end.
Proof.
  intros (Hd & Hsel & Hp).
  destruct (forgePopulate u ets k s) as [[[]|e] s'] eqn:E.
  { pose proof (frame_forgePopulate u ets k _ _ _ E) as Hf.
    pose proof (staysDictionary_forgePopulate u ets k _ _ _ E Hp) as Hp'.
    split; [apply (pf_dictionary _ _ _ Hf), Hd | split; [apply (pf_select _ _ _ Hf), Hsel|]].
    exact Hp'. }
  revert E. unfold forgePopulate. unfold bind at 1. rewrite readPopulate_run.
  destruct (is_false _ || isUndefined _).
  { unfold deletePopulate. mrun. discriminate. }
  unfold bind at 1. rewrite checkNotOmitted_run by assumption.
  destruct (contains _ k); [intros [= <- _]; discriminate|].
  unfold bind at 1. destruct (includeInSelect_run k s Hd Hsel) as (s1 & E1 & Hf).
  assert (Hk1 : prop (query s1) "populates" = prop (query s) "populates").
  { assert (Hm : preserves (keepsKey "populates") (includeInSelect k))
      by (unfold includeInSelect; preserves_auto).
    exact (Hm _ _ _ E1). }
  rewrite E1. unfold bind at 1.
  rewrite checkNotSorted_run by (apply (pf_dictionary _ _ _ Hf), Hd).
  destruct (any _ _); [intros [= <- _]; discriminate|].
  unfold bind at 1. unfold lookupAssociation.
  destruct (getAttribute (VStr k) u) as [def|e0];
    [rewrite tryCall_Ok | rewrite tryCall_Err; intros [= <- _]; not_of_the_engine].
  unfold bind at 1.
  destruct (truthy (attr_model def)).
  - unfold ret at 1. cbv beta iota. intros E.
    pose proof (singular_notOfTheEngine k (emitted s1 (CallGetAttribute (VStr k) u))
                  Logic.I) as H.
    cbv beta in H. rewrite E in H. exact H.
  - destruct (truthy (attr_collection def)); [|intros [= <- _]; discriminate].
    unfold ret at 1. cbv beta iota.
    apply plural_notOfTheEngine. cbn [emitted query]. now rewrite Hk1.
Qed.

End Engine.

Section EngineBlocks.
Context {deps : Dependencies}.
Hypothesis normal : normalFormsAreDictionaries.

Lemma forgePopulates_notOfTheEngine u ets s e s' :
  isDictionary (prop (query s) "criteria") = true ->
  isArray (field (prop (query s) "criteria") "select") = true ->
  forgePopulates u ets s = (Err e, s') -> notOfTheEngine e.
Proof.
  intros Hd Hsel. unfold forgePopulates.
  unfold bind at 1. unfold readKey at 1. unfold bind at 1, getQuery at 1, ret at 1.
  cbv beta iota.
  destruct (prop (query s) "populates") as [| | | | | | |d] eqn:Ep;
    try (mrun; rewrite Ep; cbn; intros [= <- _]; discriminate).
  - mrun. rewrite prop_set_prop_eq. cbn. discriminate.
  - unfold when at 1. cbn [isUndefined]. unfold bind at 1, ret at 1. cbv beta iota.
    unfold bind at 1. unfold readKey at 1. unfold bind at 1, getQuery at 1, ret at 1.
    cbv beta iota. rewrite Ep. cbn [isObject isArray isFunction negb orb].
    intros E.
    pose proof (safe_forEach inLoop notOfTheEngine (forgePopulate u ets) (keys d)
                  (fun k s0 => forgePopulate_inLoop normal u ets k s0) s) as H.
    rewrite E in H. apply H. repeat split; try assumption. now rewrite Ep.
Qed.

Lemma forgeCriteria_returns u m ets s s' :
  forgeCriteria u m ets s = (Ok tt, s') ->
  isDictionary (prop (query s') "criteria") = true
  /\ isArray (field (prop (query s') "criteria") "select") = true.
Proof.
  destruct s as [q t].
  destruct (incompatibleClause (prop q "criteria") m) eqn:Ei;
    [rewrite forgeCriteria_incompatible by assumption; discriminate|].
  rewrite forgeCriteria_compatible by assumption.
  destruct (normalizeCriteria (rawCriteria q) u ets) as [c'|e] eqn:En; [|discriminate].
  intros [= <-]. cbn [query]. rewrite prop_set_prop_eq. exact (normal _ _ _ _ En).
Qed.

Lemma forgeCriteria_notOfTheEngine u m ets :
  safe (fun _ => True) notOfTheEngine (forgeCriteria u m ets).
Proof. unfold forgeCriteria. safe_auto. Qed.

Lemma afterPopulates_notOfTheEngine u W ets ks :
  safe (fun _ => True) notOfTheEngine
    (run when (contains_str ks "numericAttrName") (forgeNumericAttrName u);
     run when (contains_str ks "eachRecordFn" || contains_str ks "eachBatchFn")
           forgeStreamIteratee;
     run when (contains_str ks "newRecord") (forgeNewRecord u ets);
     run when (contains_str ks "newRecords") (forgeNewRecords u ets);
     run when (contains_str ks "valuesToSet") (forgeValuesToSet u ets);
     run when (contains_str ks "targetRecordIds") (forgeTargetRecordIds u W);
     run when (contains_str ks "collectionAttrName") (forgeCollectionAttrName u);
     run when (contains_str ks "associatedIds") (forgeAssociatedIds u);
     ret tt).
Proof. unfold_blocks. safe_auto. Qed.

End EngineBlocks.

(** X10. Provided that the normal forms of [normalizeCriteria] are dictionaries
    that carry a [select] array, forging never ends in an error of the
    engine: no property is read from [undefined] or [null] and nothing is
    pushed to what is not an array. *)
Theorem no_engine_error_on_normal_forms {deps : Dependencies} q :
  normalFormsAreDictionaries ->
  fst (forge q) <> Err TypeError.
Proof.
  intros normal.
  destruct (essentials_or_untouched q) as [(u & m & W & ks & He)|(e & t & -> & _ & _ & Hne)];
    [|cbn; congruence].
  rewrite (forge_essentials _ _ _ _ _ He). unfold forgeQueryKeys.
  set (ets := ensureTypeSafetyOf (prop q "meta")).
  set (s0 := {| query := q; trace := _ |}).
  unfold bind at 1.
  destruct (when (contains_str ks "criteria") (forgeCriteria (VStr u) m ets) s0)
    as [[[]|e] s1] eqn:E0.
  2:{ cbn. intros [= ->]. unfold when in E0. destruct (contains_str ks "criteria");
        [|discriminate].
      pose proof (forgeCriteria_notOfTheEngine (VStr u) m ets s0 Logic.I) as H.
      rewrite E0 in H. now apply H. }
  unfold bind at 1.
  destruct (when (contains_str ks "populates") (forgePopulates (VStr u) ets) s1)
    as [[[]|e] s2] eqn:E1.
  2:{ cbn. intros [= ->]. unfold when in E0, E1.
      destruct (contains_str ks "populates") eqn:Ep; [|discriminate].
      rewrite (populates_with_criteria _ _ (pe_keys _ _ _ _ _ He) Ep) in E0.
      destruct (forgeCriteria_returns normal _ _ _ _ _ E0) as [Hd Hsel].
      now apply (forgePopulates_notOfTheEngine normal _ _ _ _ _ Hd Hsel E1). }
  pose proof (afterPopulates_notOfTheEngine (VStr u) W ets ks s2 Logic.I) as H.
  destruct (bind _ _ s2) as [[[]|e] s3]; cbn; [discriminate|].
  intros [= ->]. now apply H.
Qed.

(** ** The errors of the criteria *)

(** X11. An error of [normalizeCriteria] is never passed through as it is: the
    code [E_HIGHLY_IRREGULAR] becomes the typed [E_INVALID_CRITERIA], every
    other error a consistency violation. The query is by then no longer as
    it was: a criteria that was left undefined has been replaced by [{}]. *)
Theorem an_error_of_the_criteria_is_never_passed_through {deps : Dependencies}
    q u m WLModel ks e :
  passesEssentials q u m WLModel ks ->
  contains_str ks "criteria" = true ->
  incompatibleClause (prop q "criteria") m = false ->
  normalizeCriteria (rawCriteria q) (VStr u) (ensureTypeSafetyOf (prop q "meta")) = Err e ->
  forge q = (Err (criteriaHandler e),
             {| query := criteriaDefaulted q;
                trace := [ CallGetModel (VStr u);
                           CallNormalizeCriteria (rawCriteria q) (VStr u) ] |})
  /\ (is_usage_error (criteriaHandler e) = true <-> code e = "E_HIGHLY_IRREGULAR")
  /\ (forall e', criteriaHandler e <> Rethrown e').
Proof.
  intros He Hc Hi Hn. split; [|split].
  - rewrite (forge_essentials _ _ _ _ _ He). unfold forgeQueryKeys.
    unfold bind at 1. rewrite Hc. unfold when at 1.
    rewrite forgeCriteria_compatible by assumption. rewrite Hn. reflexivity.
  - unfold criteriaHandler, on_codes, contains_str. cbn [existsb].
    rewrite !orb_false_r. destruct (String.eqb_spec (code e) "E_HIGHLY_IRREGULAR") as [->|Hne].
    + cbn. tauto.
    + destruct (String.eqb (code e) "E_WOULD_RESULT_IN_NOTHING"); cbn;
        split; intros; congruence.
  - intros e'. unfold criteriaHandler, on_codes.
    repeat destruct (contains_str _ _); discriminate.
Qed.

(** ** The checks of the essentials *)

(** X12. Unless the query passes the checks of the essentials, forging throws
    and leaves the query as it was; it has then called nothing, or
    [getModel] alone, and what it throws is [E_INVALID_META] or an error
    that is not a typed usage error. *)
Theorem a_query_that_fails_the_essentials_is_left_as_it_was {deps : Dependencies} q :
  (exists u m WLModel ks, passesEssentials q u m WLModel ks)
  \/ (exists e t, forge q = (Err e, {| query := q; trace := t |})
                  /\ (t = [] \/ t = [ CallGetModel (prop q "using") ])
                  /\ (forall c, e = UsageError c -> c = E_INVALID_META)).
Proof.
  destruct (essentials_or_untouched q) as [H|(e & t & H1 & H2 & H3 & _)]; [now left|].
  right. exists e, t. auto.
Qed.

(** ** Sample queries *)

Definition sampleModel : ModelDef := {| primaryKey := VStr "id" |}.

(** [{ using: 'user', method: 'stream', eachRecordFn: function }] *)
Definition streamUsers : dict :=
  [ ("using", VStr "user"); ("method", VStr "stream"); ("eachRecordFn", VFun "eachRecordFn") ].

(** [{ using: 'user', method: 'sum', numericAttrName: 'age' }] *)
Definition sumOfAges : dict :=
  [ ("using", VStr "user"); ("method", VStr "sum"); ("numericAttrName", VStr "age") ].

(** [{ using: 'user', method: 'addToCollection', targetRecordIds: '3d',
       collectionAttrName: 'pets', associatedIds: [1, 2] }] *)
Definition addPets : dict :=
  [ ("using", VStr "user"); ("method", VStr "addToCollection");
    ("targetRecordIds", VStr "3d"); ("collectionAttrName", VStr "pets");
    ("associatedIds", VArr [ VNum 1; VNum 2 ]) ].

(** [{ using: 'user', method: 'createEach', newRecords: rs }] *)
Definition createUsers (rs : value) : dict :=
  [ ("using", VStr "user"); ("method", VStr "createEach"); ("newRecords", rs) ].

(** [{ using: 'user', method: 'update', valuesToSet: { age: 32, foo: undefined } }] *)
Definition updateUsers : dict :=
  [ ("using", VStr "user"); ("method", VStr "update");
    ("valuesToSet", VObj [ ("age", VNum 32); ("foo", VUndefined) ]) ].

(** [{ using: 'user', method: 'find', criteria: { select: ['id'] },
       populates: { mom: {}, pets: true, friends: false } }] *)
Definition findWithFamily : dict :=
  [ ("using", VStr "user"); ("method", VStr "find");
    ("criteria", VObj [ ("select", VArr [ VStr "id" ]) ]);
    ("populates", VObj [ ("mom", VObj []); ("pets", VBool true); ("friends", VBool false) ]) ].

(** [{ using: 'user', method: 'find', criteria: { limit: 0 } }] *)
Definition findNothing : dict :=
  [ ("using", VStr "user"); ("method", VStr "find"); ("criteria", VObj [ ("limit", VNum 0) ]) ].

(** The sample ontology with a criteria normalizer that refuses a [select]
    clause that is not an array. *)
Definition strictNormalizeCriteria (c identity : value) (ensureTypeSafety : bool)
    : result exn value :=
  match sampleNormalizeCriteria c identity ensureTypeSafety with
  | Ok c' => if isArray (field c' "select") then Ok c'
             else Err {| code := "E_HIGHLY_IRREGULAR"; message := "" |}
  | Err e => Err e
  end.

Definition strictOrm : Dependencies :=
  {| getModel := sampleGetModel;
     getAttribute := sampleGetAttribute;
     isCapableOfOptimizedPopulate := fun _ _ => Ok false;
     normalizePkValues := sampleNormalizePkValues;
     normalizeCriteria := strictNormalizeCriteria;
     normalizeNewRecord := sampleNormalizeNewRecord;
     normalizeValueToSet := sampleNormalizeValueToSet;
     production := true |}.

Lemma strictOrm_normal : @normalFormsAreDictionaries strictOrm.
Proof.
  intros c identity ets c'. cbn. unfold strictNormalizeCriteria, sampleNormalizeCriteria.
  destruct c as [| | | | | | |d]; try discriminate.
  destruct (is_num 0 (prop d "limit")); [discriminate|].
  match goal with |- context [isArray ?x] => destruct (isArray x) eqn:E end; [|discriminate].
  intros [= <-]. split; [reflexivity | exact E].
Qed.

Lemma forging_rewrites_only_the_keys_of_the_method_witness :
  mayRewrite (createUsers (VArr [ VObj [ ("id", VStr "1") ] ])) "criteria" = false
  /\ prop (query (snd (@forge sampleOrm (createUsers (VArr [ VObj [ ("id", VStr "1") ] ])))))
       "criteria"
     = VUndefined.
Proof.
  split; [reflexivity|].
  apply (@forging_rewrites_only_the_keys_of_the_method sampleOrm
           (createUsers (VArr [ VObj [ ("id", VStr "1") ] ])) "criteria").
  reflexivity.
Defined.

Lemma typed_errors_speak_of_the_keys_of_the_method_witness :
  E_INVALID_NEW_RECORDS = E_INVALID_META
  \/ exists m ks, prop (createUsers VUndefined) "method" = VStr m
                  /\ _getQueryKeys m = Some ks
                  /\ existsb (contains_str ks) (errorKeys E_INVALID_NEW_RECORDS) = true.
Proof.
  apply (@typed_errors_speak_of_the_keys_of_the_method sampleOrm (createUsers VUndefined)
           E_INVALID_NEW_RECORDS (afterEssentials (createUsers VUndefined) "user")).
  reflexivity.
Defined.

Lemma stream_takes_exactly_one_iteratee_witness :
  fst (@forge sampleOrm streamUsers) = Ok tt
  /\ (isFunction (prop streamUsers "eachRecordFn") && isUndefined (prop streamUsers "eachBatchFn"))
     || (isUndefined (prop streamUsers "eachRecordFn")
         && isFunction (prop streamUsers "eachBatchFn")) = true.
Proof.
  split; [vm_compute; reflexivity|].
  apply (@stream_takes_exactly_one_iteratee sampleOrm streamUsers
           (snd (@forge sampleOrm streamUsers))).
  - vm_compute. reflexivity.
  - reflexivity.
Defined.

Lemma sum_and_avg_take_a_numeric_attribute_witness :
  exists n def,
    prop sumOfAges "numericAttrName" = VStr n
    /\ @getAttribute sampleOrm (VStr n) (prop sumOfAges "using") = Ok def
    /\ attr_type def = VStr "number".
Proof.
  apply (@sum_and_avg_take_a_numeric_attribute sampleOrm sumOfAges
           (snd (@forge sampleOrm sumOfAges)) "sum").
  - vm_compute. reflexivity.
  - reflexivity.
  - left. reflexivity.
Defined.

Lemma collection_ids_witness :
  exists WLModel pkAttrDef name associationDef AssociatedModel associatedPkDef ids ids',
    @getModel sampleOrm (prop addPets "using") = Ok WLModel
    /\ @getAttribute sampleOrm (primaryKey WLModel) (prop addPets "using") = Ok pkAttrDef
    /\ @normalizePkValues sampleOrm (prop addPets "targetRecordIds") (attr_type pkAttrDef)
       = Ok ids
    /\ prop addPets "collectionAttrName" = VStr name
    /\ @getAttribute sampleOrm (VStr name) (prop addPets "using") = Ok associationDef
    /\ truthy (attr_collection associationDef) = true
    /\ @getModel sampleOrm (attr_collection associationDef) = Ok AssociatedModel
    /\ @getAttribute sampleOrm (primaryKey AssociatedModel) (attr_collection associationDef)
       = Ok associatedPkDef
    /\ @normalizePkValues sampleOrm (prop addPets "associatedIds") (attr_type associatedPkDef)
       = Ok ids'
    /\ query (snd (@forge sampleOrm addPets))
       = set_prop (set_prop addPets "targetRecordIds" ids) "associatedIds" ids'.
Proof.
  apply (@collection_ids_are_normalized_against_their_primary_keys sampleOrm addPets
           (snd (@forge sampleOrm addPets)) "addToCollection").
  - vm_compute. reflexivity.
  - reflexivity.
  - left. reflexivity.
Defined.

Lemma createEach_witness :
  @forge sampleOrm (createUsers (VArr [ VObj [ ("id", VStr "1") ]; VObj [ ("id", VStr "2") ] ]))
  = (Ok tt,
     {| query := createUsers (VArr [ VObj [ ("id", VStr "1") ]; VObj [ ("id", VStr "2") ] ]);
        trace := [ CallGetModel (VStr "user");
                   CallNormalizeNewRecord (VObj [ ("id", VStr "1") ]);
                   CallNormalizeNewRecord (VObj [ ("id", VStr "2") ]) ] |})
  /\ @forge sampleOrm (createUsers (VArr [ VObj [ ("id", VStr "1") ]; VNum 2;
                                           VObj [ ("id", VStr "3") ] ]))
     = (Err (UsageError E_INVALID_NEW_RECORDS),
        {| query := createUsers (VArr [ VObj [ ("id", VStr "1") ]; VNum 2;
                                        VObj [ ("id", VStr "3") ] ]);
           trace := [ CallGetModel (VStr "user");
                      CallNormalizeNewRecord (VObj [ ("id", VStr "1") ]);
                      CallNormalizeNewRecord (VNum 2) ] |}).
Proof.
  split.
  - apply (proj1 (@createEach_normalizes_every_record_or_none sampleOrm
                    (createUsers (VArr [ VObj [ ("id", VStr "1") ]; VObj [ ("id", VStr "2") ] ]))
                    "user" sampleModel [ "newRecords" ] ltac:(split; reflexivity))
             [ VObj [ ("id", VStr "1") ]; VObj [ ("id", VStr "2") ] ]
             [ VObj [ ("id", VStr "1") ]; VObj [ ("id", VStr "2") ] ]).
    + reflexivity.
    + repeat constructor.
  - apply (proj1 (proj2 (@createEach_normalizes_every_record_or_none sampleOrm
                    (createUsers (VArr [ VObj [ ("id", VStr "1") ]; VNum 2;
                                         VObj [ ("id", VStr "3") ] ]))
                    "user" sampleModel [ "newRecords" ] ltac:(split; reflexivity)))
             [ VObj [ ("id", VStr "1") ] ] (VNum 2) [ VObj [ ("id", VStr "3") ] ]
             [ VObj [ ("id", VStr "1") ] ]
             {| code := "E_HIGHLY_IRREGULAR"; message := "" |}).
    + reflexivity.
    + repeat constructor.
    + reflexivity.
Defined.

Lemma update_sets_the_normalized_values_witness :
  prop (query (snd (@forge sampleOrm updateUsers))) "valuesToSet" = VObj [ ("age", VNum 32) ]
  /\ exists d,
       prop updateUsers "valuesToSet" = VObj d
       /\ forall k, @valueSet sampleOrm (prop updateUsers "using")
                      (ensureTypeSafetyOf (prop updateUsers "meta")) d k
                      (prop (query (snd (@forge sampleOrm updateUsers))) "valuesToSet").
Proof.
  split; [vm_compute; reflexivity|].
  apply (@update_sets_the_normalized_values sampleOrm updateUsers
           (snd (@forge sampleOrm updateUsers))).
  - vm_compute. reflexivity.
  - reflexivity.
Defined.

Lemma forged_populates_witness :
  keys match prop (query (snd (@forge sampleOrm findWithFamily))) "populates" with
       | VObj d => d
       | _ => []
       end = [ "mom"; "pets" ]
  /\ field (prop (query (snd (@forge sampleOrm findWithFamily))) "populates") "mom" = VBool true
  /\ @populateForged sampleOrm (prop findWithFamily "using")
       (ensureTypeSafetyOf (prop findWithFamily "meta"))
       (field (prop findWithFamily "populates") "friends") "friends"
       (field (prop (query (snd (@forge sampleOrm findWithFamily))) "populates") "friends")
       (hasOwn (prop (query (snd (@forge sampleOrm findWithFamily))) "populates") "friends")
  /\ @populateForged sampleOrm (prop findWithFamily "using")
       (ensureTypeSafetyOf (prop findWithFamily "meta"))
       (field (prop findWithFamily "populates") "pets") "pets"
       (field (prop (query (snd (@forge sampleOrm findWithFamily))) "populates") "pets")
       (hasOwn (prop (query (snd (@forge sampleOrm findWithFamily))) "populates") "pets").
Proof.
  split; [vm_compute; reflexivity|]. split; [vm_compute; reflexivity|].
  split.
  - apply (@forged_populates_are_true_or_normalized sampleOrm findWithFamily
             (snd (@forge sampleOrm findWithFamily)) "find").
    + vm_compute. reflexivity.
    + reflexivity.
    + left. reflexivity.
  - apply (@forged_populates_are_true_or_normalized sampleOrm findWithFamily
             (snd (@forge sampleOrm findWithFamily)) "find").
    + vm_compute. reflexivity.
    + reflexivity.
    + left. reflexivity.
Defined.

Lemma populated_attributes_are_selected_witness :
  field (prop (query (snd (@forge sampleOrm findWithFamily))) "criteria") "select"
  = VArr [ VStr "id"; VStr "mom"; VStr "pets" ]
  /\ exists c' ys,
       @normalizeCriteria sampleOrm (rawCriteria findWithFamily) (prop findWithFamily "using")
         (ensureTypeSafetyOf (prop findWithFamily "meta")) = Ok c'
       /\ (forall f, f <> "select" ->
             field (prop (query (snd (@forge sampleOrm findWithFamily))) "criteria") f
             = field c' f)
       /\ appended (field c' "select")
            (field (prop (query (snd (@forge sampleOrm findWithFamily))) "criteria") "select")
            ys
       /\ (forall y, List.In y ys ->
             isLive (field (prop findWithFamily "populates") y) = true)
       /\ (forall k, isLive (field (prop findWithFamily "populates") k) = true ->
             selects (field (prop (query (snd (@forge sampleOrm findWithFamily))) "criteria")
                        "select") k = true).
Proof.
  split; [vm_compute; reflexivity|].
  apply (@populated_attributes_are_selected sampleOrm findWithFamily
           (snd (@forge sampleOrm findWithFamily)) "find").
  - vm_compute. reflexivity.
  - reflexivity.
  - left. reflexivity.
Defined.

Lemma no_engine_error_witness :
  fst (@forge strictOrm findWithFamily) = Ok tt
  /\ fst (@forge strictOrm findWithFamily) <> Err TypeError.
Proof.
  split; [vm_compute; reflexivity|].
  apply (@no_engine_error_on_normal_forms strictOrm findWithFamily).
  exact strictOrm_normal.
Defined.

Lemma an_error_of_the_criteria_witness :
  @forge sampleOrm findNothing
  = (Err (ConsistencyViolation CriteriaMatchesNothing),
     {| query := findNothing;
        trace := [ CallGetModel (VStr "user");
                   CallNormalizeCriteria (VObj [ ("limit", VNum 0) ]) (VStr "user") ] |}).
Proof.
  apply (proj1 (@an_error_of_the_criteria_is_never_passed_through sampleOrm findNothing
                  "user" "find" sampleModel [ "criteria"; "populates" ]
                  {| code := "E_WOULD_RESULT_IN_NOTHING"; message := "" |}
                  ltac:(split; reflexivity) eq_refl eq_refl eq_refl)).
Defined.

(** ** Production *)

(** The dependencies [deps], in production or not. *)
Definition withProduction (b : bool) (deps : Dependencies) : Dependencies :=
  {| getModel := @getModel deps;
     getAttribute := @getAttribute deps;
     isCapableOfOptimizedPopulate := @isCapableOfOptimizedPopulate deps;
     normalizePkValues := @normalizePkValues deps;
     normalizeCriteria := @normalizeCriteria deps;
     normalizeNewRecord := @normalizeNewRecord deps;
     normalizeValueToSet := @normalizeValueToSet deps;
     production := b |}.

(** The events of the check that is made in production only. *)
Definition ofProduction (ev : event) : bool :=
  match ev with
  | CallIsCapable _ _ | ConsoleWarn _ => true
  | _ => false
  end.

Definition withoutProduction (t : list event) : list event :=
  List.filter (fun ev => negb (ofProduction ev)) t.

(** The state [sp] of a run in production and the state [sd] of a run out
    of production are alike: the same query, the same calls but for those
    of the check of production. *)
Definition alike (sp sd : state) : Prop :=
  query sp = query sd /\ withoutProduction (trace sp) = trace sd.

(** From states that are alike, the first of which satisfies [I], the two
    computations end alike, with the same outcome, and [I] still holds. *)
Definition agree {A} (I : state -> Prop) (mp md : M A) : Prop :=
  forall sp sd, alike sp sd -> I sp ->
    fst (mp sp) = fst (md sd) /\ alike (snd (mp sp)) (snd (md sd)) /\ I (snd (mp sp)).

Section Agree.
Context (I : state -> Prop).
Hypothesis emit_keeps : forall s ev, I s -> I (emitted s ev).

Lemma agree_ret {A} (a : A) : agree I (ret a) (ret a).
Proof. intros sp sd H Hi. auto. Qed.

Lemma agree_throw {A} e : agree I (@throw A e) (throw e).
Proof. intros sp sd H Hi. auto. Qed.

Lemma agree_getQuery : agree I getQuery getQuery.
Proof. intros sp sd [Hq Ht] Hi. cbn. rewrite Hq. repeat split; assumption. Qed.

Lemma agree_bind {A B} (mp md : M A) (fp fd : A -> M B) :
  agree I mp md -> (forall a, agree I (fp a) (fd a)) -> agree I (bind mp fp) (bind md fd).
Proof.
  intros Hm Hf sp sd H Hi. unfold bind. specialize (Hm sp sd H Hi).
  destruct (mp sp) as [[a|e] sp'], (md sd) as [[a'|e'] sd']; cbn in Hm;
    destruct Hm as (Hr & Ha & Hi'); try discriminate Hr.
  - injection Hr as <-. apply Hf; assumption.
  - injection Hr as <-. auto.
Qed.

Lemma agree_emit ev : ofProduction ev = false -> agree I (emit ev) (emit ev).
Proof.
  intros Hev sp sd [Hq Ht] Hi. cbn. split; [reflexivity|]. split; [|apply emit_keeps, Hi].
  split; [assumption|]. cbn. unfold withoutProduction in *.
  rewrite List.filter_app, Ht. cbn. now rewrite Hev.
Qed.

Lemma agree_writeKey k v :
  (forall s, I s -> I {| query := set_prop (query s) k v; trace := trace s |}) ->
  agree I (writeKey k v) (writeKey k v).
Proof.
  intros H sp sd [Hq Ht] Hi. cbn. rewrite Hq.
  split; [reflexivity | split; [split; [reflexivity | assumption]|]].
  rewrite <- Hq. apply H, Hi.
Qed.

Lemma agree_tryCall {A} ev (r : result exn A) handler :
  ofProduction ev = false -> agree I (tryCall ev r handler) (tryCall ev r handler).
Proof.
  intros Hev. unfold tryCall. apply agree_bind; [now apply agree_emit | intros _].
  destruct r; [apply agree_ret | apply agree_throw].
Qed.

Lemma agree_forEach {A} (fp fd : A -> M unit) xs :
  (forall x, agree I (fp x) (fd x)) -> agree I (forEach fp xs) (forEach fd xs).
Proof.
  intros Hf. induction xs as [|x xs IH]; cbn [forEach].
  - apply agree_ret.
  - apply agree_bind; [apply Hf | intros _; apply IH].
Qed.

Lemma agree_mapM {A B} (fp fd : A -> M B) xs :
  (forall x, agree I (fp x) (fd x)) -> agree I (mapM fp xs) (mapM fd xs).
Proof.
  intros Hf. induction xs as [|x xs IH]; cbn [mapM].
  - apply agree_ret.
  - apply agree_bind; [apply Hf | intros y].
    apply agree_bind; [apply IH | intros ys; apply agree_ret].
Qed.

End Agree.

Ltac agree_step :=
  match goal with
  | |- agree _ (bind _ _) (bind _ _) => apply agree_bind; [ | intros ? ]
  | |- agree _ (ret _) (ret _) => apply agree_ret
  | |- agree _ (throw _) (throw _) => apply agree_throw
  | |- agree _ getQuery getQuery => apply agree_getQuery
  | |- agree _ (emit _) (emit _) => apply agree_emit; [ | reflexivity ]
  | |- agree _ (writeKey _ _) (writeKey _ _) => apply agree_writeKey
  | |- agree _ (tryCall _ _ _) (tryCall _ _ _) => apply agree_tryCall; [ | reflexivity ]
  | |- agree _ (call _ _) (call _ _) => unfold call; apply agree_tryCall; [ | reflexivity ]
  | |- agree _ (forEach _ _) (forEach _ _) => apply agree_forEach; intros ?
  | |- agree _ (mapM _ _) (mapM _ _) => apply agree_mapM; intros ?
  | |- agree _ (if ?c then _ else _) (if ?c then _ else _) => destruct c
  | |- agree _ (match ?c with _ => _ end) (match ?c with _ => _ end) => destruct c
  | |- agree _ (when _ _) (when _ _) => unfold when
  | |- agree _ (readKey _) (readKey _) => unfold readKey
  | |- agree _ (member _ _) (member _ _) => unfold member
  | |- agree _ (first_elem _) (first_elem _) => unfold first_elem
  end.

(** [populates] is a dictionary. *)
Definition populatesIsDictionary (s : state) : Prop :=
  isDictionary (prop (query s) "populates") = true.

Lemma populatesIsDictionary_emit s ev :
  populatesIsDictionary s -> populatesIsDictionary (emitted s ev).
Proof. intros H. exact H. Qed.

Lemma populatesIsDictionary_other s k v :
  k <> "populates" ->
  populatesIsDictionary s ->
  populatesIsDictionary {| query := set_prop (query s) k v; trace := trace s |}.
Proof. intros Hk H. unfold populatesIsDictionary. cbn. now rewrite prop_set_prop_ne. Qed.

Lemma agree_writePopulate k v :
  agree populatesIsDictionary (writePopulate k v) (writePopulate k v).
Proof.
  intros sp sd [Hq Ht] Hi. unfold writePopulate. mrun. rewrite Hq.
  split; [reflexivity | split; [split; [reflexivity | assumption]|]].
  unfold populatesIsDictionary in *. cbn. rewrite prop_set_prop_eq. rewrite <- Hq.
  apply dictionary_inv in Hi as [d ->]. reflexivity.
Qed.

Lemma agree_deletePopulate k :
  agree populatesIsDictionary (deletePopulate k) (deletePopulate k).
Proof.
  intros sp sd [Hq Ht] Hi. unfold deletePopulate. mrun. rewrite Hq.
  split; [reflexivity | split; [split; [reflexivity | assumption]|]].
  unfold populatesIsDictionary in *. cbn. rewrite prop_set_prop_eq. rewrite <- Hq.
  apply dictionary_inv in Hi as [d ->]. reflexivity.
Qed.

Ltac agree_auto :=
  repeat first
    [ apply agree_writePopulate
    | apply agree_deletePopulate
    | agree_step
    | solve [ auto using populatesIsDictionary_emit ]
    | solve [ intros; apply populatesIsDictionary_other; [ discriminate | assumption ] ] ].

(** A subcriteria that is potentially dangerous for an association that is
    not capable of an optimized populate: its normal form [sub] skips or
    limits, or the subcriteria [rhs] named a [sort]. *)
Definition isPotentiallyDangerous (sub rhs : value) : bool :=
  negb (is_num 0 (field sub "skip")) || negb (is_num MAX_SAFE_INTEGER (field sub "limit"))
  || negb (negb (isObject rhs) || isUndefined (field rhs "sort")
           || isEmptyArray (field rhs "sort")).

(** The run of the block of a plural association, in a state whose
    [populates] is the dictionary [p]. *)
Lemma forgePluralPopulate_run {deps : Dependencies} (normal : normalFormsAreDictionaries)
    u ets other k q t p :
  prop q "populates" = VObj p ->
  let rhs := if is_true (prop p k) then VObj [] else prop p k in
  let p1 := if is_true (prop p k) then set_prop p k (VObj []) else p in
  let q1 := if is_true (prop p k) then set_prop q "populates" (VObj p1) else q in
  let t1 := t ++ [ CallNormalizeCriteria rhs other ] in
  forgePluralPopulate u ets other k {| query := q; trace := t |}
  = match normalizeCriteria rhs other ets with
    | Err e => (Err (subcriteriaHandler k e), {| query := q1; trace := t1 |})
    | Ok sub =>
        let q2 := set_prop q1 "populates" (VObj (set_prop p1 k sub)) in
        if production
        then match isCapableOfOptimizedPopulate k u with
             | Err e => (Err (Rethrown e),
                         {| query := q2; trace := t1 ++ [ CallIsCapable k u ] |})
             | Ok b => (Ok tt,
                        {| query := q2;
                           trace := (t1 ++ [ CallIsCapable k u ])
                                    ++ (if negb b && isPotentiallyDangerous sub rhs
                                        then [ ConsoleWarn k ] else []) |})
             end
        else (Ok tt, {| query := q2; trace := t1 |})
    end.
Proof.
  intros Hp rhs p1 q1 t1.
  unfold forgePluralPopulate. unfold bind at 1. rewrite readPopulate_run.
  cbn [query]. rewrite Hp. cbn [field].
  assert (Hw : when (is_true (prop p k)) (writePopulate k (VObj [])) {| query := q; trace := t |}
               = (Ok tt, {| query := q1; trace := t |})).
  { unfold when, q1, p1. destruct (is_true (prop p k)); [|reflexivity].
    now rewrite (writePopulate_run _ _ _ p) by exact Hp. }
  assert (Hp1 : prop q1 "populates" = VObj p1).
  { unfold q1, p1. destruct (is_true (prop p k)); [apply prop_set_prop_eq | exact Hp]. }
  assert (Hrhs : prop p1 k = rhs).
  { unfold p1, rhs. destruct (is_true (prop p k)); [apply prop_set_prop_eq | reflexivity]. }
  unfold bind at 1. rewrite Hw.
  unfold bind at 1. rewrite readPopulate_run. cbn [query]. rewrite Hp1. cbn [field].
  rewrite Hrhs. unfold bind at 1.
  destruct (normalizeCriteria rhs other ets) as [sub|e] eqn:En;
    [rewrite tryCall_Ok | rewrite tryCall_Err; reflexivity].
  destruct (normal _ _ _ _ En) as [Hsub _]. apply dictionary_inv in Hsub as [d Hd].
  unfold bind at 1. unfold emitted. cbn [query trace].
  rewrite (writePopulate_run _ _ _ p1) by exact Hp1. cbn [query trace].
  unfold when at 1, call. destruct production; [|reflexivity].
  unfold bind at 1.
  destruct (isCapableOfOptimizedPopulate k u) as [b|e];
    [rewrite tryCall_Ok | rewrite tryCall_Err; reflexivity].
  unfold emitted. cbn [query trace]. fold t1.
  unfold when at 1. destruct b; cbn [negb andb]; [now rewrite app_nil_r|].
  unfold bind at 1. rewrite readPopulate_run. cbn [query].
  rewrite prop_set_prop_eq. cbn [field]. rewrite prop_set_prop_eq.
  unfold isPotentiallyDangerous. rewrite Hd. mrun.
  destruct (_ || _); cbn; [reflexivity | now rewrite app_nil_r].
Qed.

Section Production.
Context {deps : Dependencies}.
Hypothesis normal : normalFormsAreDictionaries.
Hypothesis capable : forall k u, exists b, isCapableOfOptimizedPopulate k u = Ok b.

Let inProduction : Dependencies := withProduction true deps.
Let outOfProduction : Dependencies := withProduction false deps.

Lemma withoutProduction_app t t' :
  withoutProduction (t ++ t') = withoutProduction t ++ withoutProduction t'.
Proof. apply List.filter_app. Qed.

Lemma plural_agree u ets other k :
  agree populatesIsDictionary
    (@forgePluralPopulate inProduction u ets other k)
    (@forgePluralPopulate outOfProduction u ets other k).
Proof.
  intros [q tp] [qd td] [Hq Ht] Hi. cbn [query trace] in Hq, Ht. subst qd td.
  pose proof Hi as Hi'. apply dictionary_inv in Hi' as [p Hp]. cbn in Hp.
  rewrite (@forgePluralPopulate_run inProduction normal u ets other k q tp p Hp).
  rewrite (@forgePluralPopulate_run outOfProduction normal u ets other k q
             (withoutProduction tp) p Hp).
  cbn [normalizeCriteria isCapableOfOptimizedPopulate production inProduction
         outOfProduction withProduction].
  cbv zeta.
  destruct (normalizeCriteria _ other ets) as [sub|e].
  - destruct (capable k u) as [b ->]. cbn [fst snd].
    split; [reflexivity | split; [split|]].
    + reflexivity.
    + cbn [trace]. rewrite !withoutProduction_app. cbn.
      destruct (negb b && _); cbn; now rewrite !app_nil_r.
    + unfold populatesIsDictionary. cbn. now rewrite prop_set_prop_eq.
  - cbn [fst snd]. split; [reflexivity | split; [split|]].
    + reflexivity.
    + cbn [trace]. rewrite withoutProduction_app. reflexivity.
    + unfold populatesIsDictionary. cbn.
      destruct (is_true (prop p k)); [now rewrite prop_set_prop_eq | exact Hi].
Qed.

Lemma forgePopulate_agree u ets k :
  agree populatesIsDictionary
    (@forgePopulate inProduction u ets k) (@forgePopulate outOfProduction u ets k).
Proof.
  unfold forgePopulate, forgeSingularPopulate, lookupAssociation, checkNotOmitted,
    includeInSelect, checkNotSorted, readPopulate.
  cbn [getAttribute inProduction outOfProduction withProduction].
  repeat first [ apply plural_agree | progress agree_auto ].
Qed.

Lemma forgePopulates_agree u ets :
  agree (fun _ => True)
    (@forgePopulates inProduction u ets) (@forgePopulates outOfProduction u ets).
Proof.
  intros [q tp] [qd td] [Hq Ht] _. cbn [query trace] in Hq, Ht. subst qd td.
  unfold forgePopulates.
  cbv [bind readKey getQuery ret when writeKey putQuery throw]. cbn [query trace].
  destruct (prop q "populates") as [| | | | | | |d] eqn:Ep;
    repeat (progress (cbn [query trace isUndefined isObject isArray isFunction negb orb
                             fst snd];
                      rewrite ?prop_set_prop_eq, ?Ep));
    try change (keys []) with (@nil string); cbn [forEach fst snd];
    try (split; [reflexivity | split; [split; reflexivity | exact Logic.I]]).
  pose proof (agree_forEach populatesIsDictionary
                (@forgePopulate inProduction u ets) (@forgePopulate outOfProduction u ets)
                (keys d) (forgePopulate_agree u ets)
                {| query := q; trace := tp |}
                {| query := q; trace := withoutProduction tp |}) as H.
  destruct H as (Hr & Ha & _); [split; reflexivity | unfold populatesIsDictionary; cbn;
                                                     now rewrite Ep |].
  split; [exact Hr | split; [exact Ha | exact Logic.I]].
Qed.

Lemma forgeStageTwoQuery_agree :
  agree (fun _ => True) (@forgeStageTwoQuery inProduction) (@forgeStageTwoQuery outOfProduction).
Proof.
  unfold forgeStageTwoQuery, checkMeta, checkUsing, lookupModel, checkMethod, getQueryKeys,
    checkKeys, forgeQueryKeys, forgeCriteria, forgeNumericAttrName, forgeStreamIteratee,
    forgeNewRecord, forgeNewRecords, forgeValuesToSet, forgeValueToSet, forgeTargetRecordIds,
    forgeCollectionAttrName, forgeAssociatedIds.
  cbn [getModel getAttribute normalizePkValues normalizeCriteria normalizeNewRecord
         normalizeValueToSet inProduction outOfProduction withProduction].
  repeat first [ apply forgePopulates_agree | agree_step | solve [ auto ] ].
Qed.

End Production.

(** X13. In production forging makes one more check, which can only warn. With
    normal forms that are dictionaries and an [isCapableOfOptimizedPopulate]
    that does not throw, forging in production and forging out of
    production end with the same outcome and the same query, after the same
    calls into the dependencies but for [isCapableOfOptimizedPopulate] and
    the warnings. *)
Theorem production_only_adds_the_warnings {deps : Dependencies} q :
  normalFormsAreDictionaries ->
  (forall k u, exists b, isCapableOfOptimizedPopulate k u = Ok b) ->
  let inProduction := @forge (withProduction true deps) q in
  let outOfProduction := @forge (withProduction false deps) q in
  fst inProduction = fst outOfProduction
  /\ query (snd inProduction) = query (snd outOfProduction)
  /\ withoutProduction (trace (snd inProduction)) = trace (snd outOfProduction).
Proof.
  intros normal capable.
  destruct (forgeStageTwoQuery_agree normal capable
              {| query := q; trace := [] |} {| query := q; trace := [] |})
    as (Hr & [Hq Ht] & _); [split; reflexivity | exact Logic.I |].
  cbv zeta. unfold forge. auto.
Qed.

(** ** The criteria and the new record of the other methods *)

(** The methods that accept a criteria and no populate directives. *)
Definition criteriaMethods : list string :=
  [ "count"; "sum"; "avg"; "findOrCreate"; "update"; "destroy" ].

Lemma criteria_normal_form {deps : Dependencies} q sf m u :
  forge q = (Ok tt, sf) ->
  prop q "method" = VStr m ->
  List.In m criteriaMethods ->
  prop q "using" = VStr u ->
  normalizeCriteria (rawCriteria q) (VStr u) (ensureTypeSafetyOf (prop q "meta"))
  = Ok (prop (query sf) "criteria").
Proof.
  intros Hf Hm Hin Hu. destruct (forge_returns _ _ Hf) as (u' & m' & W & ks & He & Hb).
  pose proof (pe_method _ _ _ _ _ He) as Hm'. rewrite Hm in Hm'. injection Hm' as <-.
  pose proof (pe_using _ _ _ _ _ He) as Hu'. rewrite Hu in Hu'. injection Hu' as <-.
  pose proof (pe_keys _ _ _ _ _ He) as Hks.
  set (ets := ensureTypeSafetyOf (prop q "meta")) in *.
  at_block Hb 0%nat. injection Hpre as <-.
  assert (Hblock' : forgeCriteria (VStr u) m ets (afterEssentials q u) = (Ok tt, s2)
                    /\ contains_str ks "populates" = false).
  { unfold criteriaMethods in Hin. cbn [List.In] in Hin.
    repeat destruct Hin as [<-|Hin]; try contradiction;
      vm_compute in Hks; injection Hks as <-; tests Hblock; split;
      first [ exact Hblock | reflexivity ]. }
  destruct Hblock' as [Hcrit Hnp]. clear Hblock.
  assert (H2 : prop (query sf) "criteria" = prop (query s2) "criteria") by kept Hpost.
  rewrite H2. unfold afterEssentials in Hcrit.
  destruct (incompatibleClause (prop q "criteria") m) eqn:Ei;
    [rewrite forgeCriteria_incompatible in Hcrit by assumption; discriminate|].
  rewrite forgeCriteria_compatible in Hcrit by assumption.
  destruct (normalizeCriteria (rawCriteria q) (VStr u) ets) as [c'|e] eqn:En; [|discriminate].
  injection Hcrit as <-. cbn [query]. now rewrite prop_set_prop_eq.
Qed.

(** X14. When a query of a method that accepts a criteria and no [populates] has
    been forged, its criteria is the normal form of the criteria that it
    had, of [{}] if it had none. *)
Theorem criteria_is_replaced_by_its_normal_form {deps : Dependencies} q sf m :
  forge q = (Ok tt, sf) ->
  prop q "method" = VStr m ->
  List.In m criteriaMethods ->
  normalizeCriteria (rawCriteria q) (prop q "using") (ensureTypeSafetyOf (prop q "meta"))
  = Ok (prop (query sf) "criteria").
Proof.
  intros Hf Hm Hin.
  destruct (essentials_or_untouched q) as [(u & m' & W & ks & He)|(e & t & E & _)];
    [|rewrite E in Hf; discriminate].
  rewrite (pe_using _ _ _ _ _ He).
  apply (criteria_normal_form q sf m u Hf Hm Hin). apply (pe_using _ _ _ _ _ He).
Qed.

(** X15. When a [create] or a [findOrCreate] query has been forged, its new
    record is the normal form of the new record that it had. *)
Theorem new_record_is_replaced_by_its_normal_form {deps : Dependencies} q sf m :
  forge q = (Ok tt, sf) ->
  prop q "method" = VStr m ->
  m = "create" \/ m = "findOrCreate" ->
  normalizeNewRecord (prop q "newRecord") (prop q "using") (ensureTypeSafetyOf (prop q "meta"))
  = Ok (prop (query sf) "newRecord").
Proof.
  intros Hf Hm Hin. destruct (forge_returns _ _ Hf) as (u & m' & W & ks & He & Hb).
  pose proof (pe_method _ _ _ _ _ He) as Hm'. rewrite Hm in Hm'. injection Hm' as <-.
  pose proof (pe_keys _ _ _ _ _ He) as Hks. rewrite (pe_using _ _ _ _ _ He).
  set (ets := ensureTypeSafetyOf (prop q "meta")) in *.
  at_block Hb 4%nat.
  assert (H1 : prop (query s1) "newRecord" = prop q "newRecord") by kept Hpre.
  assert (H2 : prop (query sf) "newRecord" = prop (query s2) "newRecord").
  { assert (Hnr : contains_str ks "newRecords" = false)
      by (destruct Hin as [-> | ->]; vm_compute in Hks; injection Hks as <-; reflexivity).
    kept Hpost. }
  assert (Hblock' : forgeNewRecord (VStr u) ets s1 = (Ok tt, s2)).
  { destruct Hin as [-> | ->]; vm_compute in Hks; injection Hks as <-; tests Hblock;
      exact Hblock. }
  clear Hblock. unfold forgeNewRecord in Hblock'.
  apply bind_returns in Hblock' as (r0 & s1a & Hr0 & Hblock').
  revert Hr0. mrun. intros [= <- <-]. rewrite H1 in Hblock'.
  apply bind_returns in Hblock' as (r & s1b & Hr & Hw).
  apply tryCall_returns in Hr as [Hr ->]. revert Hw. mrun. intros [= <-].
  rewrite H2. cbn [query]. now rewrite prop_set_prop_eq.
Qed.

(** [{ using: 'user', method: 'count' }] *)
Definition countUsers : dict := [ ("using", VStr "user"); ("method", VStr "count") ].

(** [{ using: 'user', method: 'create', newRecord: { id: '3', age: 32 } }] *)
Definition createUser : dict :=
  [ ("using", VStr "user"); ("method", VStr "create");
    ("newRecord", VObj [ ("id", VStr "3"); ("age", VNum 32) ]) ].

(** [{ using: 'user', method: 'find', populates: { pets: { sort: [{ id: 'DESC' }] } } }] *)
Definition findWithSortedPets : dict :=
  [ ("using", VStr "user"); ("method", VStr "find");
    ("populates", VObj [ ("pets", VObj [ ("sort", VArr [ VObj [ ("id", VStr "DESC") ] ]) ]) ]) ].

Lemma criteria_is_replaced_by_its_normal_form_witness :
  prop (query (snd (@forge sampleOrm countUsers))) "criteria"
  = VObj [ ("where", VObj []); ("limit", VNum MAX_SAFE_INTEGER); ("skip", VNum 0);
           ("sort", VArr [ VObj [ ("id", VStr "ASC") ] ]); ("select", VArr [ VStr "*" ]);
           ("omit", VArr []) ]
  /\ @normalizeCriteria sampleOrm (rawCriteria countUsers) (prop countUsers "using")
       (ensureTypeSafetyOf (prop countUsers "meta"))
     = Ok (prop (query (snd (@forge sampleOrm countUsers))) "criteria").
Proof.
  split; [vm_compute; reflexivity|].
  apply (@criteria_is_replaced_by_its_normal_form sampleOrm countUsers
           (snd (@forge sampleOrm countUsers)) "count").
  - vm_compute. reflexivity.
  - reflexivity.
  - left. reflexivity.
Defined.

Lemma new_record_is_replaced_by_its_normal_form_witness :
  @normalizeNewRecord sampleOrm (prop createUser "newRecord") (prop createUser "using")
    (ensureTypeSafetyOf (prop createUser "meta"))
  = Ok (prop (query (snd (@forge sampleOrm createUser))) "newRecord").
Proof.
  apply (@new_record_is_replaced_by_its_normal_form sampleOrm createUser
           (snd (@forge sampleOrm createUser)) "create").
  - vm_compute. reflexivity.
  - reflexivity.
  - left. reflexivity.
Defined.

Lemma production_only_adds_the_warnings_witness :
  trace (snd (@forge (withProduction true strictOrm) findWithSortedPets))
  = trace (snd (@forge (withProduction false strictOrm) findWithSortedPets))
    ++ [ CallIsCapable "pets" (VStr "user"); ConsoleWarn "pets" ]
  /\ fst (@forge (withProduction true strictOrm) findWithSortedPets)
     = fst (@forge (withProduction false strictOrm) findWithSortedPets)
  /\ query (snd (@forge (withProduction true strictOrm) findWithSortedPets))
     = query (snd (@forge (withProduction false strictOrm) findWithSortedPets))
  /\ withoutProduction (trace (snd (@forge (withProduction true strictOrm) findWithSortedPets)))
     = trace (snd (@forge (withProduction false strictOrm) findWithSortedPets)).
Proof.
  split; [vm_compute; reflexivity|].
  apply (@production_only_adds_the_warnings strictOrm findWithSortedPets).
  - exact strictOrm_normal.
  - intros k u. exists false. reflexivity.
Defined.

(** ** Forging what has been forged *)

Lemma keys_set_prop d k v x :
  List.In x (keys (set_prop d k v)) -> x = k \/ List.In x (keys d).
Proof. rewrite In_keys_set_prop. intuition. Qed.

Lemma difference_nil xs ys : difference xs ys = [] <-> incl xs ys.
Proof.
  unfold difference. induction xs as [|x xs IH]; cbn.
  - split; [intros _ y [] | reflexivity].
  - destruct (contains_str ys x) eqn:E; cbn.
    + rewrite IH. apply contains_str_In in E. split.
      * intros H y [<-|Hy]; auto.
      * intros H y Hy. apply H. now right.
    + split; [discriminate|]. intros H. exfalso.
      assert (Hin : List.In x ys) by (apply H; now left).
      apply contains_str_In in Hin. congruence.
Qed.

(** The keys of the query stay within [allowed]. *)
Definition keysWithin (allowed : list string) (s s' : state) : Prop :=
  incl (keys (query s)) allowed -> incl (keys (query s')) allowed.

#[export] Instance keysWithin_preorder allowed : PreOrder (keysWithin allowed).
Proof. split; [intros s H; exact H | intros s1 s2 s3 H1 H2 H; auto]. Qed.

Lemma keysWithin_emit allowed ev : preserves (keysWithin allowed) (emit ev).
Proof. intros s r s' [= _ <-] H. exact H. Qed.

Lemma keysWithin_writeKey allowed k v :
  List.In k allowed -> preserves (keysWithin allowed) (writeKey k v).
Proof.
  intros Hk s r s'. unfold writeKey. mrun. intros [= _ <-] H x Hx. cbn in Hx.
  apply keys_set_prop in Hx as [->|Hx]; auto.
Qed.

#[export] Hint Resolve keysWithin_emit : preserves.
#[export] Hint Extern 1 (preserves (keysWithin _) (writeKey _ _)) =>
  apply keysWithin_writeKey; assumption : preserves.

Lemma keysWithin_forgeQueryKeys {deps : Dependencies} u W m ets ks :
  _getQueryKeys m = Some ks ->
  preserves (keysWithin (universalKeys ++ ks)) (forgeQueryKeys u W m ets ks).
Proof.
  intros Hks.
  assert (Hin : forall x, contains_str ks x = true -> List.In x (universalKeys ++ ks)).
  { intros x Hx. apply List.in_app_iff. right. now apply contains_str_In. }
  unfold forgeQueryKeys.
  repeat (apply preserves_bind; [ exact _ | | intros _ ]); try (apply preserves_ret; exact _).
  all: unfold when;
    match goal with
    | |- preserves _ (if ?c then _ else _) =>
        let G := fresh "G" in destruct c eqn:G; [ | apply preserves_ret; exact _ ]
    end.
  all: try (pose proof (Hin _ (populates_with_criteria _ _ Hks G)) as Hcrit).
  all: try (pose proof (Hin _ G) as Hkey).
  all: unfold_blocks; preserves_auto.
Qed.

(** X16. A query that has been forged is no longer a query to forge. When a
    count, sum, avg, findOrCreate, update or destroy query has been forged
    and the normal form of its criteria carries a [select] clause, forging
    the result once more throws [E_INVALID_CRITERIA]: the checks of the
    essentials pass again, and the check of the clauses, which cannot tell
    a clause that the normalizer has filled in from a clause that the
    caller has given, refuses the [select] for this method. *)
Theorem a_forged_query_is_not_forged_twice {deps : Dependencies} q sf m :
  normalFormsAreDictionaries ->
  forge q = (Ok tt, sf) ->
  prop q "method" = VStr m ->
  List.In m criteriaMethods ->
  forge (query sf)
  = (Err (UsageError E_INVALID_CRITERIA),
     {| query := query sf; trace := [ CallGetModel (prop q "using") ] |}).
Proof.
  intros normal Hf Hm Hin.
  destruct (essentials_or_untouched q) as [(u & m' & W & ks & He)|(e & t & E & _)];
    [|rewrite E in Hf; discriminate].
  pose proof (pe_method _ _ _ _ _ He) as Hm'. rewrite Hm in Hm'. injection Hm' as <-.
  pose proof (pe_keys _ _ _ _ _ He) as Hks. rewrite (pe_using _ _ _ _ _ He).
  set (ets := ensureTypeSafetyOf (prop q "meta")) in *.
  (* the criteria of the result is a normal form *)
  assert (Hc : exists c', prop (query sf) "criteria" = VObj c'
                          /\ isArray (prop c' "select") = true).
  { pose proof (criteria_normal_form q sf m u Hf Hm Hin (pe_using _ _ _ _ _ He)) as Hn.
    destruct (normal _ _ _ _ Hn) as [Hd Hs]. apply dictionary_inv in Hd as [c' Hc'].
    exists c'. rewrite Hc' in Hs. split; assumption. }
  destruct Hc as (c' & Hc' & Hsel).
  (* the result passes the checks of the essentials *)
  pose proof Hf as Hf'. rewrite (forge_essentials _ _ _ _ _ He) in Hf'.
  assert (Hkeep : forall k, contains_str assignedKeys k = false ->
                            prop (query sf) k = prop q k).
  { intros k Hk.
    apply (keepsKey_forgeQueryKeys (VStr u) W m ets ks k Hks) in Hf'; [exact Hf'|].
    now rewrite Hk. }
  assert (He' : passesEssentials (query sf) u m W ks).
  { destruct He as [H1 H2 H3 H4 H5 H6 H7].
    split; rewrite ?Hkeep by reflexivity; try assumption.
    apply difference_nil.
    apply (keysWithin_forgeQueryKeys (VStr u) W m ets ks Hks) in Hf'.
    apply Hf'. now apply difference_nil. }
  rewrite (forge_essentials _ _ _ _ _ He'). unfold forgeQueryKeys.
  assert (Hcrit : contains_str ks "criteria" = true
                  /\ contains_str PROJECTION_COMPATIBLE_METHODS m = false).
  { unfold criteriaMethods in Hin. cbn [List.In] in Hin.
    repeat destruct Hin as [<-|Hin]; try contradiction;
      vm_compute in Hks; injection Hks as <-; split; reflexivity. }
  destruct Hcrit as [-> Hproj]. unfold when at 1. unfold bind at 1.
  rewrite forgeCriteria_incompatible; [reflexivity|].
  unfold incompatibleClause, specifies. rewrite Hc', Hproj. cbn.
  destruct (prop c' "select"); try discriminate Hsel. reflexivity.
Qed.

Lemma a_forged_query_is_not_forged_twice_witness :
  fst (@forge strictOrm countUsers) = Ok tt
  /\ @forge strictOrm (query (snd (@forge strictOrm countUsers)))
     = (Err (UsageError E_INVALID_CRITERIA),
        {| query := query (snd (@forge strictOrm countUsers));
           trace := [ CallGetModel (prop countUsers "using") ] |}).
Proof.
  split; [vm_compute; reflexivity|].
  apply (@a_forged_query_is_not_forged_twice strictOrm countUsers
           (snd (@forge strictOrm countUsers)) "count").
  - exact strictOrm_normal.
  - vm_compute. reflexivity.
  - reflexivity.
  - left. reflexivity.
Defined.

End ForgeLaws.

(* ===================================================================== *)
(** * Part VI: further properties of the query integrator                 *)
(* ===================================================================== *)

Module IntegratorLaws.
Import Integrator IntegratorFacts.

(** ** What the callback receives *)

(** X17. When the callback is given an error, nothing has been joined: the error
    is one that the validation found, the results are [undefined], and the
    heap, the cache with it, is as it was. An exception of the engine or of
    a join primitive is thrown, and never handed to the callback. *)
Theorem an_error_in_the_callback_means_that_nothing_was_joined {host : Host}
    h cache joinInstructions cb invalid results h' :
  integrate h cache joinInstructions cb = CalledBack (Some invalid) results h' ->
  validate cache joinInstructions cb h = Ok (Some invalid, h)
  /\ results = VUndefined /\ h' = h /\ isFunction cb = true.
Proof.
  unfold integrate.
  destruct (validate cache joinInstructions cb h) as [[[inv|] h0]|e] eqn:Ev; [| |discriminate].
  - apply validate_ok in Ev as [-> _]. unfold callBack.
    destruct (isFunction cb); [|discriminate]. intros [= -> <- <-]. auto.
  - destruct (join cache joinInstructions h0) as [[r h1]|e]; [|discriminate].
    unfold callBack. destruct (isFunction cb); discriminate.
Qed.

Lemma an_error_in_the_callback_witness :
  @integrate specHost sampleHeap (VNum 5) (VArr [ petsOfUser ]) (VFun "cb")
  = CalledBack (Some (AnchorErrors (VNum 5) TObject)) VUndefined sampleHeap
  /\ @validate specHost (VNum 5) (VArr [ petsOfUser ]) (VFun "cb") sampleHeap
     = Ok (Some (AnchorErrors (VNum 5) TObject), sampleHeap)
  /\ VUndefined = VUndefined /\ sampleHeap = sampleHeap /\ isFunction (VFun "cb") = true.
Proof.
  split; [reflexivity|].
  apply (@an_error_in_the_callback_means_that_nothing_was_joined specHost
           sampleHeap (VNum 5) (VArr [ petsOfUser ]) (VFun "cb")
           (AnchorErrors (VNum 5) TObject) VUndefined sampleHeap).
  reflexivity.
Defined.

(** X18. Without a callback [integrate] joins nothing and throws. When [cb] is
    not a function the validation never passes, whatever the cache and the
    instructions are: either it throws itself, what the engine throws on a
    property of [undefined] or [null] or what [anchor] throws, or it finds
    the usage invalid, and the report of that, [cb(invalid)], is a call of
    what is not a function, a [TypeError]. In no case is [cb] called. *)
Theorem integrate_needs_a_callback {host : Host} h cache joinInstructions cb :
  isFunction cb = false ->
  ((exists e, validate cache joinInstructions cb h = Err e
              /\ integrate h cache joinInstructions cb = Threw e)
   \/ (exists invalid, validate cache joinInstructions cb h = Ok (Some invalid, h)
                       /\ integrate h cache joinInstructions cb = Threw TypeError))
  /\ (forall err results h', integrate h cache joinInstructions cb <> CalledBack err results h').
Proof.
  intros Hcb.
  assert (Hthrows : (exists e, validate cache joinInstructions cb h = Err e
                               /\ integrate h cache joinInstructions cb = Threw e)
                    \/ (exists invalid,
                          validate cache joinInstructions cb h = Ok (Some invalid, h)
                          /\ integrate h cache joinInstructions cb = Threw TypeError)).
  { unfold integrate.
    destruct (validate cache joinInstructions cb h) as [[[inv|] h']|e] eqn:E.
    - right. exists inv. apply validate_ok in E as [-> _]. unfold callBack.
      now rewrite Hcb.
    - apply validate_ok in E as [_ E]. rewrite E in Hcb by reflexivity. discriminate.
    - left. exists e. split; reflexivity. }
  split; [exact Hthrows|].
  intros err results h'. destruct Hthrows as [(e & _ & ->)|(inv & _ & ->)]; discriminate.
Qed.

Lemma integrate_needs_a_callback_witness :
  @integrate specHost sampleHeap (VNum 5) (VArr [ petsOfUser ]) VNull = Threw TypeError
  /\ @integrate specHost sampleHeap (VFun "f") (VArr [ petsOfUser ]) VNull
     = Threw (AnchorError "Anchor does not support functions yet!")
  /\ ((exists e, @validate specHost (VRef 1) (VArr [ petsOfUser ]) VNull sampleHeap = Err e
                 /\ @integrate specHost sampleHeap (VRef 1) (VArr [ petsOfUser ]) VNull = Threw e)
      \/ (exists invalid,
            @validate specHost (VRef 1) (VArr [ petsOfUser ]) VNull sampleHeap
            = Ok (Some invalid, sampleHeap)
            /\ @integrate specHost sampleHeap (VRef 1) (VArr [ petsOfUser ]) VNull
               = Threw TypeError)).
Proof.
  split; [reflexivity | split; [reflexivity|]].
  apply (@integrate_needs_a_callback specHost sampleHeap (VRef 1) (VArr [ petsOfUser ]) VNull).
  reflexivity.
Defined.

(** ** The groups of the instructions *)

Section Groups.
Context {host : Host} (h : heap) (k : string).

(** The key under which [_.groupBy] files an element. *)
Definition groupKey (x : value) : string := key_string (toPropertyKey h (property h k x)).

Definition filedUnder (a : string) (xs : list value) : list value :=
  List.filter (fun x => String.eqb (groupKey x) a) xs.

(** The groups [gs] are the groups of the elements [xs]: one group for each
    key that occurs, holding the elements of that key in their order. *)
Definition groupsOf (xs : list value) (gs : list (string * list value)) : Prop :=
  List.NoDup (map fst gs)
  /\ forall a g, List.In (a, g) gs <-> g = filedUnder a xs /\ g <> [].

Lemma addToGroup_In gs a x b g :
  List.NoDup (map fst gs) ->
  List.In (b, g) (addToGroup gs a x) <->
  (b <> a /\ List.In (b, g) gs)
  \/ (b = a /\ ((exists g0, List.In (a, g0) gs /\ g = g0 ++ [ x ])
                \/ (~ List.In a (map fst gs) /\ g = [ x ]))).
Proof.
  induction gs as [|[c g1] gs IH]; cbn; intros Hnd.
  - split.
    + intros [[= <- <-]|[]]. right. split; [reflexivity|]. right. split; [tauto | reflexivity].
    + intros [[_ []]|[-> [(g0 & [] & _)|[_ ->]]]]. now left.
  - inversion Hnd as [|? ? Hc Hnd']; subst. specialize (IH Hnd').
    destruct (String.eqb_spec c a) as [->|Hne]; cbn.
    + split.
      * intros [[= <- <-]|Hin].
        -- right. split; [reflexivity|]. left. exists g1. split; [now left | reflexivity].
        -- left. split; [|now right]. intros ->. apply Hc.
           change a with (fst (a, g)). now apply List.in_map.
      * intros [[Hb [[= -> ->]|Hin]]|[-> [(g0 & [[= <-]|Hin] & ->)|[Hn _]]]].
        -- contradiction.
        -- now right.
        -- now left.
        -- exfalso. apply Hc. change a with (fst (a, g0)). now apply List.in_map.
        -- exfalso. apply Hn. now left.
    + rewrite IH. split.
      * intros [[= <- <-]|[[Hb Hin]|[-> [(g0 & Hin & ->)|[Hn ->]]]]].
        -- left. split; [assumption | now left].
        -- left. split; [assumption | now right].
        -- right. split; [reflexivity|]. left. exists g0. split; [now right | reflexivity].
        -- right. split; [reflexivity|]. right. split; [|reflexivity].
           intros [Hca|Hin]; [congruence | contradiction].
      * intros [[Hb [[= <- <-]|Hin]]|[-> [(g0 & [[= -> _]|Hin] & ->)|[Hn ->]]]].
        -- now left.
        -- right. left. now split.
        -- congruence.
        -- right. right. split; [reflexivity|]. left. now exists g0.
        -- right. right. split; [reflexivity|]. right. split; [tauto | reflexivity].
Qed.

Lemma filedUnder_snoc a xs x :
  filedUnder a (xs ++ [ x ])
  = filedUnder a xs ++ (if String.eqb (groupKey x) a then [ x ] else []).
Proof. unfold filedUnder. rewrite List.filter_app. reflexivity. Qed.

Lemma groupsOf_snoc xs gs x :
  groupsOf xs gs -> groupsOf (xs ++ [ x ]) (addToGroup gs (groupKey x) x).
Proof.
  intros [Hnd Hgs]. split.
  - rewrite addToGroup_keys. destruct (existsb _ _) eqn:E; [assumption|].
    apply List.NoDup_app; [assumption | repeat constructor; intros [] |].
    intros a Ha [<-|[]].
    assert (existsb (String.eqb (groupKey x)) (map fst gs) = true); [|congruence].
    apply existsb_exists. exists (groupKey x). split; [assumption | apply String.eqb_refl].
  - intros a g. rewrite addToGroup_In by assumption. rewrite filedUnder_snoc.
    destruct (String.eqb_spec (groupKey x) a) as [<-|Hne].
    + split.
      * intros [[Hb _]|[_ [(g0 & Hin & ->)|[Hn ->]]]]; [congruence | |].
        -- apply Hgs in Hin as [-> _]. split; [reflexivity | now destruct (filedUnder _ _)].
        -- split; [|discriminate].
           destruct (filedUnder (groupKey x) xs) as [|y ys] eqn:Ef; [reflexivity|].
           exfalso. apply Hn. change (groupKey x) with (fst (groupKey x, y :: ys)).
           apply List.in_map, Hgs. split; [now rewrite Ef | discriminate].
      * intros [-> _]. right. split; [reflexivity|].
        destruct (filedUnder (groupKey x) xs) as [|y ys] eqn:Ef.
        -- right. split; [|reflexivity]. intros Hin.
           apply List.in_map_iff in Hin as ([b g0] & Hb & Hin). cbn in Hb. subst b.
           apply Hgs in Hin as [-> Hg0]. now apply Hg0.
        -- left. exists (y :: ys). split; [|reflexivity].
           apply Hgs. split; [now rewrite Ef | discriminate].
    + rewrite app_nil_r. rewrite <- Hgs. split.
      * intros [[_ Hin]|[-> _]]; [assumption | congruence].
      * intros Hin. left. split; [congruence | assumption].
Qed.

Lemma fold_addToGroup xs ys gs :
  groupsOf xs gs ->
  groupsOf (xs ++ ys) (fold_left (fun groups x => addToGroup groups (groupKey x) x) ys gs).
Proof.
  revert xs gs. induction ys as [|y ys IH]; intros xs gs H; cbn.
  - now rewrite app_nil_r.
  - replace (xs ++ y :: ys) with ((xs ++ [ y ]) ++ ys) by now rewrite <- app_assoc.
    apply IH, groupsOf_snoc, H.
Qed.

(** The order of the groups does not matter. *)
Lemma groupsOf_Permutation xs gs gs' :
  Permutation gs gs' -> groupsOf xs gs -> groupsOf xs gs'.
Proof.
  intros Hp [Hnd Hgs]. split.
  - eapply Permutation_NoDup; [apply Permutation_map, Hp | exact Hnd].
  - intros a g. rewrite <- Hgs. split; apply Permutation_in; [symmetry|]; exact Hp.
Qed.

End Groups.

(** X19. [integrate] files the instructions by alias wherever they stand in the
    array: there is one group for each alias that occurs, and it holds all
    the instructions of that alias, in the order of the array. *)
Theorem every_alias_has_one_group_of_all_its_instructions {host : Host} h joinInstructions :
  groupsOf h "alias" (elements h joinInstructions) (groupBy h joinInstructions "alias").
Proof.
  unfold groupBy.
  apply (groupsOf_Permutation h "alias" _ (grouped h joinInstructions "alias"));
    [symmetry; apply enumerate_Permutation|].
  unfold grouped. apply (fold_addToGroup h "alias" [] (elements h joinInstructions) []).
  split; [constructor|]. intros a g. cbn. split; [intros [] | intros [-> H]; now apply H].
Qed.

End IntegratorLaws.
